(** * Chat moderation plugin: a shallow embedding and its properties

    The development follows [chat_moderation_plugin.py] (class
    [ChatModerationPlugin]) and [moderation_api.py] (class [ModerationAPI]
    and the method [on_message] of [DiscordModerationBot]).

    Conventions of the embedding.
    - A Python [str] is a [string]; a character is read as the code point
      of the same number (the Latin-1 range), and the character tables
      below are Python's for that range.
    - [datetime] values are integers, the microseconds since
      [datetime.min]; [time.time()] and the ratios of the detectors are
      binary64 floats, as in the source.
    - A method of the plugin is a computation on the plugin object: it
      takes the object's state and returns a result, or the exception it
      raised, together with the state it left behind.
    - The clock is an argument: one call reads one instant, late enough
      for [datetime.now() - timedelta(hours=24)] to be a date. An expiry
      [now + timedelta(seconds=duration)] can overflow, and does so as in
      the source.
    - The log file is not part of the state: calls of the logger are left
      out. *)

From Stdlib Require Import ZArith String Ascii List Bool Lia Floats Uint63.
From stdpp Require Import base decidable option list gmap strings fin_maps.
Import ListNotations.

Open Scope string_scope.
Open Scope Z_scope.

(** ** Characters *)

Module Char.

Definition code (c : ascii) : N := N_of_ascii c.

Definition between (lo hi : N) (c : ascii) : bool :=
  ((lo <=? code c) && (code c <=? hi))%N.

(** [str.isupper] on one character. *)
Definition isupper (c : ascii) : bool :=
  between 65 90 c || between 192 214 c || between 216 222 c.

(** [str.isspace], the separators of [str.split()]. *)
Definition isspace (c : ascii) : bool :=
  between 9 13 c || between 28 32 c || (code c =? 133)%N || (code c =? 160)%N.

(** The class [\w] of [re] on [str] patterns. *)
Definition isword (c : ascii) : bool :=
  between 48 57 c || between 65 90 c || (code c =? 95)%N || between 97 122 c
  || (code c =? 170)%N || between 178 179 c || (code c =? 181)%N
  || between 185 186 c || between 188 190 c || between 192 214 c
  || between 216 246 c || between 248 255 c.

(** Case folding as [re.IGNORECASE] applies it to the characters that
    can meet an ASCII pattern character: only A-Z fold onto a-z. *)
Definition lower (c : ascii) : ascii :=
  if between 65 90 c then ascii_of_N (code c + 32) else c.

Definition isdigit (c : ascii) : bool := between 48 57 c.

(** ASCII punctuation. *)
Definition ispunct (c : ascii) : bool :=
  between 33 47 c || between 58 64 c || between 91 96 c || between 123 126 c.

End Char.

(** ** Numbers *)

(** [float(z)]; exact below 2^53 in magnitude. The conversion goes
    through a 63-bit integer: numbers of 2^63 and above are outside the
    model (Python compares a float with such an integer exactly). *)
Definition float_of_Z (z : Z) : float :=
  if z <? 0 then PrimFloat.opp (PrimFloat.of_uint63 (Uint63.of_Z (- z)))
  else PrimFloat.of_uint63 (Uint63.of_Z z).

Definition len {A} (l : list A) : Z := Z.of_nat (length l).

Definition str_len (s : string) : Z := Z.of_nat (String.length s).

(** ** [datetime] and [timedelta] *)

Module Datetime.

(** [datetime.max - datetime.min] in microseconds. *)
Definition MAX : Z := 315537897599999999.

Definition MAX_DELTA_DAYS : Z := 999999999.

(** [timedelta(seconds=s)]: [None] stands for [OverflowError]. *)
Definition timedelta_seconds (s : Z) : option Z :=
  let days := s / 86400 in
  if (- MAX_DELTA_DAYS <=? days) && (days <=? MAX_DELTA_DAYS)
  then Some (s * 1000000) else None.

(** [t + d]: [None] stands for [OverflowError] (date value out of range). *)
Definition add (t d : Z) : option Z :=
  let r := t + d in
  if (0 <=? r) && (r <=? MAX) then Some r else None.

(** [t + timedelta(seconds=s)] *)
Definition add_seconds (t s : Z) : option Z :=
  match timedelta_seconds s with
  | Some d => add t d
  | None => None
  end.

(** [timedelta(hours=24)] *)
Definition DAY : Z := 86400 * 1000000.

End Datetime.

(** One reading of the clock: [datetime.now()] and [time.time()]. *)
Record Clock := { now : Z; time : float }.

(** ** [str.split()] *)

Fixpoint split_aux (cur : list ascii) (s : list ascii) : list (list ascii) :=
  match s with
  | [] => match cur with [] => [] | _ => [rev cur] end
  | c :: s' =>
      if Char.isspace c
      then match cur with
           | [] => split_aux [] s'
           | _ => rev cur :: split_aux [] s'
           end
      else split_aux (c :: cur) s'
  end.

Definition split (m : string) : list string :=
  map string_of_list_ascii (split_aux [] (list_ascii_of_string m)).

(** ** The compiled profanity patterns *)

Module Re.

(** A pattern [\b c1 c2 ... cn \b] compiled with [re.IGNORECASE]: each
    [ci] is a character class, the list of its members. *)
Definition pattern := list (list ascii).

Definition isword_opt (c : option ascii) : bool :=
  match c with Some x => Char.isword x | None => false end.

(** [\b] between the character before the position and the one at it. *)
Definition word_boundary (prev next : option ascii) : bool :=
  xorb (isword_opt prev) (isword_opt next).

Definition in_class (cls : list ascii) (x : ascii) : bool :=
  existsb (fun p => Ascii.eqb (Char.lower x) (Char.lower p)) cls.

(** The classes against a prefix of [s]: the text matched, its last
    character (or [prev] when it is empty) and the rest of [s]. *)
Fixpoint match_classes (p : pattern) (prev : option ascii) (s : list ascii)
  : option (list ascii * option ascii * list ascii) :=
  match p with
  | [] => Some ([], prev, s)
  | cls :: p' =>
      match s with
      | [] => None
      | x :: s' =>
          if in_class cls x
          then match match_classes p' (Some x) s' with
               | Some (m, l, r) => Some (x :: m, l, r)
               | None => None
               end
          else None
      end
  end.

(** The whole pattern at one position. *)
Definition match_here (p : pattern) (prev : option ascii) (s : list ascii)
  : option (list ascii) :=
  if word_boundary prev (head s)
  then match match_classes p prev s with
       | Some (m, l, r) => if word_boundary l (head r) then Some m else None
       | None => None
       end
  else None.

(** [pattern.findall]: the matches from left to right, none overlapping
    another; [skip] counts the characters still covered by the last
    match. *)
Fixpoint findall_from (p : pattern) (prev : option ascii) (s : list ascii)
    (skip : nat) : list (list ascii) :=
  match s with
  | [] => match skip with
          | O => match match_here p prev [] with Some m => [m] | None => [] end
          | S _ => []
          end
  | x :: s' =>
      match skip with
      | S k => findall_from p (Some x) s' k
      | O =>
          match match_here p prev s with
          | Some m => m :: findall_from p (Some x) s' (Nat.pred (length m))
          | None => findall_from p (Some x) s' 0
          end
      end
  end.

Definition findall (p : pattern) (m : string) : list string :=
  map string_of_list_ascii (findall_from p None (list_ascii_of_string m) 0).

End Re.

(** ** Data model *)

Inductive ModerationAction := WARN | MUTE | KICK | BAN | DELETE_MESSAGE.

Inductive ViolationType :=
  PROFANITY | SPAM | RATE_LIMIT | CAPS_ABUSE | REPETITIVE | INAPPROPRIATE_CONTENT.

#[global] Instance ModerationAction_eq_dec : EqDecision ModerationAction.
Proof. solve_decision. Defined.

#[global] Instance ViolationType_eq_dec : EqDecision ViolationType.
Proof. solve_decision. Defined.

(** The [value] of an enum member. *)
Definition action_value (a : ModerationAction) : string :=
  match a with
  | WARN => "warn" | MUTE => "mute" | KICK => "kick" | BAN => "ban"
  | DELETE_MESSAGE => "delete_message"
  end.

Definition violation_value (v : ViolationType) : string :=
  match v with
  | PROFANITY => "profanity" | SPAM => "spam" | RATE_LIMIT => "rate_limit"
  | CAPS_ABUSE => "caps_abuse" | REPETITIVE => "repetitive"
  | INAPPROPRIATE_CONTENT => "inappropriate_content"
  end.

(** [ModerationAction(s)], the lookup by value; [None] stands for the
    [ValueError] of a string that is no member's value. *)
Definition ModerationAction_of_value (s : string) : option ModerationAction :=
  if String.eqb s "warn" then Some WARN
  else if String.eqb s "mute" then Some MUTE
  else if String.eqb s "kick" then Some KICK
  else if String.eqb s "ban" then Some BAN
  else if String.eqb s "delete_message" then Some DELETE_MESSAGE
  else None.

Record UserViolation := {
  v_user_id : string;
  violation_type : ViolationType;
  v_message : string;
  timestamp : Z;
  action_taken : ModerationAction;
  moderator : option string
}.

Record UserStatus := {
  user_id : string;
  is_muted : bool;
  is_banned : bool;
  mute_until : option Z;
  ban_until : option Z;
  violation_count : Z;
  last_message_time : float;
  recent_messages : list string
}.

(** [UserStatus(user_id=uid)] *)
Definition new_user (uid : string) : UserStatus :=
  {| user_id := uid; is_muted := false; is_banned := false;
     mute_until := None; ban_until := None; violation_count := 0;
     last_message_time := 0%float; recent_messages := [] |}.

(** The [whitelist] section of the configuration; a key may be missing. *)
Record Whitelist := {
  wl_enabled : option bool;
  moderator_roles : option (list string)
}.

(** The configuration dictionary, by the keys the code reads. The keys
    under [rules] and [escalation] are taken as present; the [whitelist]
    section is optional, the built-in configuration has none. The keys
    [action], [threshold], [duration] and [auto_escalate] of the rules are
    never read. *)
Record Config := {
  profanity_filter_enabled : bool;
  spam_detection_enabled : bool;
  rate_limiting_enabled : bool;
  max_messages_per_minute : Z;
  caps_abuse_enabled : bool;
  max_caps_percentage : Z;
  min_message_length : Z;
  escalation_enabled : bool;
  warn_to_mute_threshold : Z;
  mute_to_kick_threshold : Z;
  kick_to_ban_threshold : Z;
  whitelist : option Whitelist
}.

(** [default_config] of [load_config]. *)
Definition default_config : Config :=
  {| profanity_filter_enabled := true;
     spam_detection_enabled := true;
     rate_limiting_enabled := true;
     max_messages_per_minute := 10;
     caps_abuse_enabled := true;
     max_caps_percentage := 70;
     min_message_length := 10;
     escalation_enabled := true;
     warn_to_mute_threshold := 3;
     mute_to_kick_threshold := 2;
     kick_to_ban_threshold := 2;
     whitelist := None |}.

(** The plugin object: [self.users], [self.violations], [self.config]. *)
Record Plugin := {
  users : gmap string UserStatus;
  violations : list UserViolation;
  config : Config
}.

(** [ChatModerationPlugin.__init__] once the configuration is loaded. *)
Definition init (cfg : Config) : Plugin :=
  {| users := ∅; violations := []; config := cfg |}.

(** [load_profanity_filter] assigns the word list and compiles it; every
    path that reloads the filter goes through it, so the list is this one
    in every state. The source keeps it in a set, whose order of
    iteration is not fixed; the order here is that of the literal. *)
Definition profanity_words : list string :=
  ["damn"; "shit"; "fuck"; "bitch"; "asshole"; "bastard";
   "crap"; "piss"; "hell"; "ass"; "slut"; "whore"].

(** [word.replace('a','[a@]').replace('e','[e3]').replace('i','[i1]')
    .replace('o','[o0]')], read as the character classes it denotes. *)
Definition compile_char (c : ascii) : list ascii :=
  if Ascii.eqb c "a" then ["a"; "@"]%char
  else if Ascii.eqb c "e" then ["e"; "3"]%char
  else if Ascii.eqb c "i" then ["i"; "1"]%char
  else if Ascii.eqb c "o" then ["o"; "0"]%char
  else [c].

Definition compile_word (w : string) : Re.pattern :=
  map compile_char (list_ascii_of_string w).

Definition profanity_patterns : list Re.pattern :=
  map compile_word profanity_words.

(** ** Computations on the plugin *)

Inductive exn :=
| KeyError (key : string)
| ZeroDivisionError.

Inductive result (A : Type) :=
| Ok (a : A)
| Raise (e : exn).
Arguments Ok {A} a.
Arguments Raise {A} e.

Definition M (A : Type) : Type := Plugin -> result A * Plugin.

Definition ret {A} (a : A) : M A := fun st => (Ok a, st).

Definition raise {A} (e : exn) : M A := fun st => (Raise e, st).

Definition bind {A B} (m : M A) (k : A -> M B) : M B :=
  fun st =>
    match m st with
    | (Ok a, st') => k a st'
    | (Raise e, st') => (Raise e, st')
    end.

Definition get : M Plugin := fun st => (Ok st, st).

Notation "x <- m ;; k" := (bind m (fun x => k))
  (at level 100, m at next level, right associativity).
Notation "m ;;; k" := (bind m (fun _ => k))
  (at level 100, right associativity).

(** A conditional statement without [else]. *)
Definition when (b : bool) (m : M unit) : M unit := if b then m else ret tt.

Definition set_users (f : gmap string UserStatus -> gmap string UserStatus) : M unit :=
  fun st => (Ok tt, {| users := f (users st); violations := violations st;
                       config := config st |}).

Definition the_config : M Config := fun st => (Ok (config st), st).

(** [get_user_status]: the status object of the user, made on first use. *)
Definition get_user_status (uid : string) : M UserStatus :=
  fun st =>
    match users st !! uid with
    | Some u => (Ok u, st)
    | None =>
        (Ok (new_user uid),
         {| users := <[uid := new_user uid]> (users st);
            violations := violations st; config := config st |})
    end.

(** An assignment to attributes of the status object of [uid]; the
    object is the one [get_user_status] returned, which stays in the map. *)
Definition update_user (uid : string) (f : UserStatus -> UserStatus) : M unit :=
  set_users (fun us => alter f uid us).

Definition set_muted (b : bool) (u : UserStatus) : UserStatus :=
  {| user_id := user_id u; is_muted := b; is_banned := is_banned u;
     mute_until := mute_until u; ban_until := ban_until u;
     violation_count := violation_count u;
     last_message_time := last_message_time u;
     recent_messages := recent_messages u |}.

Definition set_mute_until (t : option Z) (u : UserStatus) : UserStatus :=
  {| user_id := user_id u; is_muted := is_muted u; is_banned := is_banned u;
     mute_until := t; ban_until := ban_until u;
     violation_count := violation_count u;
     last_message_time := last_message_time u;
     recent_messages := recent_messages u |}.

Definition set_banned (b : bool) (u : UserStatus) : UserStatus :=
  {| user_id := user_id u; is_muted := is_muted u; is_banned := b;
     mute_until := mute_until u; ban_until := ban_until u;
     violation_count := violation_count u;
     last_message_time := last_message_time u;
     recent_messages := recent_messages u |}.

Definition set_ban_until (t : option Z) (u : UserStatus) : UserStatus :=
  {| user_id := user_id u; is_muted := is_muted u; is_banned := is_banned u;
     mute_until := mute_until u; ban_until := t;
     violation_count := violation_count u;
     last_message_time := last_message_time u;
     recent_messages := recent_messages u |}.

Definition incr_violation_count (u : UserStatus) : UserStatus :=
  {| user_id := user_id u; is_muted := is_muted u; is_banned := is_banned u;
     mute_until := mute_until u; ban_until := ban_until u;
     violation_count := violation_count u + 1;
     last_message_time := last_message_time u;
     recent_messages := recent_messages u |}.

(** [user.last_message_time = current_time; user.recent_messages.append(m);
    if len(user.recent_messages) > 10: user.recent_messages.pop(0)] *)
Definition track_message (t : float) (m : string) (u : UserStatus) : UserStatus :=
  let msgs := (recent_messages u ++ [m])%list in
  {| user_id := user_id u; is_muted := is_muted u; is_banned := is_banned u;
     mute_until := mute_until u; ban_until := ban_until u;
     violation_count := violation_count u;
     last_message_time := t;
     recent_messages := if len msgs >? 10 then tail msgs else msgs |}.

(** ** The detectors *)

(** [check_profanity] *)
Definition check_profanity (message : string) : M (bool * list string) :=
  cfg <- the_config ;;
  if negb (profanity_filter_enabled cfg) then ret (false, [])
  else
    let found_words := flat_map (fun p => Re.findall p message) profanity_patterns in
    ret (len found_words >? 0, found_words).

(** [len(set(words))] *)
Definition distinct (words : list string) : Z :=
  Z.of_nat (size (list_to_set words : gset string)).

(** [len(unique_words) / len(words) < 0.3] *)
Definition mostly_repeated (words : list string) : bool :=
  PrimFloat.ltb
    (PrimFloat.div (float_of_Z (distinct words)) (float_of_Z (len words)))
    0x1.3333333333333p-2%float.

(** [check_spam] *)
Definition check_spam (uid message : string) : M bool :=
  cfg <- the_config ;;
  if negb (spam_detection_enabled cfg) then ret false
  else
    user <- get_user_status uid ;;
    if bool_decide (message ∈ recent_messages user) then ret true
    else
      let words := split message in
      if (len words >? 3) && mostly_repeated words then ret true
      else if (len words <=? 3) && (distinct words =? 1) && (len words >? 1)
      then ret true
      else ret false.

(** [check_rate_limit] *)
Definition check_rate_limit (uid : string) (clk : Clock) : M bool :=
  cfg <- the_config ;;
  if negb (rate_limiting_enabled cfg) then ret false
  else
    user <- get_user_status uid ;;
    if (len (recent_messages user) >=? max_messages_per_minute cfg)
       && PrimFloat.ltb (PrimFloat.sub (time clk) (last_message_time user)) 60%float
    then ret true
    else ret false.

(** [sum(1 for c in message if c.isupper())] *)
Definition caps_count (message : string) : Z :=
  len (filter (fun c => Char.isupper c = true) (list_ascii_of_string message)).

(** [(caps_count / len(message)) * 100] *)
Definition caps_percentage (message : string) : float :=
  PrimFloat.mul
    (PrimFloat.div (float_of_Z (caps_count message)) (float_of_Z (str_len message)))
    100%float.

(** [check_caps_abuse] *)
Definition check_caps_abuse (message : string) : M bool :=
  cfg <- the_config ;;
  if negb (caps_abuse_enabled cfg) then ret false
  else if str_len message <? min_message_length cfg then ret false
  else if str_len message =? 0 then raise ZeroDivisionError
  else ret (PrimFloat.ltb (float_of_Z (max_caps_percentage cfg))
                          (caps_percentage message)).

(** ** Actions, the violation log and escalation *)

(** [apply_moderation_action]; the reason only goes to the log. The flag
    is assigned before the expiry is computed; when that computation
    overflows, the handler returns [False] and the flag stays. *)
Definition apply_moderation_action (uid : string) (action : ModerationAction)
    (duration : Z) (clk : Clock) : M bool :=
  _ <- get_user_status uid ;;
  match action with
  | MUTE =>
      update_user uid (set_muted true) ;;;
      match Datetime.add_seconds (now clk) duration with
      | Some t => update_user uid (set_mute_until (Some t)) ;;; ret true
      | None => ret false
      end
  | BAN =>
      update_user uid (set_banned true) ;;;
      match Datetime.add_seconds (now clk) duration with
      | Some t => update_user uid (set_ban_until (Some t)) ;;; ret true
      | None => ret false
      end
  | KICK => ret true
  | WARN => ret true
  | DELETE_MESSAGE => ret true
  end.

Definition append_violation (v : UserViolation) : M unit :=
  fun st => (Ok tt, {| users := users st; violations := violations st ++ [v];
                       config := config st |}).

(** The violations of [uid] younger than 24 hours with action [a]. *)
Definition recent_with_action (uid : string) (clk : Clock)
    (a : ModerationAction) (log : list UserViolation) : Z :=
  len (filter (fun v => action_taken v = a)
         (filter (fun v => v_user_id v = uid
                           ∧ timestamp v > now clk - Datetime.DAY) log)).

(** [check_escalation] *)
Definition check_escalation (uid : string) (clk : Clock) : M unit :=
  _ <- get_user_status uid ;;
  st <- get ;;
  let warn_count := recent_with_action uid clk WARN (violations st) in
  let mute_count := recent_with_action uid clk MUTE (violations st) in
  let kick_count := recent_with_action uid clk KICK (violations st) in
  if warn_count >=? warn_to_mute_threshold (config st)
  then _ <- apply_moderation_action uid MUTE 300 clk ;; ret tt
  else if mute_count >=? mute_to_kick_threshold (config st)
  then _ <- apply_moderation_action uid KICK 300 clk ;; ret tt
  else if kick_count >=? kick_to_ban_threshold (config st)
  then _ <- apply_moderation_action uid BAN 3600 clk ;; ret tt
  else ret tt.

(** [record_violation] *)
Definition record_violation (uid : string) (vt : ViolationType)
    (message : string) (action : ModerationAction) (clk : Clock) : M unit :=
  append_violation {| v_user_id := uid; violation_type := vt;
                      v_message := message; timestamp := now clk;
                      action_taken := action; moderator := None |} ;;;
  _ <- get_user_status uid ;;
  update_user uid incr_violation_count ;;;
  cfg <- the_config ;;
  when (escalation_enabled cfg) (check_escalation uid clk).

(** ** The pipeline *)

(** The dictionary [moderate_message] returns, by its shapes: the two
    rejections of step one, the outcome of a detection pass, and the
    outcome of the role bypass of the API. [violations] and
    [actions_taken] hold the members whose values the dictionary lists;
    [user_status] is the copy [asdict(user)]. *)
Inductive Decision :=
| RejectedBanned (ban_until : Z)
| RejectedMuted (mute_until : Z)
| Moderated (allowed : bool) (violations : list ViolationType)
            (actions_taken : list ModerationAction) (user_status : UserStatus)
| Bypassed.

Definition allowed (d : Decision) : bool :=
  match d with
  | RejectedBanned _ | RejectedMuted _ => false
  | Moderated a _ _ _ => a
  | Bypassed => true
  end.

Definition reason (d : Decision) : option string :=
  match d with
  | RejectedBanned _ => Some "User is banned"
  | RejectedMuted _ => Some "User is muted"
  | Moderated _ _ _ _ => None
  | Bypassed => Some "User has bypass permissions"
  end.

Definition decision_violations (d : Decision) : list ViolationType :=
  match d with
  | Moderated _ vs _ _ => vs
  | _ => []
  end.

Definition decision_actions (d : Decision) : list ModerationAction :=
  match d with
  | Moderated _ _ acts _ => acts
  | _ => []
  end.

(** [user.is_banned and user.ban_until and datetime.now() < user.ban_until] *)
Definition active_ban (u : UserStatus) (clk : Clock) : option Z :=
  match ban_until u with
  | Some t => if is_banned u && (now clk <? t) then Some t else None
  | None => None
  end.

Definition active_mute (u : UserStatus) (clk : Clock) : option Z :=
  match mute_until u with
  | Some t => if is_muted u && (now clk <? t) then Some t else None
  | None => None
  end.

(** One of the four blocks of the detection pass: on a hit the violation
    and the action are appended to the two lists, the action is applied
    and the violation recorded. *)
Definition on_violation (hit : bool) (uid message : string)
    (vt : ViolationType) (action : ModerationAction) (duration : Z)
    (clk : Clock) (acc : list ViolationType * list ModerationAction)
  : M (list ViolationType * list ModerationAction) :=
  if hit then
    _ <- apply_moderation_action uid action duration clk ;;
    record_violation uid vt message action clk ;;;
    ret ((fst acc ++ [vt])%list, (snd acc ++ [action])%list)
  else ret acc.

(** [any(v in [PROFANITY, SPAM] for v in violations)] *)
Definition should_delete (vs : list ViolationType) : bool :=
  existsb (fun v => bool_decide (v ∈ [PROFANITY; SPAM])) vs.

(** The detection pass and the bookkeeping after it. *)
Definition detection_pass (uid message : string) (clk : Clock) : M Decision :=
  profanity <- check_profanity message ;;
  acc <- on_violation (fst profanity) uid message PROFANITY WARN 300 clk ([], []) ;;
  user <- get_user_status uid ;;
  is_spam <- (if len (recent_messages user) >? 0
              then check_spam uid message else ret false) ;;
  acc <- on_violation is_spam uid message SPAM MUTE 300 clk acc ;;
  user <- get_user_status uid ;;
  limited <- (if len (recent_messages user) >=? 3
              then check_rate_limit uid clk else ret false) ;;
  acc <- on_violation limited uid message RATE_LIMIT MUTE 60 clk acc ;;
  shouting <- check_caps_abuse message ;;
  acc <- on_violation shouting uid message CAPS_ABUSE WARN 300 clk acc ;;
  update_user uid (track_message (time clk) message) ;;;
  user <- get_user_status uid ;;
  let violations := fst acc in
  ret (Moderated ((len violations =? 0) || negb (should_delete violations))
                 violations (snd acc) user).

(** [ChatModerationPlugin.moderate_message] *)
Definition moderate_message (uid message : string) (clk : Clock) : M Decision :=
  user <- get_user_status uid ;;
  match active_ban user clk with
  | Some t => ret (RejectedBanned t)
  | None =>
      match active_mute user clk with
      | Some t => ret (RejectedMuted t)
      | None => detection_pass uid message clk
      end
  end.

(** [get_user_violations] is not needed below. *)

(** What [cleanup_expired_punishments] does to one user. *)
Definition expire (t : Z) (u : UserStatus) : UserStatus :=
  let u1 :=
    match mute_until u with
    | Some m => if is_muted u && (t >=? m)
                then set_mute_until None (set_muted false u) else u
    | None => u
    end in
  match ban_until u1 with
  | Some b => if is_banned u1 && (t >=? b)
              then set_ban_until None (set_banned false u1) else u1
  | None => u1
  end.

(** [cleanup_expired_punishments] *)
Definition cleanup_expired_punishments (clk : Clock) : M unit :=
  set_users (fun us => expire (now clk) <$> us).

(** ** The API wrapper *)

Module API.

(** [_has_bypass_permission] *)
Definition _has_bypass_permission (user_roles : list string) : M bool :=
  cfg <- the_config ;;
  match whitelist cfg with
  | None => raise (KeyError "whitelist")
  | Some wl =>
      match wl_enabled wl with
      | None => raise (KeyError "enabled")
      | Some enabled =>
          if negb enabled then ret false
          else
            match moderator_roles wl with
            | None => raise (KeyError "moderator_roles")
            | Some roles =>
                ret (existsb (fun role => bool_decide (role ∈ roles)) user_roles)
            end
      end
  end.

(** [user_roles and self._has_bypass_permission(user_roles)]: the
    argument defaults to [None], and an empty list is as good as none. *)
Definition moderate_message (uid message : string)
    (user_roles : option (list string)) (clk : Clock) : M Decision :=
  bypass <- match user_roles with
            | None | Some [] => ret false
            | Some roles => _has_bypass_permission roles
            end ;;
  if bypass then ret Bypassed
  else moderate_message uid message clk.

(** The dictionary of [get_user_status]. *)
Record UserStatusView := {
  view_user_id : string;
  view_is_muted : bool;
  view_is_banned : bool;
  view_mute_until : option Z;
  view_ban_until : option Z;
  view_violation_count : Z
}.

(** [ModerationAPI.get_user_status] *)
Definition get_user_status (uid : string) : M UserStatusView :=
  user <- get_user_status uid ;;
  ret {| view_user_id := user_id user;
         view_is_muted := is_muted user;
         view_is_banned := is_banned user;
         view_mute_until := mute_until user;
         view_ban_until := ban_until user;
         view_violation_count := violation_count user |}.

(** [apply_manual_action]; the moderator only goes to the log. *)
Definition apply_manual_action (uid action : string) (duration : Z)
    (clk : Clock) : M bool :=
  match ModerationAction_of_value action with
  | Some mod_action => apply_moderation_action uid mod_action duration clk
  | None => ret false
  end.

(** [cleanup] *)
Definition cleanup (clk : Clock) : M unit := cleanup_expired_punishments clk.

End API.

(** * Properties *)

(** ** Computations step by step *)

Lemma bind_Ok_inv {A B} (m : M A) (k : A -> M B) st b st2 :
  bind m k st = (Ok b, st2) ->
  exists a st1, m st = (Ok a, st1) /\ k a st1 = (Ok b, st2).
Proof.
  unfold bind. destruct (m st) as [[a|e] st1]; [eauto | discriminate].
Qed.

Lemma bind_Ok {A B} (m : M A) (k : A -> M B) st a st1 :
  m st = (Ok a, st1) -> bind m k st = k a st1.
Proof. unfold bind. intros ->. reflexivity. Qed.

Lemma bind_Raise {A B} (m : M A) (k : A -> M B) st e st1 :
  m st = (Raise e, st1) -> bind m k st = (Raise e, st1).
Proof. unfold bind. intros ->. reflexivity. Qed.

Lemma get_user_status_present uid u st :
  users st !! uid = Some u -> get_user_status uid st = (Ok u, st).
Proof. unfold get_user_status. intros ->. reflexivity. Qed.

(** ** Manual actions with an unknown action string *)

Lemma ModerationAction_of_value_None (action : string) :
  (forall a, action_value a <> action) -> ModerationAction_of_value action = None.
Proof.
  intros H. unfold ModerationAction_of_value.
  destruct (String.eqb_spec action "warn") as [->|_]; [destruct (H WARN); reflexivity|].
  destruct (String.eqb_spec action "mute") as [->|_]; [destruct (H MUTE); reflexivity|].
  destruct (String.eqb_spec action "kick") as [->|_]; [destruct (H KICK); reflexivity|].
  destruct (String.eqb_spec action "ban") as [->|_]; [destruct (H BAN); reflexivity|].
  destruct (String.eqb_spec action "delete_message") as [->|_];
    [destruct (H DELETE_MESSAGE); reflexivity|].
  reflexivity.
Qed.

Lemma ModerationAction_of_value_action_value (a : ModerationAction) :
  ModerationAction_of_value (action_value a) = Some a.
Proof. destruct a; reflexivity. Qed.

(** C4. A manual action whose action string is the value of no member of
    [ModerationAction] returns [False] and leaves the whole plugin state
    as it was: users (punishment fields, violation counts, message
    histories), violation log and configuration. *)
Theorem apply_manual_action_unknown_action
    (uid action : string) (duration : Z) (clk : Clock) (st : Plugin) :
  (forall a, action_value a <> action) ->
  API.apply_manual_action uid action duration clk st = (Ok false, st).
Proof.
  intros H. unfold API.apply_manual_action.
  rewrite (ModerationAction_of_value_None action H). reflexivity.
Qed.

Lemma apply_manual_action_unknown_action_witness :
  API.apply_manual_action "user4" "timeout" 300 {| now := 0; time := 0 |}
    (init default_config) = (Ok false, init default_config).
Proof.
  apply apply_manual_action_unknown_action.
  intros a; destruct a; discriminate.
Defined.

(** ** A punished user *)

(** C6. While the user holds an unexpired ban, [moderate_message] rejects
    the message with the ban's reason and expiry; otherwise, while the user
    holds an unexpired mute, with the mute's. Either way the plugin state
    after the call is the state before it, and the outcome depends on
    neither the message nor the configuration: no detector ran. *)
Theorem moderate_message_punished
    (uid message : string) (clk : Clock) (st : Plugin) (u : UserStatus) (t : Z) :
  users st !! uid = Some u ->
  (is_banned u = true -> ban_until u = Some t -> now clk < t ->
     moderate_message uid message clk st = (Ok (RejectedBanned t), st)
     /\ allowed (RejectedBanned t) = false
     /\ reason (RejectedBanned t) = Some "User is banned")
  /\ (active_ban u clk = None ->
      is_muted u = true -> mute_until u = Some t -> now clk < t ->
     moderate_message uid message clk st = (Ok (RejectedMuted t), st)
     /\ allowed (RejectedMuted t) = false
     /\ reason (RejectedMuted t) = Some "User is muted").
Proof.
  intros Hu. split.
  - intros Hb Ht Hlt. split; [|split; reflexivity].
    unfold moderate_message.
    rewrite (bind_Ok _ _ _ _ _ (get_user_status_present _ _ _ Hu)).
    unfold active_ban. rewrite Ht, Hb.
    replace (now clk <? t) with true by (symmetry; apply Z.ltb_lt; exact Hlt).
    reflexivity.
  - intros Hnb Hm Ht Hlt. split; [|split; reflexivity].
    unfold moderate_message.
    rewrite (bind_Ok _ _ _ _ _ (get_user_status_present _ _ _ Hu)).
    rewrite Hnb. unfold active_mute. rewrite Ht, Hm.
    replace (now clk <? t) with true by (symmetry; apply Z.ltb_lt; exact Hlt).
    reflexivity.
Qed.

Definition banned_example : UserStatus :=
  {| user_id := "eve"; is_muted := false; is_banned := true;
     mute_until := None; ban_until := Some 9000000; violation_count := 2;
     last_message_time := 0; recent_messages := ["first"] |}.

Definition muted_example : UserStatus :=
  {| user_id := "mallory"; is_muted := true; is_banned := false;
     mute_until := Some 7000000; ban_until := None; violation_count := 1;
     last_message_time := 0; recent_messages := [] |}.

Definition punished_state : Plugin :=
  {| users := <["eve" := banned_example]> (<["mallory" := muted_example]> ∅);
     violations := []; config := default_config |}.

Lemma moderate_message_punished_witness :
  moderate_message "eve" "damn" {| now := 5000000; time := 5 |} punished_state
    = (Ok (RejectedBanned 9000000), punished_state)
  /\ moderate_message "mallory" "damn" {| now := 5000000; time := 5 |} punished_state
    = (Ok (RejectedMuted 7000000), punished_state).
Proof.
  split.
  - apply (moderate_message_punished "eve" "damn" {| now := 5000000; time := 5 |}
             punished_state banned_example 9000000);
      [reflexivity | reflexivity | reflexivity | simpl; lia].
  - apply (moderate_message_punished "mallory" "damn" {| now := 5000000; time := 5 |}
             punished_state muted_example 7000000);
      [reflexivity | reflexivity | reflexivity | reflexivity | simpl; lia].
Defined.

(** ** The role bypass *)

(** The check returns, whatever the roles are. *)
Definition bypass_check_total (cfg : Config) : Prop :=
  forall roles st, config st = cfg ->
    exists b, API._has_bypass_permission roles st = (Ok b, st).

(** The section [whitelist] with both its keys. *)
Definition has_whitelist_keys (cfg : Config) : Prop :=
  exists wl e roles,
    whitelist cfg = Some wl /\ wl_enabled wl = Some e
    /\ moderator_roles wl = Some roles.

(** The keys the check reads: [enabled], and [moderator_roles] once the
    feature is enabled. *)
Definition has_keys_read (cfg : Config) : Prop :=
  exists wl e,
    whitelist cfg = Some wl /\ wl_enabled wl = Some e
    /\ (e = true -> is_Some (moderator_roles wl)).

Definition whitelist_off : Config :=
  {| profanity_filter_enabled := true;
     spam_detection_enabled := true;
     rate_limiting_enabled := true;
     max_messages_per_minute := 10;
     caps_abuse_enabled := true;
     max_caps_percentage := 70;
     min_message_length := 10;
     escalation_enabled := true;
     warn_to_mute_threshold := 3;
     mute_to_kick_threshold := 2;
     kick_to_ban_threshold := 2;
     whitelist := Some {| wl_enabled := Some false; moderator_roles := None |} |}.

Lemma has_keys_read_total cfg : has_keys_read cfg -> bypass_check_total cfg.
Proof.
  intros (wl & e & Hwl & He & Hr) roles st Hcfg.
  unfold API._has_bypass_permission, bind, the_config.
  rewrite Hcfg, Hwl, He.
  destruct e; simpl.
  - destruct (Hr eq_refl) as [rs ->]. eexists; reflexivity.
  - eexists; reflexivity.
Qed.

Lemma total_has_keys_read cfg : bypass_check_total cfg -> has_keys_read cfg.
Proof.
  intros H.
  destruct (H [] {| users := ∅; violations := []; config := cfg |} eq_refl) as [b Hb].
  revert Hb. unfold API._has_bypass_permission, bind, the_config, has_keys_read. simpl.
  destruct (whitelist cfg) as [wl|]; [|discriminate].
  destruct (wl_enabled wl) as [e|] eqn:He; [|discriminate].
  destruct e; simpl.
  - destruct (moderator_roles wl) as [rs|] eqn:Hr; [|discriminate].
    intros _. exists wl, true. rewrite Hr. eauto.
  - intros _. exists wl, false. split; [reflexivity | split; [exact He | discriminate]].
Qed.

(** C10, as it is worded, at a configuration whose [whitelist] section
    switches the feature off and names no roles: the check is total there,
    yet the key [moderator_roles] is missing. *)
Lemma bypass_total_without_moderator_roles :
  ~ (forall cfg, bypass_check_total cfg -> has_whitelist_keys cfg).
Proof.
  intros H.
  assert (Ht : bypass_check_total whitelist_off).
  { apply has_keys_read_total. eexists _, false.
    split; [reflexivity | split; [reflexivity | discriminate]]. }
  destruct (H _ Ht) as (wl & e & roles & Hwl & _ & Hr).
  injection Hwl as <-. discriminate Hr.
Qed.

(** C10, amended. The role-bypass check is total exactly when the
    configuration has a [whitelist] section with the key [enabled] and,
    where that is true, the key [moderator_roles]. Under a configuration
    without [whitelist], as the built-in one is, every call of the API's
    [moderate_message] with a non-empty list of roles raises [KeyError]
    and returns no decision; the state is untouched. *)
Theorem bypass_check_partial :
  (forall cfg, bypass_check_total cfg <-> has_keys_read cfg)
  /\ whitelist default_config = None
  /\ (forall uid message role roles clk st,
        whitelist (config st) = None ->
        API.moderate_message uid message (Some (role :: roles)) clk st
        = (Raise (KeyError "whitelist"), st)).
Proof.
  split; [|split].
  - intros cfg. split; [apply total_has_keys_read | apply has_keys_read_total].
  - reflexivity.
  - intros uid message role roles clk st Hwl.
    unfold API.moderate_message, API._has_bypass_permission, bind, the_config.
    rewrite Hwl. reflexivity.
Qed.

Lemma bypass_check_partial_witness :
  API.moderate_message "user1" "Hello everyone!" (Some ["admin"])
    {| now := 0; time := 0 |} (init default_config)
  = (Raise (KeyError "whitelist"), init default_config).
Proof.
  apply (proj2 (proj2 bypass_check_partial)). reflexivity.
Defined.

(** ** Expiry of punishments *)

Lemma expire_idempotent t u : expire t (expire t u) = expire t u.
Proof.
  destruct u as [id m b [x|] [y|] vc lt rm]; unfold expire; simpl;
    destruct m, b; simpl;
    try (destruct (t >=? x) eqn:E1; simpl);
    try (destruct (t >=? y) eqn:E2; simpl);
    repeat (rewrite ?E1, ?E2; simpl); reflexivity.
Qed.

Lemma expire_not_muted t u : is_muted u = false -> is_muted (expire t u) = false.
Proof.
  destruct u as [id m b [x|] [y|] vc lt rm]; unfold expire; simpl;
    intros ->; simpl; destruct b; simpl;
    try (destruct (t >=? y); simpl); reflexivity.
Qed.

Lemma expire_not_banned t u : is_banned u = false -> is_banned (expire t u) = false.
Proof.
  destruct u as [id m b [x|] [y|] vc lt rm]; unfold expire; simpl;
    intros ->; simpl; destruct m; simpl;
    try (destruct (t >=? x); simpl); reflexivity.
Qed.

Lemma expire_mute t u m :
  is_muted u = true -> mute_until u = Some m -> m <= t ->
  is_muted (expire t u) = false /\ mute_until (expire t u) = None.
Proof.
  destruct u as [id mu b x [y|] vc lt rm]; simpl; intros -> -> Hle;
    unfold expire; simpl;
    replace (t >=? m) with true by (symmetry; apply Z.geb_le; exact Hle); simpl;
    destruct b; simpl; try (destruct (t >=? y); simpl); split; reflexivity.
Qed.

Lemma expire_ban t u b :
  is_banned u = true -> ban_until u = Some b -> b <= t ->
  is_banned (expire t u) = false /\ ban_until (expire t u) = None.
Proof.
  destruct u as [id mu bn [x|] y vc lt rm]; simpl; intros -> -> Hle;
    unfold expire; simpl;
    destruct mu; simpl; try (destruct (t >=? x); simpl);
    replace (t >=? b) with true by (symmetry; apply Z.geb_le; exact Hle); simpl;
    split; reflexivity.
Qed.

Lemma cleanup_lookup clk st uid :
  users (snd (cleanup_expired_punishments clk st)) !! uid
  = expire (now clk) <$> users st !! uid.
Proof. simpl. apply lookup_fmap. Qed.

Lemma cleanup_twice clk st :
  snd (cleanup_expired_punishments clk (snd (cleanup_expired_punishments clk st)))
  = snd (cleanup_expired_punishments clk st).
Proof.
  simpl. f_equal. apply map_eq. intros uid.
  rewrite !lookup_fmap. destruct (users st !! uid) as [u|]; simpl; [|reflexivity].
  f_equal. apply expire_idempotent.
Qed.

(** What can follow a sweep without applying a punishment: status reads
    and further sweeps. *)
Inductive query :=
| Status (uid : string)
| Sweep (clk : Clock).

Definition run_query (q : query) : M unit :=
  match q with
  | Status uid => _ <- API.get_user_status uid ;; ret tt
  | Sweep clk => API.cleanup clk
  end.

Fixpoint run_queries (qs : list query) : M unit :=
  match qs with
  | [] => ret tt
  | q :: qs' => run_query q ;;; run_queries qs'
  end.

Definition flag_clear (flag : UserStatus -> bool) (uid : string) (st : Plugin) : Prop :=
  exists u, users st !! uid = Some u /\ flag u = false.

Lemma run_query_flag_clear flag uid q st :
  (forall t u, flag u = false -> flag (expire t u) = false) ->
  flag_clear flag uid st ->
  exists st', run_query q st = (Ok tt, st') /\ flag_clear flag uid st'.
Proof.
  intros Hexp (u & Hu & Hf). destruct q as [uid'|clk]; simpl.
  - unfold API.get_user_status, bind, get_user_status.
    destruct (users st !! uid') as [u'|] eqn:Hu'; simpl.
    + eexists; split; [reflexivity|]. exists u; auto.
    + eexists; split; [reflexivity|]. exists u. split; [|exact Hf]. simpl.
      rewrite lookup_insert_ne; [exact Hu|]. intros ->. congruence.
  - eexists; split; [reflexivity|].
    exists (expire (now clk) u). split; [|apply Hexp; exact Hf].
    simpl. rewrite lookup_fmap, Hu. reflexivity.
Qed.

Lemma run_queries_flag_clear flag uid qs :
  (forall t u, flag u = false -> flag (expire t u) = false) ->
  forall st, flag_clear flag uid st ->
  exists st', run_queries qs st = (Ok tt, st') /\ flag_clear flag uid st'.
Proof.
  intros Hexp. induction qs as [|q qs IH]; intros st Hc; simpl.
  - eexists; split; [reflexivity | exact Hc].
  - destruct (run_query_flag_clear flag uid q st Hexp Hc) as (st1 & Hq & Hc1).
    destruct (IH st1 Hc1) as (st2 & Hqs & Hc2).
    exists st2. split; [|exact Hc2].
    rewrite (bind_Ok _ _ _ _ _ Hq). exact Hqs.
Qed.

(** C9. A sweep at [now] lifts every mute and every ban whose expiry is at
    or before [now], flag and expiry together; after it, whatever status
    reads and further sweeps follow, [get_user_status] reports the user
    as not muted (not banned); and a second sweep at the same instant
    leaves the state of the first. *)
Theorem sweep_expired_idempotent (clk : Clock) (st : Plugin) (uid : string)
    (u : UserStatus) (t : Z) :
  users st !! uid = Some u -> t <= now clk ->
  exists st',
    API.cleanup clk st = (Ok tt, st')
    /\ (is_muted u = true -> mute_until u = Some t ->
        (exists u', users st' !! uid = Some u'
                    /\ is_muted u' = false /\ mute_until u' = None)
        /\ forall qs, exists v st'',
             (run_queries qs ;;; API.get_user_status uid) st' = (Ok v, st'')
             /\ API.view_is_muted v = false)
    /\ (is_banned u = true -> ban_until u = Some t ->
        (exists u', users st' !! uid = Some u'
                    /\ is_banned u' = false /\ ban_until u' = None)
        /\ forall qs, exists v st'',
             (run_queries qs ;;; API.get_user_status uid) st' = (Ok v, st'')
             /\ API.view_is_banned v = false)
    /\ API.cleanup clk st' = (Ok tt, st').
Proof.
  intros Hu Hle.
  exists (snd (cleanup_expired_punishments clk st)).
  assert (Hl : users (snd (cleanup_expired_punishments clk st)) !! uid
               = Some (expire (now clk) u)).
  { rewrite cleanup_lookup, Hu. reflexivity. }
  assert (Hread : forall flag,
    (forall t0 u0, flag u0 = false -> flag (expire t0 u0) = false) ->
    flag (expire (now clk) u) = false ->
    forall qs, exists v st'',
      (run_queries qs ;;; API.get_user_status uid)
        (snd (cleanup_expired_punishments clk st)) = (Ok v, st'')
      /\ exists u', users st'' !! uid = Some u' /\ flag u' = false
                    /\ API.view_is_muted v = is_muted u'
                    /\ API.view_is_banned v = is_banned u').
  { intros flag Hexp Hf qs.
    destruct (run_queries_flag_clear flag uid qs Hexp
                (snd (cleanup_expired_punishments clk st)))
      as (st1 & Hq & u1 & Hu1 & Hf1).
    { exists (expire (now clk) u). split; [exact Hl | exact Hf]. }
    eexists _, st1. split.
    - rewrite (bind_Ok _ _ _ _ _ Hq). unfold API.get_user_status.
      rewrite (bind_Ok _ _ _ _ _ (get_user_status_present _ _ _ Hu1)).
      reflexivity.
    - exists u1. simpl. auto. }
  split; [reflexivity|]. split; [|split].
  - intros Hm Ht. destruct (expire_mute (now clk) u t Hm Ht Hle) as [Hf Hn].
    split; [eauto|].
    intros qs.
    destruct (Hread is_muted expire_not_muted Hf qs)
      as (v & st2 & Hrun & u2 & _ & Hf2 & Hv & _).
    exists v, st2. split; [exact Hrun | congruence].
  - intros Hb Ht. destruct (expire_ban (now clk) u t Hb Ht Hle) as [Hf Hn].
    split; [eauto|].
    intros qs.
    destruct (Hread is_banned expire_not_banned Hf qs)
      as (v & st2 & Hrun & u2 & _ & Hf2 & _ & Hv).
    exists v, st2. split; [exact Hrun | congruence].
  - unfold API.cleanup.
    rewrite <- (cleanup_twice clk st) at 2. reflexivity.
Qed.

Definition stale_state : Plugin :=
  {| users := <["mallory" := muted_example]> ∅;
     violations := []; config := default_config |}.

Lemma sweep_expired_idempotent_witness :
  exists st',
    API.cleanup {| now := 7000000; time := 7 |} stale_state = (Ok tt, st')
    /\ (exists v st'',
          (run_queries [Status "mallory"; Sweep {| now := 1; time := 0 |}; Status "bob"]
             ;;; API.get_user_status "mallory") st' = (Ok v, st'')
          /\ API.view_is_muted v = false)
    /\ API.cleanup {| now := 7000000; time := 7 |} st' = (Ok tt, st').
Proof.
  destruct (sweep_expired_idempotent {| now := 7000000; time := 7 |} stale_state
              "mallory" muted_example 7000000 eq_refl) as (st' & H1 & H2 & _ & H4).
  { simpl. lia. }
  exists st'. split; [exact H1|]. split; [|exact H4].
  destruct (H2 eq_refl eq_refl) as [_ Hq]. apply Hq.
Defined.

(** ** The caps-abuse detector *)

(** [(c / n) * 100 > m] as the source evaluates it, in binary64. *)
Definition percent_exceeds (c n m : Z) : bool :=
  PrimFloat.ltb (float_of_Z m)
    (PrimFloat.mul (PrimFloat.div (float_of_Z c) (float_of_Z n)) 100%float).

Lemma str_len_zero (s : string) : str_len s = 0 -> s = "".
Proof. destruct s; [reflexivity|]. unfold str_len. simpl. lia. Qed.

Lemma caps_count_cons (c : ascii) (s : string) :
  caps_count (String c s) = caps_count s + (if Char.isupper c then 1 else 0).
Proof.
  unfold caps_count, len. simpl. rewrite filter_cons.
  destruct (Char.isupper c) eqn:E.
  - rewrite decide_True by reflexivity. simpl length. lia.
  - rewrite decide_False by discriminate. lia.
Qed.

Lemma digit_or_punct_not_upper (c : ascii) :
  Char.isdigit c = true \/ Char.ispunct c = true -> Char.isupper c = false.
Proof.
  unfold Char.isdigit, Char.ispunct, Char.isupper, Char.between.
  generalize (Char.code c). intros n H.
  destruct H as [H|H];
    repeat match type of H with
           | (_ || _ = true) => apply orb_true_iff in H as [H|H]
           | (_ && _ = true) => apply andb_true_iff in H as [? ?]
           end;
    repeat match goal with
           | H : (_ <=? _)%N = true |- _ => apply N.leb_le in H
           end;
    repeat match goal with
           | |- (_ || _ = false) => apply orb_false_iff; split
           | |- (_ && _ = false) => apply andb_false_iff
           end;
    try (left; apply N.leb_gt; lia); try (right; apply N.leb_gt; lia).
Qed.

(** What the detector returns on a message that has a character: nothing
    below the minimum length; from there on the verdict of the comparison,
    with the upper-case letters in the numerator and every character in
    the denominator. *)
Lemma check_caps_abuse_spec (st : Plugin) (message : string) :
  caps_abuse_enabled (config st) = true ->
  (str_len message < min_message_length (config st) ->
     check_caps_abuse message st = (Ok false, st))
  /\ (min_message_length (config st) <= str_len message -> message <> "" ->
      check_caps_abuse message st
      = (Ok (percent_exceeds (caps_count message) (str_len message)
               (max_caps_percentage (config st))), st)).
Proof.
  intros Hen. unfold check_caps_abuse, bind, the_config. rewrite Hen. simpl.
  split.
  - intros Hlt. apply Z.ltb_lt in Hlt. rewrite Hlt. reflexivity.
  - intros Hle Hne.
    replace (str_len message <? min_message_length (config st)) with false
      by (symmetry; apply Z.ltb_ge; exact Hle).
    destruct (str_len message =? 0) eqn:E.
    + apply Z.eqb_eq in E. destruct (Hne (str_len_zero _ E)).
    + reflexivity.
Qed.

Lemma check_caps_abuse_disabled (st : Plugin) (message : string) :
  caps_abuse_enabled (config st) = false ->
  check_caps_abuse message st = (Ok false, st).
Proof. intros H. unfold check_caps_abuse, bind, the_config. rewrite H. reflexivity. Qed.

(** The state of the detector is never changed, and the only exception
    is the division by the length of an empty message. *)
Lemma check_caps_abuse_cases (st : Plugin) (message : string) :
  (exists b, check_caps_abuse message st = (Ok b, st))
  \/ (message = "" /\ check_caps_abuse message st = (Raise ZeroDivisionError, st)).
Proof.
  unfold check_caps_abuse, bind, the_config. simpl.
  destruct (caps_abuse_enabled (config st)); simpl; [|left; eauto].
  destruct (str_len message <? min_message_length (config st)); [left; eauto|].
  destruct (str_len message =? 0) eqn:E; [|left; eauto].
  right. split; [|reflexivity]. apply str_len_zero, Z.eqb_eq, E.
Qed.

(** A configuration that checks messages of every length. *)
Definition check_all_lengths : Config :=
  {| profanity_filter_enabled := true;
     spam_detection_enabled := true;
     rate_limiting_enabled := true;
     max_messages_per_minute := 10;
     caps_abuse_enabled := true;
     max_caps_percentage := 70;
     min_message_length := 0;
     escalation_enabled := true;
     warn_to_mute_threshold := 3;
     mute_to_kick_threshold := 2;
     kick_to_ban_threshold := 2;
     whitelist := None |}.

(** C8, at the empty message under a minimum length of zero: the message
    is not shorter than the minimum, the detector divides by its length
    and raises [ZeroDivisionError], and so does [moderate_message]. *)
Theorem check_caps_abuse_empty_message :
  min_message_length check_all_lengths <= str_len ""
  /\ check_caps_abuse "" (init check_all_lengths)
     = (Raise ZeroDivisionError, init check_all_lengths)
  /\ fst (moderate_message "user1" "" {| now := 0; time := 0 |}
            (init check_all_lengths)) = Raise ZeroDivisionError.
Proof. split; [|split]; vm_compute; [discriminate | reflexivity | reflexivity]. Qed.

(** The comparison is the one of binary64: seven capitals in a hundred
    characters exceed a threshold of 7, eleven in twenty one of 55; at 70
    and 50 the boundary is exact. *)
Example percent_exceeds_rounding :
  percent_exceeds 7 100 7 = true /\ percent_exceeds 11 20 55 = true
  /\ percent_exceeds 7 10 70 = false /\ percent_exceeds 5 10 50 = false
  /\ percent_exceeds 8 10 70 = true.
Proof. repeat split; vm_compute; reflexivity. Qed.

(** ** How the state moves during a detection pass *)

(** An expiry is only there while its flag is set. *)
Definition consistent (u : UserStatus) : Prop :=
  (is_Some (mute_until u) -> is_muted u = true)
  /\ (is_Some (ban_until u) -> is_banned u = true).

Definition user_evolves (u u' : UserStatus) : Prop :=
  recent_messages u' = recent_messages u
  /\ last_message_time u' = last_message_time u
  /\ (consistent u -> consistent u').

Definition user_rel (o o' : option UserStatus) : Prop :=
  match o, o' with
  | Some u, Some u' => user_evolves u u'
  | Some _, None => False
  | None, Some u' => consistent u' /\ recent_messages u' = []
  | None, None => True
  end.

(** From [st] to [st']: the configuration stays, the log grows at its
    end, no user is dropped, and a user keeps his message history. *)
Definition evolves (st st' : Plugin) : Prop :=
  config st' = config st
  /\ (exists l, violations st' = (violations st ++ l)%list)
  /\ forall uid, user_rel (users st !! uid) (users st' !! uid).

Lemma user_evolves_refl u : user_evolves u u.
Proof. unfold user_evolves. auto. Qed.

Lemma user_evolves_trans u1 u2 u3 :
  user_evolves u1 u2 -> user_evolves u2 u3 -> user_evolves u1 u3.
Proof.
  intros (H1 & H2 & H3) (K1 & K2 & K3).
  split; [congruence|]. split; [congruence | auto].
Qed.

Lemma user_rel_refl o : user_rel o o.
Proof. destruct o; simpl; auto using user_evolves_refl. Qed.

Lemma user_rel_trans o1 o2 o3 : user_rel o1 o2 -> user_rel o2 o3 -> user_rel o1 o3.
Proof.
  destruct o1 as [u1|], o2 as [u2|], o3 as [u3|]; simpl; try tauto.
  - apply user_evolves_trans.
  - intros [Hc Hr] (K1 & K2 & K3). split; [auto | congruence].
Qed.

Lemma evolves_refl st : evolves st st.
Proof.
  split; [reflexivity|]. split; [exists []; symmetry; apply app_nil_r|].
  intros uid. apply user_rel_refl.
Qed.

Lemma evolves_trans st1 st2 st3 : evolves st1 st2 -> evolves st2 st3 -> evolves st1 st3.
Proof.
  intros (H1 & [l1 H2] & H3) (K1 & [l2 K2] & K3).
  split; [congruence|]. split.
  - exists (l1 ++ l2)%list. rewrite K2, H2. symmetry. apply app_assoc.
  - intros uid. eapply user_rel_trans; [apply H3 | apply K3].
Qed.

Lemma evolves_user st st' uid u :
  evolves st st' -> users st !! uid = Some u ->
  exists u', users st' !! uid = Some u' /\ user_evolves u u'.
Proof.
  intros (_ & _ & H) Hu. specialize (H uid). rewrite Hu in H.
  destruct (users st' !! uid) as [u'|]; simpl in H; [eauto | contradiction].
Qed.

Lemma consistent_new_user uid : consistent (new_user uid).
Proof. split; simpl; intros [x Hx]; discriminate. Qed.

Lemma get_user_status_spec uid st :
  exists u st',
    get_user_status uid st = (Ok u, st')
    /\ users st' !! uid = Some u
    /\ evolves st st'
    /\ violations st' = violations st.
Proof.
  unfold get_user_status. destruct (users st !! uid) as [u|] eqn:Hu.
  - exists u, st. auto using evolves_refl.
  - eexists _, _. split; [reflexivity|]. simpl.
    split; [apply lookup_insert_eq|]. split; [|reflexivity].
    split; [reflexivity|]. split; [exists []; symmetry; apply app_nil_r|].
    intros uid'. simpl. destruct (decide (uid = uid')) as [<-|Hne].
    + rewrite Hu, lookup_insert_eq. simpl.
      split; [apply consistent_new_user | reflexivity].
    + rewrite lookup_insert_ne by exact Hne. apply user_rel_refl.
Qed.

Lemma update_user_lookup uid f st :
  users (snd (update_user uid f st)) !! uid = f <$> users st !! uid.
Proof. simpl. apply lookup_alter_eq. Qed.

Lemma update_user_evolves uid f st :
  (forall u, user_evolves u (f u)) -> evolves st (snd (update_user uid f st)).
Proof.
  intros Hf. split; [reflexivity|]. split; [exists []; symmetry; apply app_nil_r|].
  intros uid'. simpl. destruct (decide (uid = uid')) as [<-|Hne].
  - rewrite lookup_alter_eq. destruct (users st !! uid); simpl; auto.
  - rewrite lookup_alter_ne by exact Hne. apply user_rel_refl.
Qed.

Lemma set_muted_evolves u : user_evolves u (set_muted true u).
Proof. unfold user_evolves, consistent. simpl. intuition. Qed.

Lemma set_banned_evolves u : user_evolves u (set_banned true u).
Proof. unfold user_evolves, consistent. simpl. intuition. Qed.

Lemma mute_evolves t u : user_evolves u (set_mute_until (Some t) (set_muted true u)).
Proof. unfold user_evolves, consistent. simpl. intuition. Qed.

Lemma ban_evolves t u : user_evolves u (set_ban_until (Some t) (set_banned true u)).
Proof. unfold user_evolves, consistent. simpl. intuition. Qed.

Lemma incr_violation_count_evolves u : user_evolves u (incr_violation_count u).
Proof. unfold user_evolves, consistent. simpl. intuition. Qed.

(** The user is muted; [t] is the expiry asked for, when it could be
    computed. *)
Definition muted_until (uid : string) (t : option Z) (st : Plugin) : Prop :=
  exists u, users st !! uid = Some u /\ is_muted u = true
            /\ forall x, t = Some x -> mute_until u = Some x.

Lemma alter_evolves uid f st :
  (forall u, user_evolves u (f u)) ->
  evolves st {| users := alter f uid (users st); violations := violations st;
                config := config st |}.
Proof. intros Hf. apply (update_user_evolves uid f st Hf). Qed.

Lemma lookup_alter_user (f : UserStatus -> UserStatus) uid
    (us : gmap string UserStatus) u :
  us !! uid = Some u -> alter f uid us !! uid = Some (f u).
Proof. intros H. rewrite lookup_alter_eq, H. reflexivity. Qed.

Lemma apply_moderation_action_spec uid a d clk st :
  exists b st',
    apply_moderation_action uid a d clk st = (Ok b, st')
    /\ evolves st st'
    /\ violations st' = violations st
    /\ is_Some (users st' !! uid)
    /\ (a = MUTE -> muted_until uid (Datetime.add_seconds (now clk) d) st').
Proof.
  destruct (get_user_status_spec uid st) as (u & st1 & Hg & Hu & Hev & Hv).
  unfold apply_moderation_action. rewrite (bind_Ok _ _ _ _ _ Hg).
  destruct a.
  - exists true, st1. split; [reflexivity|]. split; [exact Hev|].
    split; [exact Hv|]. split; [eauto | discriminate].
  - destruct (Datetime.add_seconds (now clk) d) as [t|] eqn:Ht.
    + exists true,
        {| users := alter (set_mute_until (Some t) ∘ set_muted true) uid (users st1);
           violations := violations st1; config := config st1 |}.
      split; [unfold bind, update_user, set_users, ret; cbn [users violations config];
              rewrite alter_alter_eq; reflexivity|].
      cbn [users violations config].
      split; [|split; [exact Hv|split]].
      * eapply evolves_trans; [exact Hev|]. apply alter_evolves. apply mute_evolves.
      * rewrite (lookup_alter_user _ _ _ _ Hu). eauto.
      * intros _. unfold muted_until. cbn [users]. eexists.
        rewrite (lookup_alter_user _ _ _ _ Hu).
        split; [reflexivity|]. split; [reflexivity|]. intros x Hx. simpl. congruence.
    + exists false,
        {| users := alter (set_muted true) uid (users st1);
           violations := violations st1; config := config st1 |}.
      split; [reflexivity|]. cbn [users violations config].
      split; [|split; [exact Hv|split]].
      * eapply evolves_trans; [exact Hev|]. apply alter_evolves. apply set_muted_evolves.
      * rewrite (lookup_alter_user _ _ _ _ Hu). eauto.
      * intros _. unfold muted_until. cbn [users]. eexists.
        rewrite (lookup_alter_user _ _ _ _ Hu).
        split; [reflexivity|]. split; [reflexivity|]. discriminate.
  - exists true, st1. split; [reflexivity|]. split; [exact Hev|].
    split; [exact Hv|]. split; [eauto | discriminate].
  - destruct (Datetime.add_seconds (now clk) d) as [t|] eqn:Ht.
    + exists true,
        {| users := alter (set_ban_until (Some t) ∘ set_banned true) uid (users st1);
           violations := violations st1; config := config st1 |}.
      split; [unfold bind, update_user, set_users, ret; cbn [users violations config];
              rewrite alter_alter_eq; reflexivity|].
      cbn [users violations config].
      split; [|split; [exact Hv|split]].
      * eapply evolves_trans; [exact Hev|]. apply alter_evolves. apply ban_evolves.
      * rewrite (lookup_alter_user _ _ _ _ Hu). eauto.
      * discriminate.
    + exists false,
        {| users := alter (set_banned true) uid (users st1);
           violations := violations st1; config := config st1 |}.
      split; [reflexivity|]. cbn [users violations config].
      split; [|split; [exact Hv|split]].
      * eapply evolves_trans; [exact Hev|]. apply alter_evolves. apply set_banned_evolves.
      * rewrite (lookup_alter_user _ _ _ _ Hu). eauto.
      * discriminate.
  - exists true, st1. split; [reflexivity|]. split; [exact Hev|].
    split; [exact Hv|]. split; [eauto | discriminate].
Qed.

(** The log only grows, so the counts of [check_escalation] only grow. *)
Lemma recent_with_action_app uid clk a l1 l2 :
  recent_with_action uid clk a l1 <= recent_with_action uid clk a (l1 ++ l2).
Proof.
  unfold recent_with_action, len. rewrite !filter_app, length_app. lia.
Qed.

Lemma evolves_warn_count uid clk a st st' :
  evolves st st' ->
  recent_with_action uid clk a (violations st)
  <= recent_with_action uid clk a (violations st').
Proof. intros (_ & [l ->] & _). apply recent_with_action_app. Qed.

Lemma check_escalation_spec uid clk st :
  exists st',
    check_escalation uid clk st = (Ok tt, st')
    /\ evolves st st'
    /\ violations st' = violations st
    /\ is_Some (users st' !! uid)
    /\ (warn_to_mute_threshold (config st)
          <= recent_with_action uid clk WARN (violations st) ->
        muted_until uid (Datetime.add_seconds (now clk) 300) st').
Proof.
  destruct (get_user_status_spec uid st) as (u & st1 & Hg & Hu & Hev & Hv).
  unfold check_escalation. rewrite (bind_Ok _ _ _ _ _ Hg).
  unfold get at 1. unfold bind at 1.
  destruct Hev as (Hc & Hl & Hr). rewrite Hv, Hc.
  assert (Hev : evolves st st1) by (split; [exact Hc | split; [exact Hl | exact Hr]]).
  destruct (recent_with_action uid clk WARN (violations st)
              >=? warn_to_mute_threshold (config st)) eqn:Hw.
  { destruct (apply_moderation_action_spec uid MUTE 300 clk st1)
      as (b & st2 & Ha & Hev2 & Hv2 & Hu2 & Hm).
    exists st2. rewrite (bind_Ok _ _ _ _ _ Ha).
    split; [reflexivity|]. split; [eapply evolves_trans; eassumption|].
    split; [congruence|]. split; [exact Hu2|]. intros _. apply Hm. reflexivity. }
  assert (Hno : warn_to_mute_threshold (config st)
                <= recent_with_action uid clk WARN (violations st) -> False).
  { rewrite Z.geb_leb in Hw. apply Z.leb_gt in Hw. lia. }
  destruct (recent_with_action uid clk MUTE (violations st)
              >=? mute_to_kick_threshold (config st)).
  { destruct (apply_moderation_action_spec uid KICK 300 clk st1)
      as (b & st2 & Ha & Hev2 & Hv2 & Hu2 & Hm).
    exists st2. rewrite (bind_Ok _ _ _ _ _ Ha).
    split; [reflexivity|]. split; [eapply evolves_trans; eassumption|].
    split; [congruence|]. split; [exact Hu2|]. intros H; destruct (Hno H). }
  destruct (recent_with_action uid clk KICK (violations st)
              >=? kick_to_ban_threshold (config st)).
  { destruct (apply_moderation_action_spec uid BAN 3600 clk st1)
      as (b & st2 & Ha & Hev2 & Hv2 & Hu2 & Hm).
    exists st2. rewrite (bind_Ok _ _ _ _ _ Ha).
    split; [reflexivity|]. split; [eapply evolves_trans; eassumption|].
    split; [congruence|]. split; [exact Hu2|]. intros H; destruct (Hno H). }
  exists st1. split; [reflexivity|]. split; [exact Hev|].
  split; [exact Hv|]. split; [eauto|]. intros H; destruct (Hno H).
Qed.

Lemma append_violation_evolves v st :
  evolves st (snd (append_violation v st)).
Proof.
  split; [reflexivity|]. split; [exists [v]; reflexivity|].
  intros uid. apply user_rel_refl.
Qed.

Lemma record_violation_spec uid vt message a clk st :
  exists st',
    record_violation uid vt message a clk st = (Ok tt, st')
    /\ evolves st st'
    /\ is_Some (users st' !! uid)
    /\ (escalation_enabled (config st) = true ->
        warn_to_mute_threshold (config st)
          <= recent_with_action uid clk WARN (violations st') ->
        muted_until uid (Datetime.add_seconds (now clk) 300) st').
Proof.
  unfold record_violation.
  set (v := {| v_user_id := uid; violation_type := vt; v_message := message;
               timestamp := now clk; action_taken := a; moderator := None |}).
  pose proof (append_violation_evolves v st) as Hev0.
  set (st0 := snd (append_violation v st)) in *.
  rewrite (bind_Ok _ _ st tt st0) by reflexivity.
  destruct (get_user_status_spec uid st0) as (u & st1 & Hg & Hu & Hev1 & Hv1).
  rewrite (bind_Ok _ _ _ _ _ Hg).
  pose proof (update_user_evolves uid incr_violation_count st1
                incr_violation_count_evolves) as Hev2.
  pose proof (update_user_lookup uid incr_violation_count st1) as Hu2.
  set (st2 := snd (update_user uid incr_violation_count st1)) in *.
  rewrite (bind_Ok _ _ st1 tt st2) by reflexivity.
  assert (Hev : evolves st st2) by (eauto using evolves_trans).
  assert (Hc : config st2 = config st) by apply Hev.
  unfold the_config at 1. unfold bind at 1. rewrite Hc.
  destruct (escalation_enabled (config st)) eqn:Hen; simpl when.
  - destruct (check_escalation_spec uid clk st2) as (st3 & He & Hev3 & Hv3 & Hu3 & Hm).
    exists st3. split; [exact He|]. split; [eauto using evolves_trans|].
    split; [exact Hu3|]. intros _ Hw. apply Hm. rewrite Hc, <- Hv3. exact Hw.
  - exists st2. split; [reflexivity|]. split; [exact Hev|].
    split; [|discriminate]. rewrite Hu2, Hu. simpl. eauto.
Qed.

Lemma on_violation_spec hit uid message vt a d clk acc st :
  exists st',
    on_violation hit uid message vt a d clk acc st
    = (Ok (if hit then ((fst acc ++ [vt])%list, (snd acc ++ [a])%list) else acc), st')
    /\ evolves st st'
    /\ (hit = false -> st' = st)
    /\ (hit = true ->
        is_Some (users st' !! uid)
        /\ (escalation_enabled (config st) = true ->
            warn_to_mute_threshold (config st)
              <= recent_with_action uid clk WARN (violations st') ->
            muted_until uid (Datetime.add_seconds (now clk) 300) st')).
Proof.
  unfold on_violation. destruct hit.
  - destruct (apply_moderation_action_spec uid a d clk st)
      as (b & st1 & Ha & Hev1 & _ & _ & _).
    rewrite (bind_Ok _ _ _ _ _ Ha).
    destruct (record_violation_spec uid vt message a clk st1)
      as (st2 & Hr & Hev2 & Hu2 & Hm).
    rewrite (bind_Ok _ _ _ _ _ Hr).
    exists st2. split; [reflexivity|]. split; [eauto using evolves_trans|].
    split; [discriminate|]. intros _. split; [exact Hu2|].
    destruct Hev1 as (Hc & _). rewrite <- Hc. exact Hm.
  - exists st. split; [reflexivity|]. split; [apply evolves_refl|].
    split; [reflexivity | discriminate].
Qed.

(** The three detectors that read the state do not change it once the
    user is known. *)
Definition found_words (message : string) : list string :=
  flat_map (fun p => Re.findall p message) profanity_patterns.

Lemma check_profanity_eq message st :
  check_profanity message st
  = (Ok (if profanity_filter_enabled (config st)
         then (len (found_words message) >? 0, found_words message)
         else (false, [])), st).
Proof.
  unfold check_profanity, bind, the_config.
  destruct (profanity_filter_enabled (config st)); reflexivity.
Qed.

(** The three branches of [check_spam] that return [True]. *)
Definition spam_verdict (history : list string) (message : string) : bool :=
  bool_decide (message ∈ history)
  || ((len (split message) >? 3) && mostly_repeated (split message))
  || ((len (split message) <=? 3) && (distinct (split message) =? 1)
      && (len (split message) >? 1)).

Lemma check_spam_eq uid message st u :
  users st !! uid = Some u ->
  check_spam uid message st
  = (Ok (spam_detection_enabled (config st)
         && spam_verdict (recent_messages u) message), st).
Proof.
  intros Hu. unfold check_spam, spam_verdict, bind, the_config, get_user_status, ret.
  destruct (spam_detection_enabled (config st)); [|reflexivity].
  cbn beta iota delta [negb andb]. rewrite Hu.
  destruct (bool_decide (message ∈ recent_messages u)); [reflexivity|].
  destruct ((len (split message) >? 3) && mostly_repeated (split message));
    [reflexivity|].
  destruct ((len (split message) <=? 3) && (distinct (split message) =? 1)
            && (len (split message) >? 1)); reflexivity.
Qed.

Definition rate_verdict (cfg : Config) (u : UserStatus) (clk : Clock) : bool :=
  rate_limiting_enabled cfg
  && ((len (recent_messages u) >=? max_messages_per_minute cfg)
      && PrimFloat.ltb (PrimFloat.sub (time clk) (last_message_time u)) 60%float).

Lemma check_rate_limit_eq uid clk st u :
  users st !! uid = Some u ->
  check_rate_limit uid clk st = (Ok (rate_verdict (config st) u clk), st).
Proof.
  intros Hu. unfold check_rate_limit, rate_verdict, bind, the_config, get_user_status, ret.
  destruct (rate_limiting_enabled (config st)); [|reflexivity].
  cbn beta iota delta [negb andb]. rewrite Hu.
  destruct ((len (recent_messages u) >=? max_messages_per_minute (config st))
            && PrimFloat.ltb (PrimFloat.sub (time clk) (last_message_time u)) 60);
    reflexivity.
Qed.

(** ** The detection pass, block by block *)

Definition profanity_verdict (cfg : Config) (message : string) : bool :=
  profanity_filter_enabled cfg && (len (found_words message) >? 0).

(** The two lists after a block. *)
Definition push (hit : bool) (vt : ViolationType) (a : ModerationAction)
    (acc : list ViolationType * list ModerationAction)
  : list ViolationType * list ModerationAction :=
  if hit then ((fst acc ++ [vt])%list, (snd acc ++ [a])%list) else acc.

(** [allowed] of the dictionary returned. *)
Definition verdict (vs : list ViolationType) : bool :=
  (len vs =? 0) || negb (should_delete vs).

(** The bookkeeping that ends the pass. *)
Definition tracked (uid message : string) (clk : Clock) (st : Plugin) : Plugin :=
  {| users := alter (track_message (time clk) message) uid (users st);
     violations := violations st; config := config st |}.

(** One block of the pass, run from [st] where the user is [u]: it ends
    in [st'] where the user is [u']. *)
Definition block (hit : bool) (uid message : string) (vt : ViolationType)
    (a : ModerationAction) (d : Z) (clk : Clock)
    (acc : list ViolationType * list ModerationAction)
    (st : Plugin) (u : UserStatus) (st' : Plugin) (u' : UserStatus) : Prop :=
  on_violation hit uid message vt a d clk acc st = (Ok (push hit vt a acc), st')
  /\ users st !! uid = Some u
  /\ users st' !! uid = Some u'
  /\ user_evolves u u'
  /\ evolves st st'.

Lemma on_violation_run hit uid message vt a d clk acc st u :
  users st !! uid = Some u ->
  exists st' u', block hit uid message vt a d clk acc st u st' u'.
Proof.
  intros Hu.
  destruct (on_violation_spec hit uid message vt a d clk acc st)
    as (st' & Hrun & Hev & _).
  destruct (evolves_user _ _ _ _ Hev Hu) as (u' & Hu' & Huu).
  exists st', u'. unfold block. auto.
Qed.

Lemma detection_pass_run uid message clk st0 u0 :
  users st0 !! uid = Some u0 ->
  exists st1 u1 st2 u2 st3 u3,
    let h1 := profanity_verdict (config st0) message in
    let h2 := (len (recent_messages u1) >? 0)
              && (spam_detection_enabled (config st1)
                  && spam_verdict (recent_messages u1) message) in
    let h3 := (len (recent_messages u2) >=? 3) && rate_verdict (config st2) u2 clk in
    let acc1 := push h1 PROFANITY WARN ([], []) in
    let acc2 := push h2 SPAM MUTE acc1 in
    let acc3 := push h3 RATE_LIMIT MUTE acc2 in
    block h1 uid message PROFANITY WARN 300 clk ([], []) st0 u0 st1 u1
    /\ block h2 uid message SPAM MUTE 300 clk acc1 st1 u1 st2 u2
    /\ block h3 uid message RATE_LIMIT MUTE 60 clk acc2 st2 u2 st3 u3
    /\ ((message = ""
         /\ detection_pass uid message clk st0 = (Raise ZeroDivisionError, st3))
        \/ exists h4 st4 u4,
             let acc4 := push h4 CAPS_ABUSE WARN acc3 in
             check_caps_abuse message st3 = (Ok h4, st3)
             /\ block h4 uid message CAPS_ABUSE WARN 300 clk acc3 st3 u3 st4 u4
             /\ detection_pass uid message clk st0
                = (Ok (Moderated (verdict (fst acc4)) (fst acc4) (snd acc4)
                         (track_message (time clk) message u4)),
                   tracked uid message clk st4)).
Proof.
  intros Hu0.
  set (h1 := profanity_verdict (config st0) message).
  destruct (on_violation_run h1 uid message PROFANITY WARN 300 clk ([], []) st0 u0 Hu0)
    as (st1 & u1 & B1).
  assert (R1 := proj1 B1). assert (Hu1 := proj1 (proj2 (proj2 B1))).
  set (h2 := (len (recent_messages u1) >? 0)
             && (spam_detection_enabled (config st1)
                 && spam_verdict (recent_messages u1) message)).
  destruct (on_violation_run h2 uid message SPAM MUTE 300 clk
              (push h1 PROFANITY WARN ([], [])) st1 u1 Hu1)
    as (st2 & u2 & B2).
  assert (R2 := proj1 B2). assert (Hu2 := proj1 (proj2 (proj2 B2))).
  set (h3 := (len (recent_messages u2) >=? 3) && rate_verdict (config st2) u2 clk).
  destruct (on_violation_run h3 uid message RATE_LIMIT MUTE 60 clk
              (push h2 SPAM MUTE (push h1 PROFANITY WARN ([], []))) st2 u2 Hu2)
    as (st3 & u3 & B3).
  assert (R3 := proj1 B3). assert (Hu3 := proj1 (proj2 (proj2 B3))).
  exists st1, u1, st2, u2, st3, u3. cbv zeta. fold h1 h2 h3.
  split; [exact B1|]. split; [exact B2|]. split; [exact B3|].
  assert (Hpre :
    detection_pass uid message clk st0
    = (shouting <- check_caps_abuse message ;;
       acc <- on_violation shouting uid message CAPS_ABUSE WARN 300 clk
                (push h3 RATE_LIMIT MUTE (push h2 SPAM MUTE
                   (push h1 PROFANITY WARN ([], [])))) ;;
       update_user uid (track_message (time clk) message) ;;;
       user <- get_user_status uid ;;
       ret (Moderated ((len (fst acc) =? 0) || negb (should_delete (fst acc)))
                      (fst acc) (snd acc) user)) st3).
  { unfold detection_pass.
    rewrite (bind_Ok _ _ _ _ _ (check_profanity_eq message st0)).
    replace (fst (if profanity_filter_enabled (config st0)
                  then (len (found_words message) >? 0, found_words message)
                  else (false, []))) with h1
      by (unfold h1, profanity_verdict;
          destruct (profanity_filter_enabled (config st0)); reflexivity).
    rewrite (bind_Ok _ _ _ _ _ R1).
    rewrite (bind_Ok _ _ _ _ _ (get_user_status_present _ _ _ Hu1)).
    assert (S2 : (if len (recent_messages u1) >? 0 then check_spam uid message
                  else ret false) st1 = (Ok h2, st1)).
    { unfold h2. destruct (len (recent_messages u1) >? 0); [|reflexivity].
      apply check_spam_eq, Hu1. }
    rewrite (bind_Ok _ _ _ _ _ S2). rewrite (bind_Ok _ _ _ _ _ R2).
    rewrite (bind_Ok _ _ _ _ _ (get_user_status_present _ _ _ Hu2)).
    assert (S3 : (if len (recent_messages u2) >=? 3 then check_rate_limit uid clk
                  else ret false) st2 = (Ok h3, st2)).
    { unfold h3. destruct (len (recent_messages u2) >=? 3); [|reflexivity].
      apply check_rate_limit_eq, Hu2. }
    rewrite (bind_Ok _ _ _ _ _ S3). rewrite (bind_Ok _ _ _ _ _ R3).
    reflexivity. }
  destruct (check_caps_abuse_cases st3 message) as [[h4 C4]|[Hm C4]].
  - right.
    destruct (on_violation_run h4 uid message CAPS_ABUSE WARN 300 clk
                (push h3 RATE_LIMIT MUTE (push h2 SPAM MUTE
                   (push h1 PROFANITY WARN ([], [])))) st3 u3 Hu3)
      as (st4 & u4 & B4).
    assert (R4 := proj1 B4). assert (Hu4 := proj1 (proj2 (proj2 B4))).
    exists h4, st4, u4. cbv zeta.
    split; [exact C4|]. split; [exact B4|].
    rewrite Hpre. rewrite (bind_Ok _ _ _ _ _ C4). rewrite (bind_Ok _ _ _ _ _ R4).
    rewrite (bind_Ok _ _ st4 tt (tracked uid message clk st4)) by reflexivity.
    assert (Ht : users (tracked uid message clk st4) !! uid
                 = Some (track_message (time clk) message u4)).
    { unfold tracked. cbn [users]. apply lookup_alter_user, Hu4. }
    rewrite (bind_Ok _ _ _ _ _ (get_user_status_present _ _ _ Ht)).
    reflexivity.
  - left. split; [exact Hm|]. rewrite Hpre. apply bind_Raise, C4.
Qed.

(** Past the punishment check, [moderate_message] is the detection pass
    on a state in which the user is known. *)
Definition unpunished (uid : string) (clk : Clock) (st : Plugin) : Prop :=
  forall u, users st !! uid = Some u ->
    active_ban u clk = None /\ active_mute u clk = None.

Lemma moderate_message_unpunished uid message clk st :
  unpunished uid clk st ->
  exists st0 u0,
    get_user_status uid st = (Ok u0, st0)
    /\ users st0 !! uid = Some u0
    /\ evolves st st0
    /\ violations st0 = violations st
    /\ moderate_message uid message clk st = detection_pass uid message clk st0.
Proof.
  intros Hun.
  destruct (get_user_status_spec uid st) as (u0 & st0 & Hg & Hu0 & Hev & Hv).
  exists st0, u0. repeat (split; [assumption|]).
  unfold moderate_message. rewrite (bind_Ok _ _ _ _ _ Hg).
  assert (Hnone : active_ban u0 clk = None /\ active_mute u0 clk = None).
  { revert Hg. unfold get_user_status.
    destruct (users st !! uid) as [u|] eqn:Hu; intros [= <- <-].
    - apply Hun, Hu.
    - split; reflexivity. }
  destruct Hnone as [-> ->]. reflexivity.
Qed.

Lemma API_moderate_message_cases uid message roles clk st :
  (exists key, API.moderate_message uid message roles clk st = (Raise (KeyError key), st))
  \/ API.moderate_message uid message roles clk st = (Ok Bypassed, st)
  \/ API.moderate_message uid message roles clk st = moderate_message uid message clk st.
Proof.
  unfold API.moderate_message.
  destruct roles as [[|role roles]|]; [right; right; reflexivity| |right; right; reflexivity].
  unfold API._has_bypass_permission, the_config, bind, ret, raise.
  destruct (whitelist (config st)) as [wl|]; [|left; eexists; reflexivity].
  destruct (wl_enabled wl) as [[|]|]; [| right; right; reflexivity | left; eexists; reflexivity].
  cbn [negb].
  destruct (moderator_roles wl) as [rs|]; [|left; eexists; reflexivity].
  destruct (existsb (fun role0 => bool_decide (role0 ∈ rs)) (role :: roles));
    [right; left; reflexivity | right; right; reflexivity].
Qed.

Lemma should_delete_true vs :
  should_delete vs = true <-> PROFANITY ∈ vs \/ SPAM ∈ vs.
Proof.
  unfold should_delete. rewrite existsb_exists. split.
  - intros (v & Hin & Hv). apply bool_decide_eq_true in Hv.
    apply list_elem_of_In in Hin.
    apply elem_of_cons in Hv as [->|Hv]; [left; exact Hin|].
    apply elem_of_cons in Hv as [->|Hv]; [right; exact Hin|].
    apply elem_of_nil in Hv. destruct Hv.
  - intros [H|H]; [exists PROFANITY | exists SPAM];
      (split; [apply list_elem_of_In, H | apply bool_decide_eq_true; set_solver]).
Qed.

Lemma verdict_false vs : verdict vs = false <-> PROFANITY ∈ vs \/ SPAM ∈ vs.
Proof.
  rewrite <- should_delete_true. unfold verdict. split.
  - intros H. apply orb_false_iff in H as [_ H]. apply negb_false_iff, H.
  - intros H. rewrite H. destruct vs; [discriminate H|]. reflexivity.
Qed.

(** C1. A call of [moderate_message] that is not bypassed, for a user
    without unexpired punishment, returns [allowed = False] exactly when
    the violations it detected contain Profanity or Spam; violations that
    are only Caps-Abuse and Rate-Limit, or none, give [allowed = True]. *)
Theorem allow_decision (uid message : string) (roles : option (list string))
    (clk : Clock) (st st' : Plugin) (d : Decision) :
  unpunished uid clk st ->
  API.moderate_message uid message roles clk st = (Ok d, st') ->
  d <> Bypassed ->
  (allowed d = false
   <-> PROFANITY ∈ decision_violations d \/ SPAM ∈ decision_violations d)
  /\ ((forall v, v ∈ decision_violations d -> v = CAPS_ABUSE \/ v = RATE_LIMIT) ->
      allowed d = true).
Proof.
  intros Hun Hrun Hnb.
  assert (Hmod : moderate_message uid message clk st = (Ok d, st')).
  { destruct (API_moderate_message_cases uid message roles clk st)
      as [[key H]|[H|H]]; rewrite H in Hrun.
    - discriminate.
    - injection Hrun as <- _. destruct Hnb; reflexivity.
    - exact Hrun. }
  destruct (moderate_message_unpunished uid message clk st Hun)
    as (st0 & u0 & _ & Hu0 & _ & _ & Heq).
  rewrite Heq in Hmod.
  destruct (detection_pass_run uid message clk st0 u0 Hu0)
    as (st1 & u1 & st2 & u2 & st3 & u3 & _ & _ & _ & Hend).
  destruct Hend as [[_ Hraise]|(h4 & st4 & u4 & _ & _ & Hok)].
  { rewrite Hraise in Hmod. discriminate. }
  cbv zeta in Hok. rewrite Hok in Hmod. injection Hmod as <- _.
  cbn [allowed decision_violations].
  split; [apply verdict_false|].
  intros Honly. destruct (verdict _) eqn:Hv; [reflexivity|].
  apply verdict_false in Hv as [Hv|Hv]; destruct (Honly _ Hv); discriminate.
Qed.

Lemma allow_decision_witness :
  exists d st',
    API.moderate_message "david" "THIS IS REALLY ANNOYING WHEN PEOPLE TYPE LIKE THIS"
      None {| now := 1000000; time := 1 |} (init default_config) = (Ok d, st')
    /\ decision_violations d = [CAPS_ABUSE]
    /\ allowed d = true.
Proof.
  eexists _, _. split; [vm_compute; reflexivity|]. split; [reflexivity|].
  refine (proj2 (allow_decision "david"
                   "THIS IS REALLY ANNOYING WHEN PEOPLE TYPE LIKE THIS"
                   None {| now := 1000000; time := 1 |} (init default_config)
                   _ _ _ _ _) _).
  - intros u Hu. discriminate Hu.
  - vm_compute. reflexivity.
  - discriminate.
  - intros v Hv. apply list_elem_of_singleton in Hv. left. exact Hv.
Defined.

(** A decision that came out of the detection pass. *)
Definition ran_detection (d : Decision) : Prop :=
  match d with
  | Moderated _ _ _ _ => True
  | _ => False
  end.

(** A call past the punishment check returns a decision unless the
    message is empty. *)
Lemma moderate_message_returns uid message clk st :
  unpunished uid clk st -> message <> "" ->
  exists d st', moderate_message uid message clk st = (Ok d, st') /\ ran_detection d.
Proof.
  intros Hun Hne.
  destruct (moderate_message_unpunished uid message clk st Hun)
    as (st0 & u0 & _ & Hu0 & _ & _ & ->).
  destruct (detection_pass_run uid message clk st0 u0 Hu0)
    as (st1 & u1 & st2 & u2 & st3 & u3 & _ & _ & _ & Hend).
  destruct Hend as [[Hempty _]|(h4 & st4 & u4 & _ & _ & Hok)];
    [destruct (Hne Hempty)|].
  cbv zeta in Hok. eexists _, _. split; [exact Hok | exact I].
Qed.

(** The scenarios of the test suite, on a fresh plugin. *)
Example scenario_clean_message :
  exists snap st',
    moderate_message "user1" "Hello everyone!" {| now := 1000000; time := 1 |}
      (init default_config) = (Ok (Moderated true [] [] snap), st').
Proof. eexists _, _. vm_compute. reflexivity. Qed.

Example scenario_profanity :
  exists snap st',
    moderate_message "user2" "This is a damn test message"
      {| now := 1000000; time := 1 |} (init default_config)
    = (Ok (Moderated false [PROFANITY] [WARN] snap), st').
Proof. eexists _, _. vm_compute. reflexivity. Qed.

Example scenario_caps :
  exists snap st',
    moderate_message "david" "THIS IS REALLY ANNOYING WHEN PEOPLE TYPE LIKE THIS"
      {| now := 1000000; time := 1 |} (init default_config)
    = (Ok (Moderated true [CAPS_ABUSE] [WARN] snap), st').
Proof. eexists _, _. vm_compute. reflexivity. Qed.

(** ** The spam detector *)

(** The recent messages of a user; none for a user not seen yet. *)
Definition history (uid : string) (st : Plugin) : list string :=
  match users st !! uid with
  | Some u => recent_messages u
  | None => []
  end.






Lemma check_spam_disabled uid message st :
  spam_detection_enabled (config st) = false ->
  check_spam uid message st = (Ok false, st).
Proof. intros H. unfold check_spam, bind, the_config. rewrite H. reflexivity. Qed.

Lemma moderate_message_inv uid message clk st d st' :
  moderate_message uid message clk st = (Ok d, st') ->
  ran_detection d ->
  exists st0 u0,
    get_user_status uid st = (Ok u0, st0)
    /\ users st0 !! uid = Some u0
    /\ evolves st st0
    /\ detection_pass uid message clk st0 = (Ok d, st').
Proof.
  intros Hrun Hd.
  destruct (get_user_status_spec uid st) as (u0 & st0 & Hg & Hu0 & Hev & Hv).
  exists st0, u0. repeat (split; [assumption|]).
  revert Hrun. unfold moderate_message. rewrite (bind_Ok _ _ _ _ _ Hg).
  destruct (active_ban u0 clk); [intros [= <- _]; destruct Hd|].
  destruct (active_mute u0 clk); [intros [= <- _]; destruct Hd|].
  auto.
Qed.


Lemma push_keeps hit vt a acc v : v ∈ fst acc -> v ∈ fst (push hit vt a acc).
Proof.
  unfold push. destruct hit; [|auto]. simpl. intros H. apply elem_of_app. auto.
Qed.

Lemma push_hit vt a acc : vt ∈ fst (push true vt a acc).
Proof. simpl. apply elem_of_app. right. apply list_elem_of_singleton. reflexivity. Qed.





(** ** The spam conditions, in the words of the specification *)

Module SpamSpec.







End SpamSpec.

























Example spam_scenarios :
  spam_verdict ["hello"; "world"; "test"] "hello" = true
  /\ spam_verdict ["hello"; "world"; "test"] "unique message here" = false
  /\ spam_verdict [] "spam spam spam spam spam" = true
  /\ spam_verdict [] "no no" = true
  /\ spam_verdict [] "no" = false.
Proof. repeat split; vm_compute; reflexivity. Qed.

(** ** The profanity detector *)

(** The leetspeak substitutions: the character of the term, the
    character of the message. *)
Definition leet (t x : ascii) : Prop :=
  (t = "a" /\ x = "@")%char \/ (t = "e" /\ x = "3")%char
  \/ (t = "i" /\ x = "1")%char \/ (t = "o" /\ x = "0")%char.

(** A character of the message spells a character of the term: the same
    up to case, or its substitute. *)
Definition spells (t x : ascii) : Prop :=
  Char.lower x = Char.lower t \/ leet t x.

(** The term occurs in the message, anchored at word boundaries: the
    message is [pre ++ mid ++ post], [mid] spells the term, and there is a
    word boundary before and after [mid]. *)
Definition occurs (w message : string) : Prop :=
  exists pre mid post,
    list_ascii_of_string message = (pre ++ mid ++ post)%list
    /\ Forall2 spells (list_ascii_of_string w) mid
    /\ Re.word_boundary (last pre) (head (mid ++ post)) = true
    /\ Re.word_boundary (last (pre ++ mid)) (head post) = true.

Definition last_or (prev : option ascii) (l : list ascii) : option ascii :=
  match last l with
  | Some c => Some c
  | None => prev
  end.

Lemma last_or_cons prev c l : last_or prev (c :: l) = last_or (Some c) l.
Proof.
  unfold last_or. destruct l as [|c' l]; [reflexivity|].
  rewrite last_cons. destruct (last (c' :: l)) eqn:E; [reflexivity|].
  apply last_None in E. discriminate.
Qed.

Lemma last_or_last pre mid : last_or (last pre) mid = last (pre ++ mid).
Proof.
  unfold last_or. rewrite last_app. destruct (last mid); reflexivity.
Qed.

Lemma spells_in_class t x : spells t x -> Re.in_class (compile_char t) x = true.
Proof.
  unfold Re.in_class, compile_char. intros [Hl|Hs].
  - assert (Hx : Ascii.eqb (Char.lower x) (Char.lower t) = true)
      by (apply Ascii.eqb_eq; exact Hl).
    destruct (Ascii.eqb_spec t "a") as [->|_]; [cbn [existsb]; rewrite Hx; reflexivity|].
    destruct (Ascii.eqb_spec t "e") as [->|_]; [cbn [existsb]; rewrite Hx; reflexivity|].
    destruct (Ascii.eqb_spec t "i") as [->|_]; [cbn [existsb]; rewrite Hx; reflexivity|].
    destruct (Ascii.eqb_spec t "o") as [->|_]; cbn [existsb]; rewrite Hx; reflexivity.
  - destruct Hs as [[-> ->]|[[-> ->]|[[-> ->]|[-> ->]]]]; reflexivity.
Qed.

Lemma match_classes_spelled ts mid prev post :
  Forall2 spells ts mid ->
  Re.match_classes (map compile_char ts) prev (mid ++ post)
  = Some (mid, last_or prev mid, post).
Proof.
  intros H. revert prev. induction H as [|t x ts mid Hs _ IH]; intros prev.
  - reflexivity.
  - simpl. rewrite (spells_in_class _ _ Hs), IH, last_or_cons. reflexivity.
Qed.

Lemma match_here_spelled ts pre mid post :
  Forall2 spells ts mid ->
  Re.word_boundary (last pre) (head (mid ++ post)) = true ->
  Re.word_boundary (last (pre ++ mid)) (head post) = true ->
  Re.match_here (map compile_char ts) (last pre) (mid ++ post) = Some mid.
Proof.
  intros Hsp Hb1 Hb2. unfold Re.match_here.
  rewrite Hb1, (match_classes_spelled _ _ _ _ Hsp), last_or_last, Hb2.
  reflexivity.
Qed.

(** The scan finds a match whenever there is one at some position not
    covered by the match before. *)
Lemma findall_from_finds p pre suf m :
  forall prev skip,
    (skip <= length pre)%nat ->
    Re.match_here p (last_or prev pre) suf = Some m ->
    Re.findall_from p prev (pre ++ suf) skip <> [].
Proof.
  induction pre as [|c pre IH]; intros prev skip Hskip Hm.
  - simpl in Hskip. assert (skip = O) by lia. subst skip.
    unfold last_or in Hm. simpl in Hm. simpl.
    destruct suf as [|x s']; simpl; rewrite Hm; discriminate.
  - rewrite last_or_cons in Hm. simpl.
    destruct skip as [|k].
    + destruct (Re.match_here p prev (c :: pre ++ suf)); [discriminate|].
      apply IH; [lia | exact Hm].
    + apply IH; [simpl in Hskip; lia | exact Hm].
Qed.

Lemma findall_occurs w message :
  occurs w message -> Re.findall (compile_word w) message <> [].
Proof.
  intros (pre & mid & post & Hmsg & Hsp & Hb1 & Hb2).
  unfold Re.findall, compile_word. rewrite Hmsg.
  intros E. apply map_eq_nil in E. revert E.
  apply (findall_from_finds _ pre (mid ++ post) mid None 0%nat); [lia|].
  replace (last_or None pre) with (last pre)
    by (unfold last_or; destruct (last pre); reflexivity).
  apply match_here_spelled; assumption.
Qed.

Lemma flat_map_not_nil {A B} (f : A -> list B) (x : A) (l : list A) :
  In x l -> f x <> [] -> flat_map f l <> [].
Proof.
  induction l as [|a l IH]; intros Hin Hne; [destruct Hin|].
  simpl. intros E. apply app_eq_nil in E as [E1 E2].
  destruct Hin as [->|Hin]; [exact (Hne E1) | exact (IH Hin Hne E2)].
Qed.

Lemma found_words_occurs w message :
  w ∈ profanity_words -> occurs w message -> len (found_words message) > 0.
Proof.
  intros Hw Hocc. pose proof (findall_occurs w message Hocc) as Hne.
  assert (Hin : In (compile_word w) profanity_patterns).
  { unfold profanity_patterns. apply in_map, list_elem_of_In, Hw. }
  pose proof (flat_map_not_nil (fun p => Re.findall p message) _ _ Hin Hne) as Hf.
  fold (found_words message) in Hf.
  destruct (found_words message); [destruct Hf; reflexivity|].
  unfold len. simpl. lia.
Qed.

Lemma occurs_nonempty w message :
  w ∈ profanity_words -> occurs w message -> message <> "".
Proof.
  intros Hw (pre & mid & post & Hmsg & Hsp & _) ->.
  simpl in Hmsg. symmetry in Hmsg.
  apply app_eq_nil in Hmsg as [_ Hmsg]. apply app_eq_nil in Hmsg as [-> _].
  inversion Hsp as [Hnil|]; subst.
  destruct w as [|c w]; [|discriminate].
  revert Hw. unfold profanity_words. rewrite !elem_of_cons, elem_of_nil.
  intuition discriminate.
Qed.

(** What the detector does catch: whenever a term of the word list
    occurs in the message, spelled up to case and the substitutions of
    [@] for a, [3] for e, [1] for i and [0] for o, with a word boundary
    of [\b] on either side, a call of [moderate_message] that reaches
    detection with the profanity rule enabled returns a decision that
    lists Profanity and has [allowed = False]. *)
Theorem profanity_detected (uid message w : string) (clk : Clock) (st : Plugin) :
  w ∈ profanity_words ->
  occurs w message ->
  profanity_filter_enabled (config st) = true ->
  unpunished uid clk st ->
  exists d st',
    moderate_message uid message clk st = (Ok d, st')
    /\ PROFANITY ∈ decision_violations d
    /\ allowed d = false.
Proof.
  intros Hw Hocc Hen Hun.
  destruct (moderate_message_unpunished uid message clk st Hun)
    as (st0 & u0 & _ & Hu0 & Hev & _ & ->).
  destruct (detection_pass_run uid message clk st0 u0 Hu0)
    as (st1 & u1 & st2 & u2 & st3 & u3 & _ & _ & _ & Hend).
  destruct Hend as [[Hempty _]|(h4 & st4 & u4 & _ & _ & Hok)].
  { destruct (occurs_nonempty w message Hw Hocc Hempty). }
  cbv zeta in Hok. eexists _, _. split; [exact Hok|].
  cbn [decision_violations allowed].
  assert (Hv : profanity_verdict (config st0) message = true).
  { unfold profanity_verdict. destruct Hev as (-> & _). rewrite Hen.
    apply Z.gtb_gt, (found_words_occurs w), Hocc. exact Hw. }
  rewrite Hv.
  assert (Hin : PROFANITY ∈ fst (push h4 CAPS_ABUSE WARN
            (push ((len (recent_messages u2) >=? 3) && rate_verdict (config st2) u2 clk)
               RATE_LIMIT MUTE
               (push ((len (recent_messages u1) >? 0)
                      && (spam_detection_enabled (config st1)
                          && spam_verdict (recent_messages u1) message))
                  SPAM MUTE (push true PROFANITY WARN ([], [])))))).
  { apply push_keeps, push_keeps, push_keeps, push_hit. }
  split; [exact Hin|]. apply verdict_false. left. exact Hin.
Qed.

Lemma profanity_detected_witness :
  exists d st',
    moderate_message "user2" "This is d@mn annoying" {| now := 1000000; time := 1 |}
      (init default_config) = (Ok d, st')
    /\ PROFANITY ∈ decision_violations d
    /\ allowed d = false.
Proof.
  apply (profanity_detected "user2" "This is d@mn annoying" "damn"
           {| now := 1000000; time := 1 |} (init default_config)).
  - unfold profanity_words. apply elem_of_cons. left. reflexivity.
  - exists (list_ascii_of_string "This is "), (list_ascii_of_string "d@mn"),
           (list_ascii_of_string " annoying").
    split; [reflexivity|]. split; [|split; reflexivity].
    simpl.
    constructor; [left; reflexivity|].
    constructor; [right; left; split; reflexivity|].
    constructor; [left; reflexivity|].
    constructor; [left; reflexivity|].
    constructor.
  - reflexivity.
  - intros u Hu. discriminate Hu.
Defined.

(** The anchors are those of [\b]: a term spelled with a leading [@] has
    a word boundary before it only after a word character. *)
Example found_words_at_sign :
  found_words "@ss" = [] /\ found_words "you @ss" = []
  /\ found_words "gl@ss" = ["@ss"] /\ found_words "class" = []
  /\ found_words "This is a damn test message" = ["damn"]
  /\ found_words "ASS!" = ["ASS"].
Proof. repeat split; vm_compute; reflexivity. Qed.

(** C3. The detector misses a term of the word list that is spelled
    with [@] for its first letter and stands as a word of its own. The
    pattern of "ass" is [\b[a@]ss\b]; before an [@] that follows a
    space, or starts the message, there is no word boundary, so the
    pattern cannot match there. On a fresh plugin with the default
    configuration, where the profanity rule is enabled and the user has
    no punishment, the messages "you @ss" and "you are an @sshole!" are
    allowed with no violation, although "@ss" and "@sshole" spell the
    terms "ass" and "asshole" with the substitution of [@] for a; the
    same spelling inside another word, "gl@ss", is reported. *)
Theorem profanity_missed_at_token_start :
  "ass" ∈ profanity_words
  /\ "asshole" ∈ profanity_words
  /\ Forall2 (fun t x => x = t \/ leet t x)
       (list_ascii_of_string "ass") (list_ascii_of_string "@ss")
  /\ Forall2 (fun t x => x = t \/ leet t x)
       (list_ascii_of_string "asshole") (list_ascii_of_string "@sshole")
  /\ split "you @ss" = ["you"; "@ss"]
  /\ profanity_filter_enabled default_config = true
  /\ (exists snap st',
        moderate_message "user1" "you @ss" {| now := 1000000; time := 1 |}
          (init default_config) = (Ok (Moderated true [] [] snap), st'))
  /\ (exists snap st',
        moderate_message "user1" "you are an @sshole!"
          {| now := 1000000; time := 1 |} (init default_config)
        = (Ok (Moderated true [] [] snap), st'))
  /\ (exists snap st',
        moderate_message "user1" "a gl@ss of water"
          {| now := 1000000; time := 1 |} (init default_config)
        = (Ok (Moderated false [PROFANITY] [WARN] snap), st')).
Proof.
  split; [unfold profanity_words; rewrite !elem_of_cons; tauto|].
  split; [unfold profanity_words; rewrite !elem_of_cons; tauto|].
  split.
  { simpl. constructor; [right; left; split; reflexivity|].
    repeat (constructor; [left; reflexivity|]). constructor. }
  split.
  { simpl. constructor; [right; left; split; reflexivity|].
    repeat (constructor; [left; reflexivity|]). constructor. }
  split; [vm_compute; reflexivity|]. split; [reflexivity|].
  split; [|split]; eexists _, _; vm_compute; reflexivity.
Qed.

(** ** The punishment fields in the states the API can reach *)

Inductive op :=
| OpModerate (uid message : string) (roles : option (list string)) (clk : Clock)
| OpManual (uid action : string) (duration : Z) (clk : Clock)
| OpSweep (clk : Clock)
| OpStatus (uid : string).

(** The state an operation leaves, whether it returned or raised. *)
Definition run_op (o : op) (st : Plugin) : Plugin :=
  match o with
  | OpModerate uid message roles clk =>
      snd (API.moderate_message uid message roles clk st)
  | OpManual uid action duration clk =>
      snd (API.apply_manual_action uid action duration clk st)
  | OpSweep clk => snd (API.cleanup clk st)
  | OpStatus uid => snd (API.get_user_status uid st)
  end.

Inductive reachable (cfg : Config) : Plugin -> Prop :=
| reachable_init : reachable cfg (init cfg)
| reachable_step st o : reachable cfg st -> reachable cfg (run_op o st).

Definition all_consistent (st : Plugin) : Prop :=
  forall uid u, users st !! uid = Some u -> consistent u.

Lemma evolves_consistent st st' :
  evolves st st' -> all_consistent st -> all_consistent st'.
Proof.
  intros (_ & _ & Hrel) Hall uid u' Hu'.
  specialize (Hrel uid). rewrite Hu' in Hrel.
  destruct (users st !! uid) as [u|] eqn:Hu; simpl in Hrel.
  - apply Hrel, (Hall uid u Hu).
  - apply Hrel.
Qed.

Lemma track_message_consistent t message u :
  consistent u -> consistent (track_message t message u).
Proof. unfold consistent. simpl. auto. Qed.

Lemma tracked_consistent uid message clk st :
  all_consistent st -> all_consistent (tracked uid message clk st).
Proof.
  intros Hall uid' u'. unfold tracked. cbn [users].
  destruct (decide (uid = uid')) as [<-|Hne].
  - rewrite lookup_alter_eq. destruct (users st !! uid) as [u|] eqn:Hu; [|discriminate].
    intros [= <-]. apply track_message_consistent, (Hall uid u Hu).
  - rewrite lookup_alter_ne by exact Hne. apply Hall.
Qed.

Lemma expire_consistent t u : consistent u -> consistent (expire t u).
Proof.
  destruct u as [id m b [x|] [y|] vc lt rm]; unfold consistent, expire; simpl;
    intros [H1 H2];
    repeat match goal with
           | |- context [if ?c then _ else _] => destruct c eqn:?; simpl
           end;
    split; intros [z Hz]; try discriminate; eauto.
Qed.

Lemma detection_pass_consistent uid message clk st0 u0 :
  users st0 !! uid = Some u0 ->
  all_consistent st0 ->
  all_consistent (snd (detection_pass uid message clk st0)).
Proof.
  intros Hu0 Hall.
  destruct (detection_pass_run uid message clk st0 u0 Hu0)
    as (st1 & u1 & st2 & u2 & st3 & u3 & B1 & B2 & B3 & Hend).
  assert (H3 : all_consistent st3).
  { eapply evolves_consistent; [apply B3|].
    eapply evolves_consistent; [apply B2|].
    eapply evolves_consistent; [apply B1|]. exact Hall. }
  destruct Hend as [[_ ->]|(h4 & st4 & u4 & _ & B4 & Hok)]; [exact H3|].
  cbv zeta in Hok. rewrite Hok. cbn [snd].
  apply tracked_consistent. eapply evolves_consistent; [apply B4 | exact H3].
Qed.

Lemma moderate_message_consistent uid message clk st :
  all_consistent st -> all_consistent (snd (moderate_message uid message clk st)).
Proof.
  intros Hall.
  destruct (get_user_status_spec uid st) as (u0 & st0 & Hg & Hu0 & Hev & _).
  pose proof (evolves_consistent _ _ Hev Hall) as Hall0.
  unfold moderate_message. rewrite (bind_Ok _ _ _ _ _ Hg).
  destruct (active_ban u0 clk); [exact Hall0|].
  destruct (active_mute u0 clk); [exact Hall0|].
  apply (detection_pass_consistent _ _ _ _ u0 Hu0 Hall0).
Qed.

Lemma run_op_consistent o st : all_consistent st -> all_consistent (run_op o st).
Proof.
  intros Hall. destruct o as [uid message roles clk|uid action duration clk|clk|uid];
    cbn [run_op].
  - destruct (API_moderate_message_cases uid message roles clk st)
      as [[key ->]|[->| ->]]; [exact Hall | exact Hall |].
    apply moderate_message_consistent, Hall.
  - unfold API.apply_manual_action.
    destruct (ModerationAction_of_value action) as [a|]; [|exact Hall].
    destruct (apply_moderation_action_spec uid a duration clk st)
      as (b & st' & -> & Hev & _).
    exact (evolves_consistent _ _ Hev Hall).
  - intros uid u'. cbn. rewrite lookup_fmap.
    destruct (users st !! uid) as [u|] eqn:Hu; [|discriminate].
    intros [= <-]. apply expire_consistent, (Hall uid u Hu).
  - unfold API.get_user_status.
    destruct (get_user_status_spec uid st) as (u & st' & Hg & _ & Hev & _).
    rewrite (bind_Ok _ _ _ _ _ Hg). exact (evolves_consistent _ _ Hev Hall).
Qed.

(** C5, as it is worded, after a manual mute and a manual ban of one
    user: the user is muted and banned at once. *)
Lemma muted_and_banned :
  ~ (forall st, reachable default_config st ->
       forall uid u, users st !! uid = Some u ->
         ~ (is_muted u = true /\ is_banned u = true)).
Proof.
  intros H.
  set (clk := {| now := 1000000; time := 1 |}).
  set (st := run_op (OpManual "troublemaker" "ban" 3600 clk)
               (run_op (OpManual "troublemaker" "mute" 300 clk)
                  (init default_config))).
  assert (Hr : reachable default_config st) by (repeat constructor).
  assert (Hl : exists u, users st !! "troublemaker" = Some u
                         /\ is_muted u = true /\ is_banned u = true).
  { eexists. split; [vm_compute; reflexivity|]. split; reflexivity. }
  destruct Hl as (u & Hu & Hmb).
  exact (H st Hr "troublemaker" u Hu Hmb).
Qed.

(** C5, amended. In every state reachable through [moderate_message],
    [apply_manual_action], [cleanup] and [get_user_status], the mute and
    the ban of a user are two independent flags, each with its own expiry,
    and an expiry is only present while its flag is set. *)
Theorem punishment_fields_consistent (cfg : Config) (st : Plugin) :
  reachable cfg st ->
  forall uid u, users st !! uid = Some u ->
    (is_Some (mute_until u) -> is_muted u = true)
    /\ (is_Some (ban_until u) -> is_banned u = true).
Proof.
  intros Hr. change (all_consistent st).
  induction Hr as [|st o _ IH].
  - intros uid u Hu. discriminate Hu.
  - apply run_op_consistent, IH.
Qed.

Definition muted_then_banned : Plugin :=
  run_op (OpManual "troublemaker" "ban" 3600 {| now := 1000000; time := 1 |})
    (run_op (OpModerate "troublemaker" "damn it" None {| now := 1000000; time := 1 |})
       (init default_config)).

Lemma punishment_fields_consistent_witness :
  exists u,
    users muted_then_banned !! "troublemaker" = Some u
    /\ (is_Some (mute_until u) -> is_muted u = true)
    /\ (is_Some (ban_until u) -> is_banned u = true).
Proof.
  eexists. split; [vm_compute; reflexivity|].
  apply (punishment_fields_consistent default_config muted_then_banned
           (reachable_step _ _ _ (reachable_step _ _ _ (reachable_init _)))
           "troublemaker").
  vm_compute. reflexivity.
Defined.

(** ** Escalation *)

(** The action each block of the pass applies and lists; the last two
    kinds of violation are never raised by the pass. *)
Definition rule_action (vt : ViolationType) : ModerationAction :=
  match vt with
  | PROFANITY => WARN
  | SPAM => MUTE
  | RATE_LIMIT => MUTE
  | CAPS_ABUSE => WARN
  | REPETITIVE => WARN
  | INAPPROPRIATE_CONTENT => WARN
  end.

(** Escalation is on and the user has reached the threshold of warnings
    within the last 24 hours. *)
Definition due_for_mute (uid : string) (clk : Clock) (st : Plugin) : Prop :=
  escalation_enabled (config st) = true
  /\ warn_to_mute_threshold (config st)
     <= recent_with_action uid clk WARN (violations st).

Lemma block_escalates hit uid message vt a d clk acc st u st' u' :
  block hit uid message vt a d clk acc st u st' u' ->
  due_for_mute uid clk st ->
  due_for_mute uid clk st'
  /\ (hit = true -> muted_until uid (Datetime.add_seconds (now clk) 300) st')
  /\ (hit = false -> st' = st).
Proof.
  intros (Hrun & _ & _ & _ & Hev) [Hen Hw].
  destruct (on_violation_spec hit uid message vt a d clk acc st)
    as (st2 & Hrun2 & _ & Hsame & Hhit).
  rewrite Hrun in Hrun2. injection Hrun2 as <-.
  assert (Hc : config st' = config st) by apply Hev.
  pose proof (evolves_warn_count uid clk WARN _ _ Hev) as Hmono.
  split; [|split].
  - split; rewrite Hc; [exact Hen | lia].
  - intros Ht. apply (Hhit Ht); [exact Hen | lia].
  - exact Hsame.
Qed.

Definition escalated (uid : string) (clk : Clock)
    (acc : list ViolationType * list ModerationAction) (st : Plugin) : Prop :=
  fst acc <> [] -> muted_until uid (Datetime.add_seconds (now clk) 300) st.

Lemma block_escalated hit uid message vt a d clk acc st u st' u' :
  block hit uid message vt a d clk acc st u st' u' ->
  due_for_mute uid clk st ->
  escalated uid clk acc st ->
  due_for_mute uid clk st' /\ escalated uid clk (push hit vt a acc) st'.
Proof.
  intros B Hdue Hesc.
  destruct (block_escalates _ _ _ _ _ _ _ _ _ _ _ _ B Hdue) as (Hdue' & Hhit & Hsame).
  split; [exact Hdue'|].
  destruct hit.
  - intros _. apply Hhit. reflexivity.
  - rewrite (Hsame eq_refl). exact Hesc.
Qed.

Lemma push_actions hit vt acc :
  snd acc = map rule_action (fst acc) ->
  snd (push hit vt (rule_action vt) acc)
  = map rule_action (fst (push hit vt (rule_action vt) acc)).
Proof.
  intros H. unfold push. destruct hit; [|exact H].
  cbn [fst snd]. rewrite map_app, H. reflexivity.
Qed.

Lemma tracked_muted uid message clk t st :
  muted_until uid t st -> muted_until uid t (tracked uid message clk st).
Proof.
  intros (u & Hu & Hm & Ht).
  exists (track_message (time clk) message u).
  split; [unfold tracked; cbn [users]; apply lookup_alter_user, Hu|].
  split; [exact Hm | exact Ht].
Qed.

(** What the pass does for a user who is due for a mute. *)
Lemma detection_pass_escalates uid message clk st0 u0 d st' :
  users st0 !! uid = Some u0 ->
  due_for_mute uid clk st0 ->
  detection_pass uid message clk st0 = (Ok d, st') ->
  decision_actions d = map rule_action (decision_violations d)
  /\ (decision_violations d <> [] ->
      muted_until uid (Datetime.add_seconds (now clk) 300) st'
      /\ exists a vs acts snap,
           d = Moderated a vs acts snap /\ users st' !! uid = Some snap).
Proof.
  intros Hu0 Hdue Hrun.
  destruct (detection_pass_run uid message clk st0 u0 Hu0)
    as (st1 & u1 & st2 & u2 & st3 & u3 & B1 & B2 & B3 & Hend).
  destruct Hend as [[_ Hraise]|(h4 & st4 & u4 & _ & B4 & Hok)].
  { rewrite Hraise in Hrun. discriminate. }
  cbv zeta in Hok. rewrite Hok in Hrun. injection Hrun as <- <-.
  cbn [decision_actions decision_violations].
  assert (He0 : escalated uid clk ([], []) st0) by (intros H; destruct H; reflexivity).
  destruct (block_escalated _ _ _ _ _ _ _ _ _ _ _ _ B1 Hdue He0) as [Hd1 He1].
  destruct (block_escalated _ _ _ _ _ _ _ _ _ _ _ _ B2 Hd1 He1) as [Hd2 He2].
  destruct (block_escalated _ _ _ _ _ _ _ _ _ _ _ _ B3 Hd2 He2) as [Hd3 He3].
  destruct (block_escalated _ _ _ _ _ _ _ _ _ _ _ _ B4 Hd3 He3) as [Hd4 He4].
  split.
  - apply (push_actions _ CAPS_ABUSE), (push_actions _ RATE_LIMIT),
      (push_actions _ SPAM), (push_actions _ PROFANITY). reflexivity.
  - intros Hne. split; [apply tracked_muted, He4, Hne|].
    eexists _, _, _, _. split; [reflexivity|].
    unfold tracked. cbn [users]. apply lookup_alter_user. apply B4.
Qed.

Lemma evolves_due_for_mute uid clk st st' :
  evolves st st' -> due_for_mute uid clk st -> due_for_mute uid clk st'.
Proof.
  intros Hev [Hen Hw]. pose proof (evolves_warn_count uid clk WARN _ _ Hev).
  destruct Hev as (Hc & _). split; rewrite Hc; [exact Hen | lia].
Qed.

Lemma mute_listed vs :
  MUTE ∈ map rule_action vs <-> SPAM ∈ vs \/ RATE_LIMIT ∈ vs.
Proof.
  change (map rule_action vs) with (rule_action <$> vs).
  rewrite list_elem_of_fmap. split.
  - intros (v & Hv & Hin). destruct v; try discriminate; auto.
  - intros [H|H]; [exists SPAM | exists RATE_LIMIT]; auto.
Qed.

(** The state after three warnings within three seconds: the third one
    muted the user for 300 seconds. *)
Definition warned_thrice : Plugin :=
  snd ((moderate_message "troll" "damn" {| now := 1000000; time := 1 |} ;;;
        moderate_message "troll" "shit" {| now := 2000000; time := 2 |} ;;;
        moderate_message "troll" "crap" {| now := 3000000; time := 3 |})
         (init default_config)).

(** C2, as it is worded, on the next violation of a user with three
    warnings in the log, sent once the mute of the third has run out: the
    decision lists the warning of the profanity rule and no mute. *)
Lemma escalation_not_listed :
  ~ (forall uid message clk st d st',
       due_for_mute uid clk st ->
       moderate_message uid message clk st = (Ok d, st') ->
       decision_violations d <> [] ->
       MUTE ∈ decision_actions d).
Proof.
  intros H.
  set (clk := {| now := 1000000000; time := 1000 |}).
  assert (Hdue : due_for_mute "troll" clk warned_thrice).
  { split; [reflexivity|]. vm_compute. discriminate. }
  assert (Hrun : exists snap st',
             moderate_message "troll" "hell" clk warned_thrice
             = (Ok (Moderated false [PROFANITY] [WARN] snap), st')).
  { eexists _, _. vm_compute. reflexivity. }
  destruct Hrun as (snap & st' & Hrun).
  specialize (H "troll" "hell" clk warned_thrice _ st' Hdue Hrun).
  cbn [decision_violations decision_actions] in H.
  assert (Hin : MUTE ∈ [WARN]) by (apply H; discriminate).
  apply list_elem_of_singleton in Hin. discriminate.
Qed.

(** C2, amended. For a user with at least [warn_to_mute_threshold]
    warnings in the log of the last 24 hours, with escalation enabled, the
    processing of the next violation mutes the user: the status returned
    with the decision, which is the user's status after the call, has
    [is_muted] set, with the expiry 300 seconds ahead. The list
    [actions_taken] holds the action of each rule that fired and nothing
    from escalation: it has a mute exactly when Spam or Rate-Limit is among
    the violations. *)
Theorem escalation_mutes_user (uid message : string) (clk : Clock)
    (st st' : Plugin) (d : Decision) :
  due_for_mute uid clk st ->
  moderate_message uid message clk st = (Ok d, st') ->
  decision_violations d <> [] ->
  (exists a vs acts snap,
     d = Moderated a vs acts snap
     /\ users st' !! uid = Some snap
     /\ is_muted snap = true
     /\ forall t, Datetime.add_seconds (now clk) 300 = Some t ->
                  mute_until snap = Some t)
  /\ decision_actions d = map rule_action (decision_violations d)
  /\ (MUTE ∈ decision_actions d
      <-> SPAM ∈ decision_violations d \/ RATE_LIMIT ∈ decision_violations d).
Proof.
  intros Hdue Hrun Hne.
  assert (Hd : ran_detection d) by (destruct d; try exact I; destruct Hne; reflexivity).
  destruct (moderate_message_inv _ _ _ _ _ _ Hrun Hd)
    as (st0 & u0 & _ & Hu0 & Hev & Hpass).
  pose proof (evolves_due_for_mute _ _ _ _ Hev Hdue) as Hdue0.
  destruct (detection_pass_escalates _ _ _ _ _ _ _ Hu0 Hdue0 Hpass) as [Hacts Hmute].
  destruct (Hmute Hne) as ((u & Hu & Hm & Ht) & a & vs & acts & snap & -> & Hsnap).
  rewrite Hsnap in Hu. injection Hu as <-.
  split; [|split].
  - exists a, vs, acts, snap. auto.
  - exact Hacts.
  - rewrite Hacts. apply mute_listed.
Qed.

Lemma escalation_mutes_user_witness :
  exists snap st',
    moderate_message "troll" "hell" {| now := 1000000000; time := 1000 |} warned_thrice
    = (Ok (Moderated false [PROFANITY] [WARN] snap), st')
    /\ is_muted snap = true
    /\ mute_until snap = Some 1300000000.
Proof.
  eexists _, _. split; [vm_compute; reflexivity|].
  edestruct (escalation_mutes_user "troll" "hell"
               {| now := 1000000000; time := 1000 |} warned_thrice)
    as [(a & vs & acts & snap & Hd & Hu & Hm & Ht) _].
  - split; [reflexivity | vm_compute; discriminate].
  - vm_compute. reflexivity.
  - cbn. discriminate.
  - injection Hd as _ _ _ Hs. rewrite Hs.
    split; [exact Hm | apply Ht; reflexivity].
Defined.

(** * More of the plugin *)

(** ** The exact effect of an action, a recorded violation and a block *)

(** The users other than [uid] are the same in both states. *)
Definition frame (uid : string) (st st' : Plugin) : Prop :=
  forall uid', uid' <> uid -> users st' !! uid' = users st !! uid'.

Lemma frame_refl uid st : frame uid st st.
Proof. intros uid' _. reflexivity. Qed.

Lemma frame_trans uid st1 st2 st3 :
  frame uid st1 st2 -> frame uid st2 st3 -> frame uid st1 st3.
Proof. intros H1 H2 uid' Hne. rewrite (H2 uid' Hne). apply H1, Hne. Qed.

(** The status [get_user_status] returns. *)
Definition status_of (uid : string) (st : Plugin) : UserStatus :=
  default (new_user uid) (users st !! uid).

Lemma get_user_status_effect uid st :
  exists st',
    get_user_status uid st = (Ok (status_of uid st), st')
    /\ users st' !! uid = Some (status_of uid st)
    /\ frame uid st st'
    /\ violations st' = violations st
    /\ config st' = config st.
Proof.
  unfold get_user_status, status_of.
  destruct (users st !! uid) as [u|] eqn:Hu; simpl.
  - exists st. split; [reflexivity|]. split; [exact Hu|].
    split; [apply frame_refl|]. split; reflexivity.
  - eexists. split; [reflexivity|]. cbn [users violations config].
    split; [apply lookup_insert_eq|]. split; [|split; reflexivity].
    intros uid' Hne. cbn [users]. apply lookup_insert_ne. congruence.
Qed.

(** What [apply_moderation_action] does to the status of the user. *)
Definition punish (a : ModerationAction) (duration : Z) (clk : Clock)
    (u : UserStatus) : UserStatus :=
  match a with
  | MUTE =>
      match Datetime.add_seconds (now clk) duration with
      | Some t => set_mute_until (Some t) (set_muted true u)
      | None => set_muted true u
      end
  | BAN =>
      match Datetime.add_seconds (now clk) duration with
      | Some t => set_ban_until (Some t) (set_banned true u)
      | None => set_banned true u
      end
  | _ => u
  end.

(** What [apply_moderation_action] returns. *)
Definition punish_ok (a : ModerationAction) (duration : Z) (clk : Clock) : bool :=
  match a with
  | MUTE | BAN => bool_decide (is_Some (Datetime.add_seconds (now clk) duration))
  | _ => true
  end.

Lemma apply_moderation_action_effect uid a d clk st :
  exists st',
    apply_moderation_action uid a d clk st = (Ok (punish_ok a d clk), st')
    /\ users st' !! uid = Some (punish a d clk (status_of uid st))
    /\ frame uid st st'
    /\ violations st' = violations st
    /\ config st' = config st.
Proof.
  destruct (get_user_status_effect uid st) as (st1 & Hg & Hu & Hf & Hv & Hc).
  unfold apply_moderation_action. rewrite (bind_Ok _ _ _ _ _ Hg).
  assert (Halt : forall f b,
    exists st', (@Ok bool b, {| users := alter f uid (users st1);
                                violations := violations st1;
                                config := config st1 |})
                = (Ok b, st')
      /\ users st' !! uid = Some (f (status_of uid st))
      /\ frame uid st st' /\ violations st' = violations st
      /\ config st' = config st).
  { intros f b. eexists. split; [reflexivity|]. cbn [users violations config].
    split; [apply lookup_alter_user, Hu|]. split; [|split; assumption].
    intros uid' Hne. cbn [users]. rewrite lookup_alter_ne by congruence.
    apply Hf, Hne. }
  destruct a; unfold punish, punish_ok.
  - exists st1. auto.
  - destruct (Datetime.add_seconds (now clk) d) as [t|] eqn:Ht.
    + destruct (Halt (set_mute_until (Some t) ∘ set_muted true) true)
        as (st' & He & Hrest).
      exists st'. split; [|exact Hrest].
      rewrite bool_decide_eq_true_2 by eauto. rewrite <- He.
      unfold bind, update_user, set_users, ret. cbn [users violations config].
      rewrite alter_alter_eq. reflexivity.
    + destruct (Halt (set_muted true) false) as (st' & He & Hrest).
      exists st'. split; [|exact Hrest].
      rewrite bool_decide_eq_false_2 by (intros [x Hx]; discriminate).
      rewrite <- He. reflexivity.
  - exists st1. auto.
  - destruct (Datetime.add_seconds (now clk) d) as [t|] eqn:Ht.
    + destruct (Halt (set_ban_until (Some t) ∘ set_banned true) true)
        as (st' & He & Hrest).
      exists st'. split; [|exact Hrest].
      rewrite bool_decide_eq_true_2 by eauto. rewrite <- He.
      unfold bind, update_user, set_users, ret. cbn [users violations config].
      rewrite alter_alter_eq. reflexivity.
    + destruct (Halt (set_banned true) false) as (st' & He & Hrest).
      exists st'. split; [|exact Hrest].
      rewrite bool_decide_eq_false_2 by (intros [x Hx]; discriminate).
      rewrite <- He. reflexivity.
  - exists st1. auto.
Qed.

(** What [check_escalation] does to the status of the user, given the
    configuration and the log it reads. *)
Definition escalate (cfg : Config) (log : list UserViolation) (uid : string)
    (clk : Clock) (u : UserStatus) : UserStatus :=
  if recent_with_action uid clk WARN log >=? warn_to_mute_threshold cfg
  then punish MUTE 300 clk u
  else if recent_with_action uid clk MUTE log >=? mute_to_kick_threshold cfg
  then punish KICK 300 clk u
  else if recent_with_action uid clk KICK log >=? kick_to_ban_threshold cfg
  then punish BAN 3600 clk u
  else u.

Lemma status_of_present uid st u : users st !! uid = Some u -> status_of uid st = u.
Proof. unfold status_of. intros ->. reflexivity. Qed.

Lemma check_escalation_effect uid clk st :
  exists st',
    check_escalation uid clk st = (Ok tt, st')
    /\ users st' !! uid
       = Some (escalate (config st) (violations st) uid clk (status_of uid st))
    /\ frame uid st st'
    /\ violations st' = violations st
    /\ config st' = config st.
Proof.
  destruct (get_user_status_effect uid st) as (st1 & Hg & Hu & Hf & Hv & Hc).
  unfold check_escalation. rewrite (bind_Ok _ _ _ _ _ Hg).
  unfold get at 1. unfold bind at 1. rewrite Hv, Hc. unfold escalate.
  assert (Hact : forall a d,
    exists st', (_ <- apply_moderation_action uid a d clk ;; ret tt) st1 = (Ok tt, st')
      /\ users st' !! uid = Some (punish a d clk (status_of uid st))
      /\ frame uid st st' /\ violations st' = violations st
      /\ config st' = config st).
  { intros a d.
    destruct (apply_moderation_action_effect uid a d clk st1)
      as (st2 & Ha & Hu2 & Hf2 & Hv2 & Hc2).
    exists st2. rewrite (bind_Ok _ _ _ _ _ Ha).
    split; [reflexivity|].
    rewrite (status_of_present _ _ _ Hu) in Hu2.
    split; [exact Hu2|]. split; [eapply frame_trans; eassumption|].
    split; congruence. }
  destruct (recent_with_action uid clk WARN (violations st)
              >=? warn_to_mute_threshold (config st)); [apply Hact|].
  destruct (recent_with_action uid clk MUTE (violations st)
              >=? mute_to_kick_threshold (config st)); [apply Hact|].
  destruct (recent_with_action uid clk KICK (violations st)
              >=? kick_to_ban_threshold (config st)); [apply Hact|].
  exists st1. auto.
Qed.

(** The entry [record_violation] appends. *)
Definition log_entry (uid : string) (vt : ViolationType) (message : string)
    (a : ModerationAction) (clk : Clock) : UserViolation :=
  {| v_user_id := uid; violation_type := vt; v_message := message;
     timestamp := now clk; action_taken := a; moderator := None |}.

(** What [record_violation] does to the status of the user; [log] is the
    log with the new entry. *)
Definition after_record (cfg : Config) (log : list UserViolation) (uid : string)
    (clk : Clock) (u : UserStatus) : UserStatus :=
  if escalation_enabled cfg
  then escalate cfg log uid clk (incr_violation_count u)
  else incr_violation_count u.

(** What a block that fires does to the status of the user. *)
Definition after_block (cfg : Config) (log : list UserViolation) (uid : string)
    (a : ModerationAction) (d : Z) (clk : Clock) (u : UserStatus) : UserStatus :=
  after_record cfg log uid clk (punish a d clk u).

Lemma record_violation_effect uid vt message a clk st :
  exists st',
    record_violation uid vt message a clk st = (Ok tt, st')
    /\ users st' !! uid
       = Some (after_record (config st)
                 (violations st ++ [log_entry uid vt message a clk])%list
                 uid clk (status_of uid st))
    /\ frame uid st st'
    /\ violations st' = (violations st ++ [log_entry uid vt message a clk])%list
    /\ config st' = config st.
Proof.
  unfold record_violation. fold (log_entry uid vt message a clk).
  set (e := log_entry uid vt message a clk).
  set (st0 := {| users := users st; violations := (violations st ++ [e])%list;
                 config := config st |}).
  rewrite (bind_Ok _ _ st tt st0) by reflexivity.
  destruct (get_user_status_effect uid st0) as (st1 & Hg & Hu1 & Hf1 & Hv1 & Hc1).
  rewrite (bind_Ok _ _ _ _ _ Hg).
  change (status_of uid st0) with (status_of uid st) in *.
  set (st2 := {| users := alter incr_violation_count uid (users st1);
                 violations := violations st1; config := config st1 |}).
  rewrite (bind_Ok _ _ st1 tt st2) by reflexivity.
  assert (Hu2 : users st2 !! uid = Some (incr_violation_count (status_of uid st)))
    by (apply lookup_alter_user, Hu1).
  assert (Hf2 : frame uid st st2).
  { intros uid' Hne. unfold st2. cbn [users].
    rewrite lookup_alter_ne by congruence. apply (Hf1 uid' Hne). }
  assert (Hv2 : violations st2 = (violations st ++ [e])%list) by exact Hv1.
  assert (Hc2 : config st2 = config st) by exact Hc1.
  unfold the_config at 1. unfold bind at 1. rewrite Hc2. unfold after_record.
  destruct (escalation_enabled (config st)); simpl when.
  - destruct (check_escalation_effect uid clk st2) as (st3 & He & Hu3 & Hf3 & Hv3 & Hc3).
    exists st3. split; [exact He|].
    rewrite (status_of_present _ _ _ Hu2), Hc2, Hv2 in Hu3.
    split; [exact Hu3|]. split; [eapply frame_trans; eassumption|].
    split; congruence.
  - exists st2. auto.
Qed.

Lemma on_violation_effect uid message vt a d clk acc st :
  exists st',
    on_violation true uid message vt a d clk acc st = (Ok (push true vt a acc), st')
    /\ users st' !! uid
       = Some (after_block (config st)
                 (violations st ++ [log_entry uid vt message a clk])%list
                 uid a d clk (status_of uid st))
    /\ frame uid st st'
    /\ violations st' = (violations st ++ [log_entry uid vt message a clk])%list
    /\ config st' = config st.
Proof.
  unfold on_violation.
  destruct (apply_moderation_action_effect uid a d clk st)
    as (st1 & Ha & Hu1 & Hf1 & Hv1 & Hc1).
  rewrite (bind_Ok _ _ _ _ _ Ha).
  destruct (record_violation_effect uid vt message a clk st1)
    as (st2 & Hr & Hu2 & Hf2 & Hv2 & Hc2).
  rewrite (bind_Ok _ _ _ _ _ Hr).
  exists st2. split; [reflexivity|].
  rewrite (status_of_present _ _ _ Hu1), Hc1, Hv1 in Hu2.
  split; [exact Hu2|]. split; [eapply frame_trans; eassumption|].
  split; congruence.
Qed.

(** A block of the pass: what it leaves, whether it fired or not. *)
Lemma block_effect hit uid message vt a d clk acc st u st' u' :
  block hit uid message vt a d clk acc st u st' u' ->
  config st' = config st
  /\ frame uid st st'
  /\ violations st'
     = (violations st ++ if hit then [log_entry uid vt message a clk] else [])%list
  /\ u' = if hit
          then after_block (config st)
                 (violations st ++ [log_entry uid vt message a clk])%list
                 uid a d clk u
          else u.
Proof.
  intros (Hrun & Hu & Hu' & _ & _). destruct hit.
  - destruct (on_violation_effect uid message vt a d clk acc st)
      as (st2 & Hrun2 & Hu2 & Hf & Hv & Hc).
    rewrite Hrun in Hrun2. injection Hrun2 as <-.
    rewrite (status_of_present _ _ _ Hu) in Hu2.
    split; [exact Hc|]. split; [exact Hf|]. split; [exact Hv|]. congruence.
  - unfold on_violation, ret in Hrun. injection Hrun as <-.
    split; [reflexivity|]. split; [apply frame_refl|].
    split; [symmetry; apply app_nil_r | congruence].
Qed.

(** [n] violations were counted from [u] to [u'], and nothing else of
    the bookkeeping moved. *)
Definition counted (n : Z) (u u' : UserStatus) : Prop :=
  violation_count u' = violation_count u + n
  /\ recent_messages u' = recent_messages u
  /\ last_message_time u' = last_message_time u
  /\ user_id u' = user_id u.

Lemma counted_trans n m u1 u2 u3 :
  counted n u1 u2 -> counted m u2 u3 -> counted (n + m) u1 u3.
Proof.
  intros (H1 & H2 & H3 & H4) (K1 & K2 & K3 & K4).
  repeat split; try congruence. lia.
Qed.

Lemma punish_counted a d clk u : counted 0 u (punish a d clk u).
Proof.
  unfold counted, punish.
  destruct a; try destruct (Datetime.add_seconds (now clk) d); simpl;
    repeat split; lia.
Qed.

Lemma escalate_counted cfg log uid clk u : counted 0 u (escalate cfg log uid clk u).
Proof.
  unfold escalate.
  repeat match goal with
         | |- context [if ?c then _ else _] => destruct c
         end; try apply punish_counted.
  repeat split; lia.
Qed.

Lemma after_block_counted cfg log uid a d clk u :
  counted 1 u (after_block cfg log uid a d clk u).
Proof.
  unfold after_block, after_record.
  apply (counted_trans 0 1 _ _ _ (punish_counted a d clk u)).
  destruct (escalation_enabled cfg).
  - apply (counted_trans 1 0 _ (incr_violation_count (punish a d clk u))).
    + repeat split.
    + apply escalate_counted.
  - repeat split.
Qed.

Lemma block_counted hit uid message vt a d clk acc st u st' u' :
  block hit uid message vt a d clk acc st u st' u' ->
  counted (if hit then 1 else 0) u u'.
Proof.
  intros B. destruct (block_effect _ _ _ _ _ _ _ _ _ _ _ _ B) as (_ & _ & _ & ->).
  destruct hit; [apply after_block_counted | repeat split; lia].
Qed.

(** The verdicts of the four detectors, from the state before the pass. *)
Definition spam_hit (cfg : Config) (u : UserStatus) (message : string) : bool :=
  (len (recent_messages u) >? 0)
  && (spam_detection_enabled cfg && spam_verdict (recent_messages u) message).

Definition rate_hit (cfg : Config) (u : UserStatus) (clk : Clock) : bool :=
  (len (recent_messages u) >=? 3) && rate_verdict cfg u clk.

Definition caps_hit (cfg : Config) (message : string) : bool :=
  caps_abuse_enabled cfg
  && negb (str_len message <? min_message_length cfg)
  && percent_exceeds (caps_count message) (str_len message) (max_caps_percentage cfg).

Lemma check_caps_abuse_Ok message st b st' :
  check_caps_abuse message st = (Ok b, st') -> b = caps_hit (config st) message.
Proof.
  unfold check_caps_abuse, caps_hit, bind, the_config, ret, raise.
  destruct (caps_abuse_enabled (config st)); cbn [negb andb]; [|congruence].
  destruct (str_len message <? min_message_length (config st)); cbn [negb andb];
    [congruence|].
  destruct (str_len message =? 0); [discriminate|].
  unfold percent_exceeds, caps_percentage. congruence.
Qed.

(** The violations a pass detects, in the order of its blocks. *)
Definition detected (cfg : Config) (u : UserStatus) (message : string)
    (clk : Clock) : list ViolationType :=
  ((if profanity_verdict cfg message then [PROFANITY] else [])
   ++ (if spam_hit cfg u message then [SPAM] else [])
   ++ (if rate_hit cfg u clk then [RATE_LIMIT] else [])
   ++ (if caps_hit cfg message then [CAPS_ABUSE] else []))%list.

Lemma rate_verdict_ext cfg u u' clk :
  recent_messages u' = recent_messages u ->
  last_message_time u' = last_message_time u ->
  rate_verdict cfg u' clk = rate_verdict cfg u clk.
Proof. unfold rate_verdict. intros -> ->. reflexivity. Qed.

Lemma detection_pass_effect uid message clk st0 u0 d st' :
  users st0 !! uid = Some u0 ->
  detection_pass uid message clk st0 = (Ok d, st') ->
  exists u',
    d = Moderated (verdict (detected (config st0) u0 message clk))
          (detected (config st0) u0 message clk)
          (map rule_action (detected (config st0) u0 message clk)) u'
    /\ users st' !! uid = Some u'
    /\ frame uid st0 st'
    /\ config st' = config st0
    /\ violations st'
       = (violations st0
          ++ map (fun vt => log_entry uid vt message (rule_action vt) clk)
               (detected (config st0) u0 message clk))%list
    /\ violation_count u'
       = violation_count u0 + len (detected (config st0) u0 message clk)
    /\ recent_messages u' = recent_messages (track_message (time clk) message u0)
    /\ last_message_time u' = time clk
    /\ user_id u' = user_id u0.
Proof.
  intros Hu0 Hrun.
  destruct (detection_pass_run uid message clk st0 u0 Hu0)
    as (st1 & u1 & st2 & u2 & st3 & u3 & B1 & B2 & B3 & Hend).
  destruct Hend as [[_ Hraise]|(h4 & st4 & u4 & C4 & B4 & Hok)].
  { rewrite Hraise in Hrun. discriminate. }
  cbv zeta in Hok. rewrite Hok in Hrun. injection Hrun as <- <-.
  destruct (block_effect _ _ _ _ _ _ _ _ _ _ _ _ B1) as (Hc1 & Hf1 & Hv1 & _).
  destruct (block_effect _ _ _ _ _ _ _ _ _ _ _ _ B2) as (Hc2 & Hf2 & Hv2 & _).
  destruct (block_effect _ _ _ _ _ _ _ _ _ _ _ _ B3) as (Hc3 & Hf3 & Hv3 & _).
  destruct (block_effect _ _ _ _ _ _ _ _ _ _ _ _ B4) as (Hc4 & Hf4 & Hv4 & _).
  pose proof (block_counted _ _ _ _ _ _ _ _ _ _ _ _ B1) as K1.
  pose proof (block_counted _ _ _ _ _ _ _ _ _ _ _ _ B2) as K2.
  pose proof (block_counted _ _ _ _ _ _ _ _ _ _ _ _ B3) as K3.
  pose proof (block_counted _ _ _ _ _ _ _ _ _ _ _ _ B4) as K4.
  pose proof (counted_trans _ _ _ _ _ K1 K2) as K12.
  pose proof (counted_trans _ _ _ _ _ K12 K3) as K123.
  pose proof (counted_trans _ _ _ _ _ K123 K4) as K.
  apply check_caps_abuse_Ok in C4.
  rewrite Hc3, Hc2, Hc1 in C4.
  assert (E2 : (len (recent_messages u1) >? 0)
               && (spam_detection_enabled (config st1)
                   && spam_verdict (recent_messages u1) message)
               = spam_hit (config st0) u0 message).
  { unfold spam_hit. rewrite Hc1. destruct K1 as (_ & -> & _). reflexivity. }
  assert (E3 : (len (recent_messages u2) >=? 3) && rate_verdict (config st2) u2 clk
               = rate_hit (config st0) u0 clk).
  { unfold rate_hit. rewrite Hc2, Hc1. destruct K12 as (_ & HK & HK' & _).
    rewrite (rate_verdict_ext _ _ _ _ HK HK'), HK. reflexivity. }
  revert B1 B2 B3 B4 K1 K2 K3 K4 K12 K123 K Hv1 Hv2 Hv3 Hv4.
  rewrite E2, E3.
  subst h4.
  intros B1 B2 B3 B4 K1 K2 K3 K4 K12 K123 K Hv1 Hv2 Hv3 Hv4.
  exists (track_message (time clk) message u4).
  unfold detected.
  destruct (profanity_verdict (config st0) message),
           (spam_hit (config st0) u0 message),
           (rate_hit (config st0) u0 clk),
           (caps_hit (config st0) message);
    (split; [reflexivity|];
     split; [unfold tracked; cbn [users]; apply lookup_alter_user; apply B4|];
     split; [intros uid' Hne; unfold tracked; cbn [users];
             rewrite lookup_alter_ne by congruence;
             rewrite (Hf4 uid' Hne), (Hf3 uid' Hne), (Hf2 uid' Hne);
             apply (Hf1 uid' Hne)|];
     split; [unfold tracked; cbn [config]; congruence|];
     split; [unfold tracked; cbn [violations];
             rewrite Hv4, Hv3, Hv2, Hv1; cbn [map app];
             rewrite <- ?app_assoc, ?app_nil_r; reflexivity|];
     destruct K as (Kc & Kr & Kl & Ki);
     split; [cbn [track_message violation_count]; rewrite Kc;
             unfold len; cbn; lia|];
     split; [cbn [track_message recent_messages]; rewrite Kr; reflexivity|];
     split; [reflexivity | exact Ki]).
Qed.

(** ** A call of the pipeline, whatever its outcome *)

(** The entry the pass appends for a violation. *)
Definition entry_of (uid message : string) (clk : Clock) (vt : ViolationType)
  : UserViolation :=
  log_entry uid vt message (rule_action vt) clk.

(** The entries the pipeline writes: a warning or a mute, no moderator. *)
Definition automatic (log : list UserViolation) : Prop :=
  Forall (fun v => (action_taken v = WARN \/ action_taken v = MUTE)
                   /\ moderator v = None) log.

Definition ban_kept (u u' : UserStatus) : Prop :=
  is_banned u' = is_banned u /\ ban_until u' = ban_until u.

Lemma automatic_entries uid message clk vs :
  automatic (map (entry_of uid message clk) vs).
Proof.
  apply Forall_forall. intros v Hv. apply list_elem_of_In, in_map_iff in Hv.
  destruct Hv as (vt & <- & _). split; [|reflexivity].
  destruct vt; simpl; auto.
Qed.

Lemma automatic_app l1 l2 : automatic l1 -> automatic l2 -> automatic (l1 ++ l2).
Proof. intros H1 H2. apply Forall_app. split; assumption. Qed.

Lemma automatic_no_kick uid clk log :
  automatic log -> recent_with_action uid clk KICK log = 0.
Proof.
  intros H. unfold recent_with_action, len.
  induction H as [|v log [Hv _] _ IH]; [reflexivity|].
  rewrite filter_cons. case_decide; [|exact IH].
  rewrite filter_cons. rewrite decide_False; [exact IH|].
  destruct Hv as [-> | ->]; discriminate.
Qed.

Lemma punish_ban_kept a d clk u : a <> BAN -> ban_kept u (punish a d clk u).
Proof.
  intros Ha. unfold ban_kept, punish.
  destruct a; try (destruct Ha; reflexivity);
    try destruct (Datetime.add_seconds (now clk) d); split; reflexivity.
Qed.

Lemma escalate_ban_kept cfg log uid clk u :
  recent_with_action uid clk KICK log < kick_to_ban_threshold cfg ->
  ban_kept u (escalate cfg log uid clk u).
Proof.
  intros Hk. unfold escalate.
  destruct (recent_with_action uid clk WARN log >=? warn_to_mute_threshold cfg);
    [apply punish_ban_kept; discriminate|].
  destruct (recent_with_action uid clk MUTE log >=? mute_to_kick_threshold cfg);
    [apply punish_ban_kept; discriminate|].
  replace (recent_with_action uid clk KICK log >=? kick_to_ban_threshold cfg)
    with false by (symmetry; rewrite Z.geb_leb; apply Z.leb_gt; exact Hk).
  split; reflexivity.
Qed.

Lemma after_block_ban_kept cfg log uid a d clk u :
  a <> BAN ->
  recent_with_action uid clk KICK log < kick_to_ban_threshold cfg ->
  ban_kept u (after_block cfg log uid a d clk u).
Proof.
  intros Ha Hk. unfold after_block, after_record.
  destruct (punish_ban_kept a d clk u Ha) as [P1 P2].
  destruct (escalation_enabled cfg).
  - destruct (escalate_ban_kept cfg log uid clk
                (incr_violation_count (punish a d clk u)) Hk) as [E1 E2].
    split; [rewrite E1 | rewrite E2]; assumption.
  - split; assumption.
Qed.

(** From [st], where the user is [u], to [st'], where the user is [u']:
    the violations [vs] were recorded and counted, the configuration and
    the other users are the same, and no ban came out of a log without
    kicks. *)
Definition steps_to (uid message : string) (clk : Clock) (vs : list ViolationType)
    (st : Plugin) (u : UserStatus) (st' : Plugin) (u' : UserStatus) : Prop :=
  users st' !! uid = Some u'
  /\ config st' = config st
  /\ frame uid st st'
  /\ violations st' = (violations st ++ map (entry_of uid message clk) vs)%list
  /\ counted (len vs) u u'
  /\ (automatic (violations st) -> 0 < kick_to_ban_threshold (config st) ->
      ban_kept u u').

Lemma steps_to_trans uid message clk vs1 vs2 st u st1 u1 st2 u2 :
  steps_to uid message clk vs1 st u st1 u1 ->
  steps_to uid message clk vs2 st1 u1 st2 u2 ->
  steps_to uid message clk (vs1 ++ vs2) st u st2 u2.
Proof.
  intros (_ & Hc1 & Hf1 & Hv1 & K1 & Hb1) (Hu2 & Hc2 & Hf2 & Hv2 & K2 & Hb2).
  split; [exact Hu2|]. split; [congruence|].
  split; [eapply frame_trans; eassumption|].
  split; [rewrite Hv2, Hv1, map_app; symmetry; apply app_assoc|].
  split.
  - replace (len (vs1 ++ vs2)) with (len vs1 + len vs2)
      by (unfold len; rewrite length_app; lia).
    eapply counted_trans; eassumption.
  - intros Ha Hk.
    destruct (Hb1 Ha Hk) as [B1 B2].
    destruct Hb2 as [B3 B4].
    + rewrite Hv1. apply automatic_app; [exact Ha | apply automatic_entries].
    + rewrite Hc1. exact Hk.
    + split; congruence.
Qed.

Lemma block_steps hit uid message vt d clk acc st u st' u' :
  block hit uid message vt (rule_action vt) d clk acc st u st' u' ->
  steps_to uid message clk (if hit then [vt] else []) st u st' u'.
Proof.
  intros B.
  destruct (block_effect _ _ _ _ _ _ _ _ _ _ _ _ B) as (Hc & Hf & Hv & Hu').
  pose proof (block_counted _ _ _ _ _ _ _ _ _ _ _ _ B) as K.
  split; [apply B|]. split; [exact Hc|]. split; [exact Hf|].
  destruct hit.
  - split; [exact Hv|]. split; [exact K|].
    intros Ha Hk. subst u'. apply after_block_ban_kept.
    + destruct vt; discriminate.
    + rewrite automatic_no_kick; [exact Hk|].
      apply automatic_app; [exact Ha|].
      apply (automatic_entries uid message clk [vt]).
  - split; [exact Hv|]. split; [exact K|].
    intros _ _. subst u'. split; reflexivity.
Qed.

(** A call of [moderate_message] from [st], where the user is [u] (or is
    not known yet and will start as [u]), to [st'], where the user is
    [u']: as [steps_to], and the message was appended to the history or
    the history was left alone. *)
Definition call_to (uid message : string) (clk : Clock) (vs : list ViolationType)
    (st : Plugin) (u : UserStatus) (st' : Plugin) (u' : UserStatus) : Prop :=
  users st' !! uid = Some u'
  /\ config st' = config st
  /\ frame uid st st'
  /\ violations st' = (violations st ++ map (entry_of uid message clk) vs)%list
  /\ violation_count u' = violation_count u + len vs
  /\ user_id u' = user_id u
  /\ (automatic (violations st) -> 0 < kick_to_ban_threshold (config st) ->
      ban_kept u u')
  /\ ((recent_messages u' = recent_messages u
       /\ last_message_time u' = last_message_time u)
      \/ (recent_messages u' = recent_messages (track_message (time clk) message u)
          /\ last_message_time u' = time clk)).

Lemma steps_to_call uid message clk vs st u st' u' :
  steps_to uid message clk vs st u st' u' ->
  call_to uid message clk vs st u st' u'.
Proof.
  intros (Hu & Hc & Hf & Hv & (K1 & K2 & K3 & K4) & Hb).
  repeat (split; [assumption|]). left. split; assumption.
Qed.

Lemma steps_to_tracked uid message clk vs st u st' u' :
  steps_to uid message clk vs st u st' u' ->
  call_to uid message clk vs st u (tracked uid message clk st')
    (track_message (time clk) message u').
Proof.
  intros (Hu & Hc & Hf & Hv & (K1 & K2 & K3 & K4) & Hb).
  split; [unfold tracked; cbn [users]; apply lookup_alter_user, Hu|].
  split; [exact Hc|].
  split; [intros uid' Hne; unfold tracked; cbn [users];
          rewrite lookup_alter_ne by congruence; apply Hf, Hne|].
  split; [exact Hv|]. split; [exact K1|]. split; [exact K4|].
  split; [intros Ha Hk; destruct (Hb Ha Hk); split; assumption|].
  right. split; [|reflexivity].
  cbn [track_message recent_messages]. rewrite K2. reflexivity.
Qed.

Lemma detection_pass_any uid message clk st0 u0 :
  users st0 !! uid = Some u0 ->
  exists vs u',
    call_to uid message clk vs st0 u0 (snd (detection_pass uid message clk st0)) u'.
Proof.
  intros Hu0.
  destruct (detection_pass_run uid message clk st0 u0 Hu0)
    as (st1 & u1 & st2 & u2 & st3 & u3 & B1 & B2 & B3 & Hend).
  pose proof (block_steps _ _ _ PROFANITY _ _ _ _ _ _ _ B1) as S1.
  pose proof (block_steps _ _ _ SPAM _ _ _ _ _ _ _ B2) as S2.
  pose proof (block_steps _ _ _ RATE_LIMIT _ _ _ _ _ _ _ B3) as S3.
  pose proof (steps_to_trans _ _ _ _ _ _ _ _ _ _ _ S1 S2) as S12.
  pose proof (steps_to_trans _ _ _ _ _ _ _ _ _ _ _ S12 S3) as S123.
  destruct Hend as [[_ ->]|(h4 & st4 & u4 & _ & B4 & Hok)].
  - eexists _, u3. apply steps_to_call. exact S123.
  - pose proof (block_steps _ _ _ CAPS_ABUSE _ _ _ _ _ _ _ B4) as S4.
    pose proof (steps_to_trans _ _ _ _ _ _ _ _ _ _ _ S123 S4) as S.
    cbv zeta in Hok. rewrite Hok. cbn [snd].
    eexists _, _. apply steps_to_tracked. exact S.
Qed.

Lemma moderate_message_any uid message clk st :
  exists vs u',
    call_to uid message clk vs st (status_of uid st)
      (snd (moderate_message uid message clk st)) u'.
Proof.
  destruct (get_user_status_effect uid st) as (st0 & Hg & Hu0 & Hf0 & Hv0 & Hc0).
  unfold moderate_message. rewrite (bind_Ok _ _ _ _ _ Hg).
  assert (Hrej : exists vs u',
            call_to uid message clk vs st (status_of uid st) st0 u').
  { exists [], (status_of uid st).
    split; [exact Hu0|]. split; [exact Hc0|]. split; [exact Hf0|].
    split; [rewrite Hv0; symmetry; apply app_nil_r|].
    split; [unfold len; simpl; lia|]. split; [reflexivity|].
    split; [intros _ _; split; reflexivity|]. left. split; reflexivity. }
  destruct (active_ban (status_of uid st) clk); [exact Hrej|].
  destruct (active_mute (status_of uid st) clk); [exact Hrej|].
  destruct (detection_pass_any uid message clk st0 _ Hu0)
    as (vs & u' & Hu' & Hc & Hf & Hv & Hn & Hi & Hb & Hh).
  exists vs, u'.
  split; [exact Hu'|]. split; [congruence|].
  split; [eapply frame_trans; eassumption|].
  split; [congruence|]. split; [exact Hn|]. split; [exact Hi|].
  split; [rewrite <- Hv0, <- Hc0; exact Hb | exact Hh].
Qed.

Lemma run_op_moderate uid message roles clk st :
  run_op (OpModerate uid message roles clk) st = st
  \/ run_op (OpModerate uid message roles clk) st
     = snd (moderate_message uid message clk st).
Proof.
  cbn [run_op].
  destruct (API_moderate_message_cases uid message roles clk st)
    as [[key ->]|[->| ->]]; auto.
Qed.

(** ** What holds in every state the API can reach *)

(** The number of log entries of a user. *)
Definition entries (uid : string) (log : list UserViolation) : Z :=
  len (filter (fun v => v_user_id v = uid) log).

Definition user_ok (log : list UserViolation) (uid : string) (u : UserStatus) : Prop :=
  user_id u = uid
  /\ len (recent_messages u) <= 10
  /\ violation_count u = entries uid log.

Definition sound (cfg : Config) (st : Plugin) : Prop :=
  config st = cfg
  /\ automatic (violations st)
  /\ forall uid,
       match users st !! uid with
       | Some u => user_ok (violations st) uid u
       | None => entries uid (violations st) = 0
       end.

Lemma entries_app uid l1 l2 : entries uid (l1 ++ l2) = entries uid l1 + entries uid l2.
Proof. unfold entries, len. rewrite filter_app, length_app. lia. Qed.

Lemma entries_own uid l :
  Forall (fun v => v_user_id v = uid) l -> entries uid l = len l.
Proof.
  intros H. unfold entries, len. induction H as [|v l Hv _ IH]; [reflexivity|].
  rewrite filter_cons, decide_True by exact Hv. simpl length. lia.
Qed.

Lemma entries_other uid uid' l :
  uid' <> uid -> Forall (fun v => v_user_id v = uid) l -> entries uid' l = 0.
Proof.
  intros Hne H. unfold entries, len. induction H as [|v l Hv _ IH]; [reflexivity|].
  rewrite filter_cons, decide_False by congruence. exact IH.
Qed.

Lemma status_of_ok cfg st uid : sound cfg st -> user_ok (violations st) uid (status_of uid st).
Proof.
  intros (_ & _ & H). specialize (H uid). unfold status_of.
  destruct (users st !! uid) as [u|]; simpl; [exact H|].
  split; [reflexivity|]. split; [unfold len; simpl; lia|]. simpl. lia.
Qed.

Lemma sound_update cfg st st' uid u' l :
  sound cfg st ->
  config st' = config st ->
  frame uid st st' ->
  violations st' = (violations st ++ l)%list ->
  automatic l ->
  Forall (fun v => v_user_id v = uid) l ->
  users st' !! uid = Some u' ->
  user_id u' = user_id (status_of uid st) ->
  len (recent_messages u') <= 10 ->
  violation_count u' = violation_count (status_of uid st) + len l ->
  sound cfg st'.
Proof.
  intros Hs Hc Hf Hv Ha Hown Hu' Hid Hlen Hcount.
  pose proof (status_of_ok cfg st uid Hs) as (Oid & _ & Ocount).
  destruct Hs as (Scfg & Sauto & Susers).
  split; [congruence|]. split; [rewrite Hv; apply automatic_app; assumption|].
  intros uid'. destruct (decide (uid' = uid)) as [->|Hne].
  - rewrite Hu'. split; [congruence|]. split; [exact Hlen|].
    rewrite Hv, entries_app, (entries_own uid l Hown). lia.
  - rewrite (Hf uid' Hne), Hv. specialize (Susers uid').
    destruct (users st !! uid') as [u|].
    + destruct Susers as (S1 & S2 & S3). split; [exact S1|]. split; [exact S2|].
      rewrite entries_app, (entries_other uid uid' l Hne Hown). lia.
    + rewrite entries_app, (entries_other uid uid' l Hne Hown). lia.
Qed.

Lemma entries_of_call uid message clk vs :
  Forall (fun v => v_user_id v = uid) (map (entry_of uid message clk) vs).
Proof.
  apply Forall_forall. intros v Hv. apply list_elem_of_In, in_map_iff in Hv.
  destruct Hv as (vt & <- & _). reflexivity.
Qed.

Lemma track_message_bound t message u :
  len (recent_messages u) <= 10 ->
  len (recent_messages (track_message t message u)) <= 10.
Proof.
  unfold track_message. cbn [recent_messages]. intros H.
  destruct (len (recent_messages u ++ [message]) >? 10) eqn:E.
  - destruct (recent_messages u) as [|m ms]; [discriminate E|].
    unfold len in *. simpl in *. rewrite length_app. simpl. lia.
  - rewrite Z.gtb_ltb in E. apply Z.ltb_ge in E. exact E.
Qed.

Lemma expire_counted t u : counted 0 u (expire t u).
Proof.
  destruct u as [id m b [x|] [y|] vc lt rm]; unfold counted, expire; simpl;
    repeat match goal with
           | |- context [if ?c then _ else _] => destruct c; simpl
           end;
    repeat split; lia.
Qed.

Lemma run_op_sound cfg o st : sound cfg st -> sound cfg (run_op o st).
Proof.
  intros Hs. pose proof Hs as (Scfg & Sauto & Susers).
  pose proof (fun uid => status_of_ok cfg st uid Hs) as Hok.
  destruct o as [uid message roles clk|uid action duration clk|clk|uid].
  - destruct (run_op_moderate uid message roles clk st) as [-> | ->]; [exact Hs|].
    destruct (moderate_message_any uid message clk st)
      as (vs & u' & Hu' & Hc & Hf & Hv & Hn & Hi & _ & Hh).
    destruct (Hok uid) as (_ & Olen & _).
    apply (sound_update cfg st _ uid u' (map (entry_of uid message clk) vs));
      [exact Hs | exact Hc | exact Hf | exact Hv | apply automatic_entries
      | apply entries_of_call | exact Hu' | exact Hi | | ].
    + destruct Hh as [[-> _]|[-> _]]; [exact Olen|].
      apply track_message_bound, Olen.
    + rewrite Hn. unfold len. rewrite length_map. reflexivity.
  - cbn [run_op]. unfold API.apply_manual_action.
    destruct (ModerationAction_of_value action) as [a|]; [|exact Hs].
    destruct (apply_moderation_action_effect uid a duration clk st)
      as (st' & -> & Hu' & Hf & Hv & Hc).
    cbn [snd].
    destruct (Hok uid) as (_ & Olen & _).
    destruct (punish_counted a duration clk (status_of uid st)) as (K1 & K2 & K3 & K4).
    apply (sound_update cfg st st' uid
             (punish a duration clk (status_of uid st)) []);
      [exact Hs | exact Hc | exact Hf | rewrite Hv; symmetry; apply app_nil_r
      | constructor | constructor | exact Hu' | exact K4
      | rewrite K2; exact Olen | rewrite K1; unfold len; simpl; lia].
  - cbn [run_op]. unfold API.cleanup, cleanup_expired_punishments, set_users.
    cbn [snd]. split; [exact Scfg|]. split; [exact Sauto|].
    intros uid. cbn [users violations]. rewrite lookup_fmap. specialize (Susers uid).
    destruct (users st !! uid) as [u|]; simpl; [|exact Susers].
    destruct (expire_counted (now clk) u) as (K1 & K2 & K3 & K4).
    destruct Susers as (S1 & S2 & S3).
    split; [congruence|]. split; [rewrite K2; exact S2 | lia].
  - cbn [run_op]. unfold API.get_user_status.
    destruct (get_user_status_effect uid st) as (st' & Hg & Hu' & Hf & Hv & Hc).
    rewrite (bind_Ok _ _ _ _ _ Hg). cbn [snd ret].
    destruct (Hok uid) as (_ & Olen & _).
    apply (sound_update cfg st st' uid (status_of uid st) []);
      [exact Hs | exact Hc | exact Hf | rewrite Hv; symmetry; apply app_nil_r
      | constructor | constructor | exact Hu' | reflexivity
      | exact Olen | unfold len; simpl; lia].
Qed.

Lemma reachable_sound cfg st : reachable cfg st -> sound cfg st.
Proof.
  induction 1 as [|st o _ IH].
  - split; [reflexivity|]. split; [constructor|]. intros uid. reflexivity.
  - apply run_op_sound, IH.
Qed.

(** A state reached by four calls of the API, used below. *)
Definition busy_state : Plugin :=
  run_op (OpSweep {| now := 400000000; time := 400 |})
    (run_op (OpModerate "bob" "damn damn" None {| now := 3000000; time := 3 |})
       (run_op (OpManual "bob" "kick" 300 {| now := 2000000; time := 2 |})
          (run_op (OpModerate "bob" "hello there" None {| now := 1000000; time := 1 |})
             (init default_config)))).

Lemma busy_state_reachable : reachable default_config busy_state.
Proof. repeat apply reachable_step. apply reachable_init. Qed.

(** X1. In every state the API can reach, the history of recent messages
    of a user holds at most ten messages. *)
Theorem history_bounded (cfg : Config) (st : Plugin) (uid : string) (u : UserStatus) :
  reachable cfg st ->
  users st !! uid = Some u ->
  len (recent_messages u) <= 10.
Proof.
  intros Hr Hu. destruct (reachable_sound cfg st Hr) as (_ & _ & H).
  specialize (H uid). rewrite Hu in H. apply H.
Qed.

Lemma history_bounded_witness :
  exists u, users busy_state !! "bob" = Some u /\ len (recent_messages u) <= 10.
Proof.
  eexists. split; [vm_compute; reflexivity|].
  apply (history_bounded default_config busy_state "bob" _ busy_state_reachable).
  vm_compute. reflexivity.
Defined.

(** X2. In every state the API can reach, the violation count of a user
    is the number of entries of the log that carry the user's id, and the
    log has no entry for an id that is not tracked. *)
Theorem violation_count_matches_log (cfg : Config) (st : Plugin) (uid : string) :
  reachable cfg st ->
  match users st !! uid with
  | Some u => user_id u = uid /\ violation_count u = entries uid (violations st)
  | None => entries uid (violations st) = 0
  end.
Proof.
  intros Hr. destruct (reachable_sound cfg st Hr) as (_ & _ & H).
  specialize (H uid). destruct (users st !! uid) as [u|]; [|exact H].
  destruct H as (H1 & _ & H3). split; assumption.
Qed.

Lemma violation_count_matches_log_witness :
  exists u, users busy_state !! "bob" = Some u
            /\ violation_count u = entries "bob" (violations busy_state)
            /\ violation_count u = 2.
Proof.
  pose proof (violation_count_matches_log default_config busy_state "bob"
                busy_state_reachable) as H.
  assert (E : exists u, users busy_state !! "bob" = Some u /\ violation_count u = 2)
    by (eexists; split; vm_compute; reflexivity).
  destruct E as (u & Hu & Hc). rewrite Hu in H.
  exists u. split; [exact Hu|]. split; [apply H | exact Hc].
Defined.

(** X3. In every state the API can reach, each entry of the violation log
    was written by the pipeline: its action is a warning or a mute and it
    names no moderator. Manual actions, kicks and bans are never logged. *)
Theorem log_has_only_pipeline_entries (cfg : Config) (st : Plugin) (v : UserViolation) :
  reachable cfg st ->
  v ∈ violations st ->
  (action_taken v = WARN \/ action_taken v = MUTE) /\ moderator v = None.
Proof.
  intros Hr Hv. destruct (reachable_sound cfg st Hr) as (_ & Ha & _).
  unfold automatic in Ha. rewrite Forall_forall in Ha. apply Ha, Hv.
Qed.

Lemma log_has_only_pipeline_entries_witness :
  exists v, v ∈ violations busy_state
            /\ (action_taken v = WARN \/ action_taken v = MUTE)
            /\ moderator v = None.
Proof.
  assert (E : exists v, violations busy_state !! 0%nat = Some v)
    by (eexists; vm_compute; reflexivity).
  destruct E as (v & Hv). exists v.
  assert (Hin : v ∈ violations busy_state)
    by (apply list_elem_of_lookup; eauto).
  split; [exact Hin|].
  exact (log_has_only_pipeline_entries default_config busy_state v
           busy_state_reachable Hin).
Defined.

(** X4. None of the four operations [moderate_message],
    [apply_manual_action], [cleanup] and [get_user_status] of the API
    takes anything away, whether it returns or raises: it leaves the
    configuration as it is, it extends the log at its end, and a
    tracked user stays tracked under the same id with a violation count
    that did not go down. *)
Theorem operations_only_add (o : op) (st : Plugin) :
  config (run_op o st) = config st
  /\ (exists l, violations (run_op o st) = (violations st ++ l)%list)
  /\ forall uid u, users st !! uid = Some u ->
       exists u', users (run_op o st) !! uid = Some u'
                  /\ user_id u' = user_id u
                  /\ violation_count u <= violation_count u'.
Proof.
  assert (Hsame : config st = config st
    /\ (exists l, violations st = (violations st ++ l)%list)
    /\ forall uid u, users st !! uid = Some u ->
         exists u', users st !! uid = Some u' /\ user_id u' = user_id u
                    /\ violation_count u <= violation_count u').
  { split; [reflexivity|]. split; [exists []; symmetry; apply app_nil_r|].
    intros uid u Hu. exists u. split; [exact Hu|]. split; [reflexivity | lia]. }
  assert (Hone : forall uid st' u' (n : Z) l,
    users st' !! uid = Some u' -> config st' = config st -> frame uid st st' ->
    violations st' = (violations st ++ l)%list ->
    user_id u' = user_id (status_of uid st) ->
    violation_count u' = violation_count (status_of uid st) + n -> 0 <= n ->
    config st' = config st
    /\ (exists l, violations st' = (violations st ++ l)%list)
    /\ forall uid0 u, users st !! uid0 = Some u ->
         exists u0, users st' !! uid0 = Some u0 /\ user_id u0 = user_id u
                    /\ violation_count u <= violation_count u0).
  { intros uid st' u' n l Hu' Hc Hf Hv Hi Hn Hpos.
    split; [exact Hc|]. split; [eauto|].
    intros uid0 u Hu. destruct (decide (uid0 = uid)) as [->|Hne].
    - exists u'. rewrite (status_of_present _ _ _ Hu) in Hi, Hn.
      split; [exact Hu'|]. split; [exact Hi | lia].
    - exists u. rewrite (Hf uid0 Hne). split; [exact Hu|]. split; [reflexivity | lia]. }
  destruct o as [uid message roles clk|uid action duration clk|clk|uid].
  - destruct (run_op_moderate uid message roles clk st) as [-> | ->]; [exact Hsame|].
    destruct (moderate_message_any uid message clk st)
      as (vs & u' & Hu' & Hc & Hf & Hv & Hn & Hi & _ & _).
    apply (Hone uid _ u' (len vs) _ Hu' Hc Hf Hv Hi Hn). unfold len. lia.
  - cbn [run_op]. unfold API.apply_manual_action.
    destruct (ModerationAction_of_value action) as [a|]; [|exact Hsame].
    destruct (apply_moderation_action_effect uid a duration clk st)
      as (st' & -> & Hu' & Hf & Hv & Hc).
    destruct (punish_counted a duration clk (status_of uid st)) as (K1 & _ & _ & K4).
    apply (Hone uid st' _ 0 [] Hu' Hc Hf); [|exact K4|exact K1|lia].
    rewrite Hv. symmetry. apply app_nil_r.
  - cbn [run_op]. unfold API.cleanup, cleanup_expired_punishments, set_users.
    cbn [snd config violations users].
    split; [reflexivity|]. split; [exists []; symmetry; apply app_nil_r|].
    intros uid u Hu. exists (expire (now clk) u).
    rewrite lookup_fmap, Hu.
    destruct (expire_counted (now clk) u) as (K1 & _ & _ & K4).
    split; [reflexivity|]. split; [exact K4 | lia].
  - cbn [run_op]. unfold API.get_user_status.
    destruct (get_user_status_effect uid st) as (st' & Hg & Hu' & Hf & Hv & Hc).
    rewrite (bind_Ok _ _ _ _ _ Hg). cbn [snd ret].
    apply (Hone uid st' _ 0 [] Hu' Hc Hf); [|reflexivity|lia|lia].
    rewrite Hv. symmetry. apply app_nil_r.
Qed.

Lemma expire_banned t u : is_banned (expire t u) = true -> is_banned u = true.
Proof.
  intros H. destruct (is_banned u) eqn:E; [reflexivity|].
  rewrite (expire_not_banned t u E) in H. discriminate.
Qed.

(** X5. With a positive [kick_to_ban_threshold], the pipeline never bans:
    after [moderate_message], a sweep or a status read in a reachable
    state, a user is banned only if the user was banned before. The step
    from kicks to a ban cannot fire, since no kick is ever logged. *)
Theorem pipeline_never_bans (cfg : Config) (st : Plugin) (o : op)
    (uid : string) (u' : UserStatus) :
  reachable cfg st ->
  0 < kick_to_ban_threshold cfg ->
  (forall target action duration clk, o <> OpManual target action duration clk) ->
  users (run_op o st) !! uid = Some u' ->
  is_banned u' = true ->
  exists u, users st !! uid = Some u /\ is_banned u = true.
Proof.
  intros Hr Hk Hop Hu' Hb.
  destruct (reachable_sound cfg st Hr) as (Hcfg & Hauto & _).
  destruct o as [caller message roles clk|target action duration clk|clk|caller].
  - destruct (run_op_moderate caller message roles clk st) as [E|E];
      rewrite E in Hu'; [eauto|].
    destruct (moderate_message_any caller message clk st)
      as (vs & u1 & Hu1 & _ & Hf & _ & _ & _ & Hban & _).
    destruct (decide (uid = caller)) as [->|Hne].
    + rewrite Hu1 in Hu'. injection Hu' as <-.
      destruct Hban as [Hb1 _]; [exact Hauto | rewrite Hcfg; exact Hk|].
      rewrite Hb1 in Hb. unfold status_of in Hb.
      destruct (users st !! caller) as [u|]; [eauto | discriminate Hb].
    + rewrite (Hf uid Hne) in Hu'. eauto.
  - destruct (Hop target action duration clk). reflexivity.
  - revert Hu'. cbn [run_op]. unfold API.cleanup, cleanup_expired_punishments, set_users.
    cbn [snd users]. rewrite lookup_fmap.
    destruct (users st !! uid) as [u|]; [|discriminate].
    intros [= <-]. exists u. split; [reflexivity|]. apply (expire_banned _ _ Hb).
  - revert Hu'. cbn [run_op]. unfold API.get_user_status.
    destruct (get_user_status_effect caller st) as (st' & Hg & Hu1 & Hf & _ & _).
    rewrite (bind_Ok _ _ _ _ _ Hg). cbn [snd ret]. intros Hu'.
    destruct (decide (uid = caller)) as [->|Hne].
    + rewrite Hu1 in Hu'. injection Hu' as <-. unfold status_of in Hb.
      destruct (users st !! caller) as [u|]; [eauto | discriminate Hb].
    + rewrite (Hf uid Hne) in Hu'. eauto.
Qed.

Definition banned_state : Plugin :=
  run_op (OpManual "bob" "ban" 3600 {| now := 1000000; time := 1 |})
    (init default_config).

Lemma pipeline_never_bans_witness :
  exists u, users banned_state !! "bob" = Some u /\ is_banned u = true.
Proof.
  assert (E : exists u', users (run_op (OpStatus "bob") banned_state) !! "bob" = Some u'
                         /\ is_banned u' = true)
    by (eexists; split; vm_compute; reflexivity).
  destruct E as (u' & Hu' & Hb).
  apply (pipeline_never_bans default_config banned_state (OpStatus "bob") "bob" u').
  - apply reachable_step, reachable_init.
  - reflexivity.
  - discriminate.
  - exact Hu'.
  - exact Hb.
Defined.

(** ** A detection pass, in full *)

Lemma history_status_of uid st : history uid st = recent_messages (status_of uid st).
Proof. unfold history, status_of. destruct (users st !! uid); reflexivity. Qed.

Lemma moderate_message_pass uid message clk st d st' :
  moderate_message uid message clk st = (Ok d, st') ->
  ran_detection d ->
  exists u',
    d = Moderated (verdict (detected (config st) (status_of uid st) message clk))
          (detected (config st) (status_of uid st) message clk)
          (map rule_action (detected (config st) (status_of uid st) message clk)) u'
    /\ users st' !! uid = Some u'
    /\ frame uid st st'
    /\ config st' = config st
    /\ violations st'
       = (violations st
          ++ map (fun vt => log_entry uid vt message (rule_action vt) clk)
               (detected (config st) (status_of uid st) message clk))%list
    /\ violation_count u'
       = violation_count (status_of uid st)
         + len (detected (config st) (status_of uid st) message clk)
    /\ recent_messages u'
       = recent_messages (track_message (time clk) message (status_of uid st))
    /\ last_message_time u' = time clk
    /\ user_id u' = user_id (status_of uid st).
Proof.
  intros Hrun Hd.
  destruct (moderate_message_inv _ _ _ _ _ _ Hrun Hd) as (st0 & u0 & Hg & Hu0 & _ & Hpass).
  destruct (get_user_status_effect uid st) as (st0' & Hg' & _ & Hf0 & Hv0 & Hc0).
  rewrite Hg in Hg'. injection Hg' as -> <-.
  destruct (detection_pass_effect _ _ _ _ _ _ _ Hu0 Hpass)
    as (u' & Hd' & Hu' & Hf & Hc & Hv & Hn & Hr & Hl & Hi).
  rewrite Hc0 in Hd', Hv, Hn. rewrite Hv0 in Hv.
  exists u'. split; [exact Hd'|]. split; [exact Hu'|].
  split; [eapply frame_trans; eassumption|]. split; [congruence|].
  auto.
Qed.

Lemma elem_of_detected cfg u message clk vt :
  vt ∈ detected cfg u message clk <->
  (vt = PROFANITY /\ profanity_verdict cfg message = true)
  \/ (vt = SPAM /\ spam_hit cfg u message = true)
  \/ (vt = RATE_LIMIT /\ rate_hit cfg u clk = true)
  \/ (vt = CAPS_ABUSE /\ caps_hit cfg message = true).
Proof.
  unfold detected. rewrite !elem_of_app.
  destruct (profanity_verdict cfg message), (spam_hit cfg u message),
           (rate_hit cfg u clk), (caps_hit cfg message);
    rewrite ?list_elem_of_singleton, ?elem_of_nil; intuition congruence.
Qed.

Lemma detected_sublist cfg u message clk :
  sublist (detected cfg u message clk) [PROFANITY; SPAM; RATE_LIMIT; CAPS_ABUSE].
Proof.
  unfold detected.
  destruct (profanity_verdict cfg message), (spam_hit cfg u message),
           (rate_hit cfg u clk), (caps_hit cfg message); simpl;
    repeat (first [apply sublist_nil | apply sublist_skip | apply sublist_cons]).
Qed.

(** X6. Every message that goes through the detection pass is appended to
    the history of the user, allowed or not, and becomes its last entry;
    the oldest entry is dropped when the history held ten messages; the
    time of the call becomes [last_message_time]. *)
Theorem pass_appends_message (uid message : string) (clk : Clock)
    (st st' : Plugin) (d : Decision) :
  moderate_message uid message clk st = (Ok d, st') ->
  ran_detection d ->
  exists u',
    users st' !! uid = Some u'
    /\ recent_messages u'
       = (if len (history uid st ++ [message]) >? 10
          then tail (history uid st ++ [message])
          else (history uid st ++ [message])%list)
    /\ last (recent_messages u') = Some message
    /\ last_message_time u' = time clk.
Proof.
  intros Hrun Hd.
  destruct (moderate_message_pass _ _ _ _ _ _ Hrun Hd)
    as (u' & _ & Hu' & _ & _ & _ & _ & Hr & Hl & _).
  exists u'. split; [exact Hu'|]. rewrite history_status_of.
  split; [exact Hr|]. split; [|exact Hl].
  rewrite Hr. cbn [track_message recent_messages].
  destruct (len (recent_messages (status_of uid st) ++ [message]) >? 10) eqn:E.
  - destruct (recent_messages (status_of uid st)) as [|m ms]; [discriminate E|].
    simpl. apply last_snoc.
  - apply last_snoc.
Qed.

Lemma pass_appends_message_witness :
  exists d st' u',
    moderate_message "user2" "This is a damn test message"
      {| now := 1000000; time := 1 |} (init default_config) = (Ok d, st')
    /\ allowed d = false
    /\ users st' !! "user2" = Some u'
    /\ last (recent_messages u') = Some "This is a damn test message".
Proof.
  assert (E : exists snap st',
             moderate_message "user2" "This is a damn test message"
               {| now := 1000000; time := 1 |} (init default_config)
             = (Ok (Moderated false [PROFANITY] [WARN] snap), st'))
    by (eexists _, _; vm_compute; reflexivity).
  destruct E as (snap & st' & Hrun).
  destruct (pass_appends_message _ _ _ _ _ _ Hrun I) as (u' & Hu' & _ & Hlast & _).
  exists (Moderated false [PROFANITY] [WARN] snap), st', u'. auto.
Defined.

(** X7. A detection pass lists its violations in the order Profanity,
    Spam, Rate-Limit, Caps-Abuse, each at most once; for each of them it
    appends one entry to the log (the user, the kind, the message, the
    action of the rule, the instant of the call) and adds one to the
    violation count of the user; it lists the action of each rule in the
    same order, and it changes neither the configuration nor another
    user. *)
Theorem pass_records_each_violation (uid message : string) (clk : Clock)
    (st st' : Plugin) (d : Decision) :
  moderate_message uid message clk st = (Ok d, st') ->
  ran_detection d ->
  sublist (decision_violations d) [PROFANITY; SPAM; RATE_LIMIT; CAPS_ABUSE]
  /\ decision_actions d = map rule_action (decision_violations d)
  /\ violations st'
     = (violations st
        ++ map (fun vt => log_entry uid vt message (rule_action vt) clk)
             (decision_violations d))%list
  /\ config st' = config st
  /\ (forall other, other <> uid -> users st' !! other = users st !! other)
  /\ exists u',
       users st' !! uid = Some u'
       /\ violation_count u'
          = violation_count (status_of uid st) + len (decision_violations d).
Proof.
  intros Hrun Hd.
  destruct (moderate_message_pass _ _ _ _ _ _ Hrun Hd)
    as (u' & -> & Hu' & Hf & Hc & Hv & Hn & _).
  cbn [decision_violations decision_actions].
  split; [apply detected_sublist|]. split; [reflexivity|].
  split; [exact Hv|]. split; [exact Hc|]. split; [exact Hf|].
  exists u'. split; assumption.
Qed.

Lemma pass_records_each_violation_witness :
  exists d st',
    moderate_message "shouter" "DAMN THIS IS ANNOYING"
      {| now := 1000000; time := 1 |} (init default_config) = (Ok d, st')
    /\ decision_violations d = [PROFANITY; CAPS_ABUSE]
    /\ len (violations st') = 2.
Proof.
  assert (E : exists snap st',
             moderate_message "shouter" "DAMN THIS IS ANNOYING"
               {| now := 1000000; time := 1 |} (init default_config)
             = (Ok (Moderated false [PROFANITY; CAPS_ABUSE] [WARN; WARN] snap), st'))
    by (eexists _, _; vm_compute; reflexivity).
  destruct E as (snap & st' & Hrun).
  destruct (pass_records_each_violation _ _ _ _ _ _ Hrun I) as (_ & _ & Hv & _).
  eexists _, st'. split; [exact Hrun|]. split; [reflexivity|].
  rewrite Hv. reflexivity.
Defined.

(** X8. The first message of a user is never reported as Spam or as
    Rate-Limit, whatever it says: both checks are skipped while the
    history is empty. *)
Theorem first_message_never_spam (uid message : string) (clk : Clock)
    (st st' : Plugin) (d : Decision) :
  history uid st = [] ->
  moderate_message uid message clk st = (Ok d, st') ->
  (SPAM ∉ decision_violations d) /\ (RATE_LIMIT ∉ decision_violations d).
Proof.
  intros Hh Hrun.
  assert (Hd : ran_detection d \/ decision_violations d = [])
    by (destruct d; simpl; auto).
  destruct Hd as [Hd | ->]; [|split; apply not_elem_of_nil].
  destruct (moderate_message_pass _ _ _ _ _ _ Hrun Hd) as (u' & -> & _).
  cbn [decision_violations]. rewrite history_status_of in Hh.
  split; intros Hin; apply elem_of_detected in Hin;
    destruct Hin as [[E _]|[[E H]|[[E H]|[E _]]]]; try discriminate E.
  - unfold spam_hit in H. rewrite Hh in H. discriminate H.
  - unfold rate_hit in H. rewrite Hh in H. discriminate H.
Qed.

Lemma first_message_never_spam_witness :
  exists d st',
    moderate_message "user3" "spam spam spam spam spam"
      {| now := 1000000; time := 1 |} (init default_config) = (Ok d, st')
    /\ (SPAM ∉ decision_violations d).
Proof.
  assert (E : exists d st',
             moderate_message "user3" "spam spam spam spam spam"
               {| now := 1000000; time := 1 |} (init default_config) = (Ok d, st'))
    by (eexists _, _; vm_compute; reflexivity).
  destruct E as (d & st' & Hrun). exists d, st'. split; [exact Hrun|].
  apply (first_message_never_spam "user3" "spam spam spam spam spam"
           {| now := 1000000; time := 1 |} (init default_config) st' d eq_refl Hrun).
Defined.

(** X9. Rate-Limit is reported only when the rule is enabled and the
    history already holds at least three and at least
    [max_messages_per_minute] messages. As the history never holds more
    than ten, a limit above ten is never reported in a reachable state. *)
Theorem rate_limit_needs_history (uid message : string) (clk : Clock)
    (st st' : Plugin) (d : Decision) :
  moderate_message uid message clk st = (Ok d, st') ->
  RATE_LIMIT ∈ decision_violations d ->
  rate_limiting_enabled (config st) = true
  /\ 3 <= len (history uid st)
  /\ max_messages_per_minute (config st) <= len (history uid st)
  /\ forall cfg, reachable cfg st -> max_messages_per_minute cfg <= 10.
Proof.
  intros Hrun Hin.
  assert (Hd : ran_detection d).
  { destruct d; simpl in *; try exact I; apply elem_of_nil in Hin; destruct Hin. }
  destruct (moderate_message_pass _ _ _ _ _ _ Hrun Hd) as (u' & -> & _).
  cbn [decision_violations] in Hin. apply elem_of_detected in Hin.
  destruct Hin as [[E _]|[[E _]|[[_ H]|[E _]]]]; try discriminate E.
  unfold rate_hit, rate_verdict in H. rewrite history_status_of.
  apply andb_true_iff in H as [H3 H]. apply andb_true_iff in H as [Hen H].
  apply andb_true_iff in H as [Hmax _].
  rewrite Z.geb_leb in H3, Hmax. apply Z.leb_le in H3, Hmax.
  split; [exact Hen|]. split; [exact H3|]. split; [exact Hmax|].
  intros cfg Hr. destruct (reachable_sound cfg st Hr) as (Hcfg & _ & Hus).
  rewrite <- Hcfg. specialize (Hus uid). unfold status_of in Hmax |- *.
  destruct (users st !! uid) as [u|]; simpl in Hmax.
  - destruct Hus as (_ & Hlen & _). lia.
  - unfold len in Hmax. simpl in Hmax. lia.
Qed.

Definition say (m : string) (t : Z) (st : Plugin) : Plugin :=
  run_op (OpModerate "carol" m None {| now := t * 1000000; time := float_of_Z t |}) st.

(** Ten messages within ten seconds. *)
Definition chatty_state : Plugin :=
  say "ten" 10 (say "nine" 9 (say "eight" 8 (say "seven" 7 (say "six" 6
    (say "five" 5 (say "four" 4 (say "three" 3 (say "two" 2 (say "one" 1
      (init default_config)))))))))).

Lemma rate_limit_needs_history_witness :
  exists snap st',
    moderate_message "carol" "eleven" {| now := 11000000; time := 11 |} chatty_state
    = (Ok (Moderated true [RATE_LIMIT] [MUTE] snap), st')
    /\ max_messages_per_minute (config chatty_state) <= len (history "carol" chatty_state).
Proof.
  assert (E : exists snap st',
             moderate_message "carol" "eleven" {| now := 11000000; time := 11 |}
               chatty_state
             = (Ok (Moderated true [RATE_LIMIT] [MUTE] snap), st'))
    by (eexists _, _; vm_compute; reflexivity).
  destruct E as (snap & st' & Hrun). exists snap, st'. split; [exact Hrun|].
  assert (Hin : RATE_LIMIT ∈ decision_violations (Moderated true [RATE_LIMIT] [MUTE] snap))
    by (apply list_elem_of_singleton; reflexivity).
  destruct (rate_limit_needs_history _ _ _ _ _ _ Hrun Hin) as (_ & _ & Hmax & _).
  exact Hmax.
Defined.

(** ** The role bypass, when the whitelist is configured *)

(** X10. With the whitelist enabled, a call of the API's
    [moderate_message] is bypassed exactly when one of the caller's roles
    is among the moderator roles; a bypassed call is allowed and leaves
    the plugin untouched, so it is allowed for a banned user too and
    records neither the message nor a violation. Without such a role the
    call is the plugin's [moderate_message]. *)
Theorem bypass_by_role (uid message : string) (roles mods : list string)
    (wl : Whitelist) (clk : Clock) (st : Plugin) :
  whitelist (config st) = Some wl ->
  wl_enabled wl = Some true ->
  moderator_roles wl = Some mods ->
  ((exists role, role ∈ roles /\ role ∈ mods) ->
     API.moderate_message uid message (Some roles) clk st = (Ok Bypassed, st)
     /\ allowed Bypassed = true)
  /\ ((forall role, role ∈ roles -> role ∉ mods) ->
      API.moderate_message uid message (Some roles) clk st
      = moderate_message uid message clk st).
Proof.
  intros Hwl Hen Hmods.
  assert (Hrun : API.moderate_message uid message (Some roles) clk st
                 = if existsb (fun role => bool_decide (role ∈ mods)) roles
                   then (Ok Bypassed, st)
                   else moderate_message uid message clk st).
  { unfold API.moderate_message, API._has_bypass_permission, bind, the_config, ret.
    destruct roles as [|role roles]; [reflexivity|].
    rewrite Hwl, Hen, Hmods. cbn [negb].
    destruct (existsb (fun role0 => bool_decide (role0 ∈ mods)) (role :: roles));
      reflexivity. }
  split.
  - intros (role & Hr & Hm). split; [|reflexivity]. rewrite Hrun.
    replace (existsb (fun role0 => bool_decide (role0 ∈ mods)) roles) with true;
      [reflexivity|].
    symmetry. apply existsb_exists. exists role.
    split; [apply list_elem_of_In, Hr | apply bool_decide_eq_true, Hm].
  - intros Hnone. rewrite Hrun.
    destruct (existsb (fun role => bool_decide (role ∈ mods)) roles) eqn:E;
      [|reflexivity].
    apply existsb_exists in E as (role & Hr & Hm).
    apply bool_decide_eq_true in Hm.
    destruct (Hnone role (proj2 (list_elem_of_In _ _) Hr) Hm).
Qed.

(** The configuration of the demonstration script. *)
Definition demo_config : Config :=
  {| profanity_filter_enabled := true;
     spam_detection_enabled := true;
     rate_limiting_enabled := true;
     max_messages_per_minute := 10;
     caps_abuse_enabled := true;
     max_caps_percentage := 70;
     min_message_length := 10;
     escalation_enabled := true;
     warn_to_mute_threshold := 3;
     mute_to_kick_threshold := 2;
     kick_to_ban_threshold := 2;
     whitelist := Some {| wl_enabled := Some true;
                          moderator_roles := Some ["admin"; "moderator"] |} |}.

Definition banned_admin : Plugin :=
  run_op (OpManual "admin_user" "ban" 3600 {| now := 1000000; time := 1 |})
    (init demo_config).

Lemma bypass_by_role_witness :
  API.moderate_message "admin_user" "This damn message is allowed"
    (Some ["member"; "admin"]) {| now := 2000000; time := 2 |} banned_admin
  = (Ok Bypassed, banned_admin)
  /\ exists t st',
       API.moderate_message "admin_user" "This damn message is allowed"
         (Some ["member"]) {| now := 2000000; time := 2 |} banned_admin
       = (Ok (RejectedBanned t), st').
Proof.
  destruct (bypass_by_role "admin_user" "This damn message is allowed"
              ["member"; "admin"] ["admin"; "moderator"]
              {| wl_enabled := Some true;
                 moderator_roles := Some ["admin"; "moderator"] |}
              {| now := 2000000; time := 2 |} banned_admin
              eq_refl eq_refl eq_refl) as [Hyes _].
  split.
  - apply Hyes. exists "admin".
    split; [apply elem_of_cons; right|]; apply elem_of_cons; left; reflexivity.
  - destruct (bypass_by_role "admin_user" "This damn message is allowed"
                ["member"] ["admin"; "moderator"]
                {| wl_enabled := Some true;
                   moderator_roles := Some ["admin"; "moderator"] |}
                {| now := 2000000; time := 2 |} banned_admin
                eq_refl eq_refl eq_refl) as [_ Hno].
    rewrite Hno.
    + eexists _, _. vm_compute. reflexivity.
    + intros role Hr Hm. apply list_elem_of_singleton in Hr. subst role.
      revert Hm. rewrite !elem_of_cons, elem_of_nil. intuition discriminate.
Defined.

(** ** Manual actions *)

(** X11. A manual action with a valid action string changes, at most, the
    punishment fields of its target: a mute sets the mute flag and
    expiry and leaves the ban alone, a ban the reverse, and a warning, a
    kick or [delete_message] leaves the status as it is. Nothing is
    logged and no violation is counted, so manual actions do not feed
    escalation; the configuration and the other users are untouched. *)
Theorem manual_action_effect (uid : string) (a : ModerationAction) (duration : Z)
    (clk : Clock) (st : Plugin) :
  exists st' u',
    API.apply_manual_action uid (action_value a) duration clk st
    = (Ok (punish_ok a duration clk), st')
    /\ users st' !! uid = Some u'
    /\ violations st' = violations st
    /\ config st' = config st
    /\ (forall other, other <> uid -> users st' !! other = users st !! other)
    /\ violation_count u' = violation_count (status_of uid st)
    /\ recent_messages u' = recent_messages (status_of uid st)
    /\ (a <> BAN -> is_banned u' = is_banned (status_of uid st)
                    /\ ban_until u' = ban_until (status_of uid st))
    /\ (a <> MUTE -> is_muted u' = is_muted (status_of uid st)
                     /\ mute_until u' = mute_until (status_of uid st))
    /\ (a = MUTE -> is_muted u' = true
                    /\ forall t, Datetime.add_seconds (now clk) duration = Some t ->
                                 mute_until u' = Some t)
    /\ (a = BAN -> is_banned u' = true
                   /\ forall t, Datetime.add_seconds (now clk) duration = Some t ->
                                ban_until u' = Some t).
Proof.
  unfold API.apply_manual_action. rewrite ModerationAction_of_value_action_value.
  destruct (apply_moderation_action_effect uid a duration clk st)
    as (st' & Hrun & Hu' & Hf & Hv & Hc).
  exists st', (punish a duration clk (status_of uid st)).
  split; [exact Hrun|]. split; [exact Hu'|]. split; [exact Hv|].
  split; [exact Hc|]. split; [exact Hf|].
  destruct (punish_counted a duration clk (status_of uid st)) as (K1 & K2 & _ & _).
  split; [lia|]. split; [exact K2|].
  unfold punish.
  destruct a; (split; [intros Hne|split; [intros Hne|split; intros Heq]]);
    try discriminate Heq; try (destruct Hne; reflexivity);
    try destruct (Datetime.add_seconds (now clk) duration) as [t0|];
    simpl; (split; [reflexivity|]) || idtac;
    try reflexivity; try (intros t [= <-]; reflexivity); try discriminate.
Qed.

(** X12. A manual mute whose duration cannot be added to the clock
    ([timedelta] or the sum overflows) is reported as failed, yet it
    leaves the mute flag set, without an expiry. For a user who had no
    mute expiry before, the flag then has no effect and never goes away:
    every later non-empty message of the user (the user not being
    banned) still goes through the detection pass, and no sweep, at
    whatever time, clears the flag. *)
Theorem mute_overflow_is_inert (uid : string) (duration : Z) (clk : Clock)
    (st : Plugin) :
  Datetime.add_seconds (now clk) duration = None ->
  mute_until (status_of uid st) = None ->
  is_banned (status_of uid st) = false ->
  exists st' u',
    API.apply_manual_action uid "mute" duration clk st = (Ok false, st')
    /\ users st' !! uid = Some u'
    /\ is_muted u' = true
    /\ mute_until u' = None
    /\ (forall message clk', message <> "" ->
          exists d st'', moderate_message uid message clk' st' = (Ok d, st'')
                         /\ ran_detection d)
    /\ (forall clk', users (snd (API.cleanup clk' st')) !! uid = Some u').
Proof.
  intros Hov Hmu Hb.
  destruct (apply_moderation_action_effect uid MUTE duration clk st)
    as (st' & Hrun & Hu' & _).
  revert Hrun Hu'. unfold punish_ok, punish. rewrite Hov.
  rewrite bool_decide_eq_false_2 by (intros [t Ht]; discriminate Ht).
  intros Hrun Hu'.
  exists st', (set_muted true (status_of uid st)).
  split; [exact Hrun|]. split; [exact Hu'|]. split; [reflexivity|].
  split; [exact Hmu|]. split.
  - intros message clk' Hne. apply moderate_message_returns; [|exact Hne].
    intros u Hu. rewrite Hu' in Hu. injection Hu as <-.
    unfold active_ban, active_mute. cbn [set_muted ban_until is_banned mute_until].
    rewrite Hmu, Hb. destruct (ban_until (status_of uid st)); split; reflexivity.
  - intros clk'. unfold API.cleanup. rewrite cleanup_lookup, Hu'. cbn [fmap option_fmap option_map].
    f_equal. revert Hmu Hb. generalize (status_of uid st).
    intros [id m b [x|] [y|] vc lt rm]; simpl; intros Hmu Hb;
      try discriminate Hmu; subst b; reflexivity.
Qed.

Lemma mute_overflow_is_inert_witness :
  exists st' u',
    API.apply_manual_action "user4" "mute" 100000000000000
      {| now := 63000000000000000; time := 1 |} (init default_config) = (Ok false, st')
    /\ users st' !! "user4" = Some u'
    /\ is_muted u' = true
    /\ mute_until u' = None
    /\ exists d st'',
         moderate_message "user4" "Hello everyone!"
           {| now := 63000000001000000; time := 2 |} st' = (Ok d, st'')
         /\ ran_detection d.
Proof.
  destruct (mute_overflow_is_inert "user4" 100000000000000
              {| now := 63000000000000000; time := 1 |} (init default_config))
    as (st' & u' & Hrun & Hu' & Hm & Hmu & Hpass & _);
    [reflexivity | reflexivity | reflexivity |].
  exists st', u'. split; [exact Hrun|]. split; [exact Hu'|].
  split; [exact Hm|]. split; [exact Hmu|].
  apply Hpass. discriminate.
Defined.

(** ** The sweep *)

(** X13. The sweep lifts exactly the punishments that [moderate_message]
    no longer enforces at the same instant. It always returns; it keeps
    the set of users, the log and the configuration, and of a user the
    violation count and the message history. A mute (a ban alike) that
    would still reject a message is kept with its expiry; a mute flag
    with an expiry that has passed is cleared together with the expiry;
    anything else is left as it is. *)
Theorem sweep_lifts_expired (clk : Clock) (st : Plugin) (uid : string) (u : UserStatus) :
  users st !! uid = Some u ->
  exists st' u',
    API.cleanup clk st = (Ok tt, st')
    /\ users st' !! uid = Some u'
    /\ violations st' = violations st
    /\ config st' = config st
    /\ (forall other, is_Some (users st' !! other) <-> is_Some (users st !! other))
    /\ violation_count u' = violation_count u
    /\ recent_messages u' = recent_messages u
    /\ last_message_time u' = last_message_time u
    /\ active_mute u' clk = active_mute u clk
    /\ active_ban u' clk = active_ban u clk
    /\ (forall t, active_mute u clk = Some t ->
                  is_muted u' = true /\ mute_until u' = Some t)
    /\ (forall t, active_ban u clk = Some t ->
                  is_banned u' = true /\ ban_until u' = Some t)
    /\ (forall t, is_muted u = true -> mute_until u = Some t -> t <= now clk ->
                  is_muted u' = false /\ mute_until u' = None)
    /\ (forall t, is_banned u = true -> ban_until u = Some t -> t <= now clk ->
                  is_banned u' = false /\ ban_until u' = None)
    /\ (is_muted u = false \/ mute_until u = None ->
        is_muted u' = is_muted u /\ mute_until u' = mute_until u)
    /\ (is_banned u = false \/ ban_until u = None ->
        is_banned u' = is_banned u /\ ban_until u' = ban_until u).
Proof.
  intros Hu.
  exists (snd (API.cleanup clk st)), (expire (now clk) u).
  split; [reflexivity|].
  split; [unfold API.cleanup; rewrite cleanup_lookup, Hu; reflexivity|].
  split; [reflexivity|]. split; [reflexivity|].
  split; [intros other; unfold API.cleanup; rewrite cleanup_lookup;
          apply fmap_is_Some|].
  destruct (expire_counted (now clk) u) as (K1 & K2 & K3 & _).
  split; [lia|]. split; [exact K2|]. split; [exact K3|].
  clear Hu K1 K2 K3.
  destruct u as [id m b [x|] [y|] vc lt rm];
    unfold active_mute, active_ban, expire; simpl;
    destruct m, b; simpl;
    try (destruct (now clk >=? x) eqn:E1; destruct (now clk <? x) eqn:F1;
         try (rewrite Z.geb_leb in E1; apply Z.leb_le in E1; apply Z.ltb_lt in F1; lia);
         try (rewrite Z.geb_leb in E1; apply Z.leb_gt in E1; apply Z.ltb_ge in F1; lia));
    simpl;
    try (destruct (now clk >=? y) eqn:E2; destruct (now clk <? y) eqn:F2;
         try (rewrite Z.geb_leb in E2; apply Z.leb_le in E2; apply Z.ltb_lt in F2; lia);
         try (rewrite Z.geb_leb in E2; apply Z.leb_gt in E2; apply Z.ltb_ge in F2; lia));
    simpl; rewrite ?F1, ?F2; simpl;
    repeat match goal with
           | |- _ /\ _ => split
           end;
    try reflexivity;
    try (intros; discriminate);
    try (intros t [= <-]; split; reflexivity);
    try (intros; split; reflexivity);
    try (intros t _ [= <-] Hle; rewrite ?Z.geb_leb in *;
         try apply Z.leb_gt in E1; try apply Z.leb_gt in E2; lia);
    try (intros [H|H]; discriminate H).
Qed.

Lemma sweep_lifts_expired_witness :
  exists st' u',
    API.cleanup {| now := 8000000; time := 8 |} punished_state = (Ok tt, st')
    /\ users st' !! "mallory" = Some u'
    /\ is_muted u' = false /\ mute_until u' = None
    /\ violation_count u' = 1.
Proof.
  destruct (sweep_lifts_expired {| now := 8000000; time := 8 |} punished_state
              "mallory" muted_example)
    as (st' & u' & Hrun & Hu' & _ & _ & _ & Hn & _ & _ & _ & _ & _ & _ & Hm & _);
    [reflexivity|].
  destruct (Hm 7000000) as [H1 H2]; [reflexivity | reflexivity | simpl; lia |].
  exists st', u'. split; [exact Hrun|]. split; [exact Hu'|].
  split; [exact H1|]. split; [exact H2|]. exact Hn.
Defined.

(** ** The profanity detector, the other way round *)

Lemma lower_substitute x p :
  p ∈ ["@"; "3"; "1"; "0"]%char -> Char.lower x = Char.lower p -> x = p.
Proof.
  intros Hp. assert (Hlp : Char.lower p = p).
  { repeat (apply elem_of_cons in Hp as [->|Hp]; [reflexivity|]).
    apply elem_of_nil in Hp. destruct Hp. }
  rewrite Hlp. clear Hlp. unfold Char.lower.
  destruct (Char.between 65 90 x) eqn:E; [|auto].
  intros <-. exfalso. revert Hp E.
  destruct x as [[] [] [] [] [] [] [] []]; vm_compute; intros Hp E;
    try discriminate E;
    repeat (apply elem_of_cons in Hp as [Hp|Hp]; [discriminate Hp|]);
    apply elem_of_nil in Hp; exact Hp.
Qed.

Lemma in_class_spells t x : Re.in_class (compile_char t) x = true -> spells t x.
Proof.
  unfold Re.in_class, compile_char.
  assert (Hsub : forall s, s ∈ ["@"; "3"; "1"; "0"]%char ->
            Ascii.eqb (Char.lower x) (Char.lower s) = true -> x = s).
  { intros s Hs Hx. apply Ascii.eqb_eq in Hx. apply lower_substitute; assumption. }
  assert (Hin : forall s, In s ["@"; "3"; "1"; "0"]%char -> s ∈ ["@"; "3"; "1"; "0"]%char)
    by (intros s Hs; apply list_elem_of_In; exact Hs).
  destruct (Ascii.eqb_spec t "a") as [->|_];
    [|destruct (Ascii.eqb_spec t "e") as [->|_];
      [|destruct (Ascii.eqb_spec t "i") as [->|_];
        [|destruct (Ascii.eqb_spec t "o") as [->|_]]]];
    cbn [existsb]; rewrite ?orb_false_r; intros H;
    try (apply orb_true_iff in H as [H|H];
         [left; apply Ascii.eqb_eq; exact H
         |right; apply Hsub in H; [|apply Hin; simpl; tauto]; subst x;
          unfold leet; tauto]).
  left. apply Ascii.eqb_eq. exact H.
Qed.

Lemma match_classes_sound ts :
  forall prev s m l r,
    Re.match_classes (map compile_char ts) prev s = Some (m, l, r) ->
    s = (m ++ r)%list /\ Forall2 spells ts m /\ l = last_or prev m.
Proof.
  induction ts as [|t ts IH]; intros prev s m l r; simpl.
  - intros [= <- <- <-]. split; [reflexivity|]. split; [constructor | reflexivity].
  - destruct s as [|x s']; [discriminate|].
    destruct (Re.in_class (compile_char t) x) eqn:Hc; [|discriminate].
    destruct (Re.match_classes (map compile_char ts) (Some x) s')
      as [[[m' l'] r']|] eqn:Hm; [|discriminate].
    intros [= <- <- <-].
    destruct (IH _ _ _ _ _ Hm) as (-> & Hsp & ->).
    split; [reflexivity|].
    split; [constructor; [apply in_class_spells, Hc | exact Hsp]|].
    symmetry. apply last_or_cons.
Qed.

Lemma match_here_sound ts prev s m :
  Re.match_here (map compile_char ts) prev s = Some m ->
  exists r, s = (m ++ r)%list
            /\ Forall2 spells ts m
            /\ Re.word_boundary prev (head (m ++ r)) = true
            /\ Re.word_boundary (last_or prev m) (head r) = true.
Proof.
  unfold Re.match_here.
  destruct (Re.word_boundary prev (head s)) eqn:Hb1; [|discriminate].
  destruct (Re.match_classes (map compile_char ts) prev s) as [[[m' l] r]|] eqn:Hm;
    [|discriminate].
  destruct (Re.word_boundary l (head r)) eqn:Hb2; [|discriminate].
  intros [= <-].
  destruct (match_classes_sound _ _ _ _ _ _ Hm) as (-> & Hsp & ->).
  exists r. auto.
Qed.

(** A match reported by the scan is a match at some position. *)
Lemma findall_from_sound p s :
  forall prev skip,
    Re.findall_from p prev s skip <> [] ->
    exists pre suf m, s = (pre ++ suf)%list
                      /\ Re.match_here p (last_or prev pre) suf = Some m.
Proof.
  induction s as [|x s IH]; intros prev skip; simpl.
  - destruct skip; [|intros H; destruct H; reflexivity].
    destruct (Re.match_here p prev []) as [m|] eqn:Hm;
      [|intros H; destruct H; reflexivity].
    intros _. exists [], [], m. split; [reflexivity | exact Hm].
  - assert (Hrec : forall k, Re.findall_from p (Some x) s k <> [] ->
              exists pre suf m, x :: s = (pre ++ suf)%list
                                /\ Re.match_here p (last_or prev pre) suf = Some m).
    { intros k Hk. destruct (IH _ _ Hk) as (pre & suf & m & -> & Hm).
      exists (x :: pre), suf, m. split; [reflexivity|].
      rewrite last_or_cons. exact Hm. }
    destruct skip as [|k]; [|apply Hrec].
    destruct (Re.match_here p prev (x :: s)) as [m|] eqn:Hm; [|apply Hrec].
    intros _. exists [], (x :: s), m. split; [reflexivity | exact Hm].
Qed.

Lemma occurs_findall w message :
  Re.findall (compile_word w) message <> [] -> occurs w message.
Proof.
  unfold Re.findall, compile_word. intros H.
  assert (H' : Re.findall_from (map compile_char (list_ascii_of_string w)) None
                 (list_ascii_of_string message) 0 <> [])
    by (intros E; apply H; rewrite E; reflexivity).
  destruct (findall_from_sound _ _ _ _ H') as (pre & suf & m & Hs & Hm).
  replace (last_or None pre) with (last pre) in Hm
    by (unfold last_or; destruct (last pre); reflexivity).
  destruct (match_here_sound _ _ _ _ Hm) as (r & -> & Hsp & Hb1 & Hb2).
  exists pre, m, r. split; [exact Hs|]. split; [exact Hsp|].
  split; [exact Hb1|]. rewrite <- last_or_last. exact Hb2.
Qed.

Lemma flat_map_not_nil_inv {A B} (f : A -> list B) (l : list A) :
  flat_map f l <> [] -> exists x, In x l /\ f x <> [].
Proof.
  induction l as [|a l IH]; simpl; intros H; [destruct H; reflexivity|].
  destruct (f a) as [|b bs] eqn:E.
  - destruct (IH H) as (x & Hx & Hf). exists x. split; [right; exact Hx | exact Hf].
  - exists a. split; [left; reflexivity | rewrite E; discriminate].
Qed.

Lemma occurs_found_words message :
  found_words message <> [] -> exists w, w ∈ profanity_words /\ occurs w message.
Proof.
  intros Hne. unfold found_words, profanity_patterns in Hne.
  apply flat_map_not_nil_inv in Hne as (p & Hp & Hf).
  apply in_map_iff in Hp as (w & <- & Hw).
  exists w. split; [apply list_elem_of_In, Hw | apply occurs_findall, Hf].
Qed.

(** X14. Profanity is reported only for a message that contains a term of
    the word list: when a decision lists Profanity, the profanity rule is
    enabled and some term of the list occurs in the message, spelled up
    to case and the four substitutions, between word boundaries. With
    the claim on the detector this makes the rule exact. *)
Theorem profanity_only_when_present (uid message : string) (clk : Clock)
    (st st' : Plugin) (d : Decision) :
  moderate_message uid message clk st = (Ok d, st') ->
  PROFANITY ∈ decision_violations d ->
  profanity_filter_enabled (config st) = true
  /\ exists w, w ∈ profanity_words /\ occurs w message.
Proof.
  intros Hrun Hin.
  assert (Hd : ran_detection d).
  { destruct d; try exact I; apply elem_of_nil in Hin; destruct Hin. }
  destruct (moderate_message_pass _ _ _ _ _ _ Hrun Hd) as (u' & -> & _).
  cbn [decision_violations] in Hin.
  apply elem_of_detected in Hin as [[_ Hv]|[[E _]|[[E _]|[E _]]]];
    try discriminate E.
  unfold profanity_verdict in Hv. apply andb_true_iff in Hv as [Hen Hlen].
  split; [exact Hen|]. apply occurs_found_words.
  intros E. rewrite E in Hlen. discriminate Hlen.
Qed.

Lemma profanity_only_when_present_witness :
  exists w, w ∈ profanity_words /\ occurs w "What the H3LL is this".
Proof.
  assert (E : exists snap st',
             moderate_message "user2" "What the H3LL is this"
               {| now := 1000000; time := 1 |} (init default_config)
             = (Ok (Moderated false [PROFANITY] [WARN] snap), st'))
    by (eexists _, _; vm_compute; reflexivity).
  destruct E as (snap & st' & Hrun).
  apply (profanity_only_when_present _ _ _ _ _ _ Hrun).
  apply list_elem_of_singleton. reflexivity.
Defined.

(** ** After an automatic mute *)

(** The user is muted until 60 or 300 seconds after the call. *)
Definition silenced (clk : Clock) (u : UserStatus) : Prop :=
  is_muted u = true
  /\ (mute_until u = Some (now clk + 60000000)
      \/ mute_until u = Some (now clk + 300000000)).

(** The instants 60 and 300 seconds after the call are representable. *)
Definition in_range (clk : Clock) : Prop :=
  0 <= now clk /\ now clk + 300000000 <= Datetime.MAX.

Lemma add_seconds_in_range clk d :
  in_range clk -> d = 60 \/ d = 300 ->
  Datetime.add_seconds (now clk) d = Some (now clk + d * 1000000).
Proof.
  intros [H0 H1] Hd. unfold Datetime.add_seconds, Datetime.add.
  assert (Ht : Datetime.timedelta_seconds d = Some (d * 1000000))
    by (destruct Hd as [-> | ->]; reflexivity).
  rewrite Ht. cbv zeta.
  replace (0 <=? now clk + d * 1000000) with true
    by (symmetry; apply Z.leb_le; lia).
  replace (now clk + d * 1000000 <=? Datetime.MAX) with true
    by (symmetry; apply Z.leb_le; lia).
  reflexivity.
Qed.

Lemma punish_mute_silenced clk d u :
  in_range clk -> d = 60 \/ d = 300 -> silenced clk (punish MUTE d clk u).
Proof.
  intros Hr Hd. unfold punish. rewrite (add_seconds_in_range clk d Hr Hd).
  split; [reflexivity|]. cbn [set_mute_until mute_until].
  destruct Hd as [-> | ->]; [left | right]; reflexivity.
Qed.

Lemma punish_silenced a d clk u :
  in_range clk -> a <> MUTE -> silenced clk u -> silenced clk (punish a d clk u).
Proof.
  intros Hr Ha Hs. unfold punish.
  destruct a; try exact Hs; [destruct Ha; reflexivity|].
  destruct (Datetime.add_seconds (now clk) d); exact Hs.
Qed.

Lemma escalate_silenced cfg log uid clk u :
  in_range clk -> silenced clk u -> silenced clk (escalate cfg log uid clk u).
Proof.
  intros Hr Hs. unfold escalate.
  destruct (_ >=? warn_to_mute_threshold cfg);
    [apply punish_mute_silenced; [exact Hr | right; reflexivity]|].
  destruct (_ >=? mute_to_kick_threshold cfg);
    [apply punish_silenced; [exact Hr | discriminate | exact Hs]|].
  destruct (_ >=? kick_to_ban_threshold cfg);
    [apply punish_silenced; [exact Hr | discriminate | exact Hs]|].
  exact Hs.
Qed.

Lemma after_block_silenced cfg log uid a d clk u :
  in_range clk ->
  (a = MUTE /\ (d = 60 \/ d = 300)) \/ (a <> MUTE /\ silenced clk u) ->
  silenced clk (after_block cfg log uid a d clk u).
Proof.
  intros Hr Ha.
  assert (Hp : silenced clk (punish a d clk u)).
  { destruct Ha as [[-> Hd]|[Hne Hs]];
      [apply punish_mute_silenced | apply punish_silenced]; assumption. }
  unfold after_block, after_record.
  destruct (escalation_enabled cfg); [apply escalate_silenced; [exact Hr|]|]; exact Hp.
Qed.

Lemma pushed_mute h1 h2 h3 h4 :
  let vs := fst (push h4 CAPS_ABUSE WARN (push h3 RATE_LIMIT MUTE
                   (push h2 SPAM MUTE (push h1 PROFANITY WARN ([], []))))) in
  SPAM ∈ vs \/ RATE_LIMIT ∈ vs -> h2 = true \/ h3 = true.
Proof.
  destruct h2; [left; reflexivity|]. destruct h3; [right; reflexivity|].
  destruct h1, h4; simpl; rewrite ?elem_of_cons, ?elem_of_nil;
    intuition discriminate.
Qed.

Lemma detection_pass_silenced uid message clk st0 u0 d st' :
  in_range clk ->
  users st0 !! uid = Some u0 ->
  detection_pass uid message clk st0 = (Ok d, st') ->
  SPAM ∈ decision_violations d \/ RATE_LIMIT ∈ decision_violations d ->
  exists u', users st' !! uid = Some u' /\ silenced clk u'.
Proof.
  intros Hr Hu0 Hrun Hin.
  destruct (detection_pass_run uid message clk st0 u0 Hu0)
    as (st1 & u1 & st2 & u2 & st3 & u3 & B1 & B2 & B3 & Hend).
  destruct Hend as [[_ Hraise]|(h4 & st4 & u4 & _ & B4 & Hok)].
  { rewrite Hraise in Hrun. discriminate. }
  cbv zeta in Hok. rewrite Hok in Hrun. injection Hrun as <- <-.
  cbn [decision_violations] in Hin. apply pushed_mute in Hin.
  destruct (block_effect _ _ _ _ _ _ _ _ _ _ _ _ B2) as (_ & _ & _ & E2).
  destruct (block_effect _ _ _ _ _ _ _ _ _ _ _ _ B3) as (_ & _ & _ & E3).
  destruct (block_effect _ _ _ _ _ _ _ _ _ _ _ _ B4) as (_ & _ & _ & E4).
  exists (track_message (time clk) message u4).
  split; [unfold tracked; cbn [users]; apply lookup_alter_user, B4|].
  assert (S3 : silenced clk u3).
  { rewrite E3.
    destruct ((len (recent_messages u2) >=? 3) && rate_verdict (config st2) u2 clk).
    - apply after_block_silenced; [exact Hr|]. left. split; [reflexivity | left; reflexivity].
    - destruct Hin as [H2|H3]; [|discriminate H3].
      rewrite E2, H2.
      apply after_block_silenced; [exact Hr|]. left. split; [reflexivity | right; reflexivity]. }
  assert (S4 : silenced clk u4).
  { rewrite E4. destruct h4; [|exact S3].
    apply after_block_silenced; [exact Hr|]. right. split; [discriminate | exact S3]. }
  exact S4.
Qed.

(** X15. A message reported as Spam or Rate-Limit silences its author for
    at least a minute: once [moderate_message] has returned a decision
    that lists Spam or Rate-Limit (and the clock is not at the very end
    of the calendar), every message the user sends before 60 seconds
    have passed is rejected without being inspected, as muted or as
    banned, and the call changes nothing. *)
Theorem automatic_mute_holds (uid message : string) (clk : Clock)
    (st st' : Plugin) (d : Decision) :
  0 <= now clk -> now clk + 300000000 <= Datetime.MAX ->
  moderate_message uid message clk st = (Ok d, st') ->
  SPAM ∈ decision_violations d \/ RATE_LIMIT ∈ decision_violations d ->
  forall message' clk', now clk' < now clk + 60000000 ->
    exists t,
      (moderate_message uid message' clk' st' = (Ok (RejectedMuted t), st')
       /\ now clk + 60000000 <= t)
      \/ moderate_message uid message' clk' st' = (Ok (RejectedBanned t), st').
Proof.
  intros H0 H1 Hrun Hin message' clk' Hlt.
  assert (Hd : ran_detection d).
  { destruct d; try exact I; destruct Hin as [Hin|Hin];
      apply elem_of_nil in Hin; destruct Hin. }
  destruct (moderate_message_inv _ _ _ _ _ _ Hrun Hd) as (st0 & u0 & _ & Hu0 & _ & Hpass).
  destruct (detection_pass_silenced uid message clk st0 u0 d st'
              (conj H0 H1) Hu0 Hpass Hin) as (u' & Hu' & Hm & Huntil).
  unfold moderate_message.
  rewrite (bind_Ok _ _ _ _ _ (get_user_status_present uid u' st' Hu')).
  destruct (active_ban u' clk') as [t|]; [exists t; right; reflexivity|].
  unfold active_mute. rewrite Hm. cbn [andb].
  destruct Huntil as [-> | ->].
  - exists (now clk + 60000000). left.
    replace (now clk' <? now clk + 60000000) with true
      by (symmetry; apply Z.ltb_lt; lia).
    split; [reflexivity | lia].
  - exists (now clk + 300000000). left.
    replace (now clk' <? now clk + 300000000) with true
      by (symmetry; apply Z.ltb_lt; lia).
    split; [reflexivity | lia].
Qed.

(** A repeated message, then another within the minute. *)
Definition greeted : Plugin :=
  run_op (OpModerate "user3" "hello there" None {| now := 1000000; time := 1 |})
    (init default_config).

Lemma automatic_mute_holds_witness :
  exists snap st' t,
    moderate_message "user3" "hello there" {| now := 2000000; time := 2 |} greeted
    = (Ok (Moderated false [SPAM] [MUTE] snap), st')
    /\ (moderate_message "user3" "sorry" {| now := 30000000; time := 30 |} st'
        = (Ok (RejectedMuted t), st')
        \/ moderate_message "user3" "sorry" {| now := 30000000; time := 30 |} st'
           = (Ok (RejectedBanned t), st')).
Proof.
  assert (E : exists snap st',
             moderate_message "user3" "hello there" {| now := 2000000; time := 2 |} greeted
             = (Ok (Moderated false [SPAM] [MUTE] snap), st'))
    by (eexists _, _; vm_compute; reflexivity).
  destruct E as (snap & st' & Hrun).
  destruct (automatic_mute_holds "user3" "hello there" {| now := 2000000; time := 2 |}
              greeted st' _ ltac:(simpl; lia) ltac:(unfold Datetime.MAX; simpl; lia) Hrun
              ltac:(left; apply list_elem_of_singleton; reflexivity)
              "sorry" {| now := 30000000; time := 30 |} ltac:(simpl; lia))
    as (t & [[H _]|H]);
    exists snap, st', t; (split; [exact Hrun|]); [left | right]; exact H.
Defined.

(** * The queries *)

(** ** The violation history *)

(** [timedelta(days=d)]: [None] stands for [OverflowError]. *)
Definition timedelta_days (d : Z) : option Z :=
  if (- Datetime.MAX_DELTA_DAYS <=? d) && (d <=? Datetime.MAX_DELTA_DAYS)
  then Some (d * 86400000000) else None.

(** [datetime.now() - timedelta(days=days)] *)
Definition cutoff (days : Z) (clk : Clock) : option Z :=
  match timedelta_days days with
  | Some d => Datetime.add (now clk) (- d)
  | None => None
  end.

(** The dictionary built for an entry of the log; [vv_timestamp] stands
    for the [isoformat] of that instant. *)
Record ViolationView := {
  vv_user_id : string;
  vv_violation_type : string;
  vv_message : string;
  vv_timestamp : Z;
  vv_action_taken : string;
  vv_moderator : option string
}.

Definition view_of (v : UserViolation) : ViolationView :=
  {| vv_user_id := v_user_id v;
     vv_violation_type := violation_value (violation_type v);
     vv_message := v_message v;
     vv_timestamp := timestamp v;
     vv_action_taken := action_value (action_taken v);
     vv_moderator := moderator v |}.

(** [get_user_violations]; it raises when the cutoff cannot be computed,
    and it does not touch the state. *)
Definition get_user_violations (uid : string) (days : Z) (clk : Clock)
    (st : Plugin) : option (list ViolationView) :=
  match cutoff days clk with
  | Some c =>
      Some (view_of <$> filter (fun v => v_user_id v = uid /\ c < timestamp v)
                          (violations st))
  | None => None
  end.

Module ModerationAPI.

(** [get_violations]: [if user_id:] takes the empty string as no user. *)
Definition get_violations (user_id : option string) (days : Z) (clk : Clock)
    (st : Plugin) : option (list ViolationView) :=
  match user_id with
  | Some (String c s) => get_user_violations (String c s) days clk st
  | _ =>
      match cutoff days clk with
      | Some c => Some (view_of <$> filter (fun v => c < timestamp v) (violations st))
      | None => None
      end
  end.

End ModerationAPI.

Lemma get_violations_of uid days clk st :
  uid <> "" ->
  ModerationAPI.get_violations (Some uid) days clk st
  = get_user_violations uid days clk st.
Proof. destruct uid; [intros H; destruct H; reflexivity | reflexivity]. Qed.

Lemma filter_all {A} (P : A -> Prop) `{forall x, base.Decision (P x)} (l : list A) :
  Forall P l -> filter P l = l.
Proof.
  induction 1 as [|x l Hx _ IH]; [reflexivity|].
  rewrite filter_cons, decide_True by exact Hx. f_equal. exact IH.
Qed.

(** X16. What the pipeline records, the history reports: after a call of
    [moderate_message] that went through detection, a query of the
    user's violations whose window reaches back before the call returns
    what it returned before the call, followed by one entry for each
    violation of the decision, in the same order, with the message, the
    instant of the call, the action of the rule and no moderator. *)
Theorem recorded_violations_are_reported (uid message : string) (clk : Clock)
    (st st' : Plugin) (d : Decision) (days : Z) (clk' : Clock) (c : Z) :
  moderate_message uid message clk st = (Ok d, st') ->
  ran_detection d ->
  uid <> "" ->
  cutoff days clk' = Some c ->
  c < now clk ->
  exists old,
    ModerationAPI.get_violations (Some uid) days clk' st = Some old
    /\ ModerationAPI.get_violations (Some uid) days clk' st'
       = Some (old ++ map (fun vt =>
                             {| vv_user_id := uid;
                                vv_violation_type := violation_value vt;
                                vv_message := message;
                                vv_timestamp := now clk;
                                vv_action_taken := action_value (rule_action vt);
                                vv_moderator := None |})
                        (decision_violations d))%list.
Proof.
  intros Hrun Hd Hne Hc Hlt.
  destruct (moderate_message_pass _ _ _ _ _ _ Hrun Hd)
    as (u' & -> & _ & _ & _ & Hv & _).
  cbn [decision_violations].
  rewrite !get_violations_of by exact Hne.
  unfold get_user_violations. rewrite Hc, Hv.
  eexists. split; [reflexivity|]. f_equal.
  rewrite filter_app, fmap_app. f_equal.
  rewrite filter_all.
  - rewrite <- list_fmap_compose. reflexivity.
  - apply Forall_forall. intros v Hin.
    apply list_elem_of_In, in_map_iff in Hin as (vt & <- & _).
    split; [reflexivity | exact Hlt].
Qed.

Lemma recorded_violations_are_reported_witness :
  exists d st',
    moderate_message "shouter" "DAMN THIS IS ANNOYING"
      {| now := 700000000000; time := 1 |} (init default_config) = (Ok d, st')
    /\ ModerationAPI.get_violations (Some "shouter") 7
         {| now := 700000001000; time := 2 |} st'
       = Some [ {| vv_user_id := "shouter"; vv_violation_type := "profanity";
                   vv_message := "DAMN THIS IS ANNOYING";
                   vv_timestamp := 700000000000;
                   vv_action_taken := "warn"; vv_moderator := None |};
                {| vv_user_id := "shouter"; vv_violation_type := "caps_abuse";
                   vv_message := "DAMN THIS IS ANNOYING";
                   vv_timestamp := 700000000000;
                   vv_action_taken := "warn"; vv_moderator := None |} ].
Proof.
  assert (E : exists snap st',
             moderate_message "shouter" "DAMN THIS IS ANNOYING"
               {| now := 700000000000; time := 1 |} (init default_config)
             = (Ok (Moderated false [PROFANITY; CAPS_ABUSE] [WARN; WARN] snap), st'))
    by (eexists _, _; vm_compute; reflexivity).
  destruct E as (snap & st' & Hrun).
  destruct (recorded_violations_are_reported _ _ _ _ _ _ 7
              {| now := 700000001000; time := 2 |} 95200001000 Hrun I)
    as (old & Hold & Hnew); [discriminate | reflexivity | simpl; lia |].
  eexists _, st'. split; [exact Hrun|].
  rewrite Hnew. injection Hold as <-. reflexivity.
Defined.

Lemma filter_view (uid : string) (c : Z) (log : list UserViolation) :
  filter (fun w => vv_user_id w = uid)
    (view_of <$> filter (fun v => c < timestamp v) log)
  = view_of <$> filter (fun v => v_user_id v = uid /\ c < timestamp v) log.
Proof.
  induction log as [|v log IH]; [reflexivity|].
  rewrite !filter_cons.
  destruct (decide (c < timestamp v)) as [Hc|Hc].
  - rewrite fmap_cons, filter_cons. cbn [view_of vv_user_id].
    destruct (decide (v_user_id v = uid)) as [Hu|Hu].
    + rewrite decide_True by (split; assumption). rewrite fmap_cons, IH. reflexivity.
    + rewrite decide_False by (intros [H _]; exact (Hu H)). exact IH.
  - rewrite decide_False by (intros [_ H]; exact (Hc H)). exact IH.
Qed.

Lemma filter_window_length (uid : string) (c : Z) (log : list UserViolation) :
  len (filter (fun v => v_user_id v = uid /\ c < timestamp v) log)
  <= len (filter (fun v => v_user_id v = uid) log).
Proof.
  unfold len. induction log as [|v log IH]; [reflexivity|].
  rewrite !filter_cons.
  destruct (decide (v_user_id v = uid)) as [Hu|Hu].
  - destruct (decide (v_user_id v = uid /\ c < timestamp v)); simpl length; lia.
  - rewrite decide_False by (intros [H _]; exact (Hu H)). exact IH.
Qed.

(** X17. The history of one user is the history of all users restricted
    to that user, in the same order; an empty user id is taken as no
    user and gives the history of all. In a state the API can reach,
    the history of a user never has more entries than the violation
    count of the status [get_user_status] returns, whatever the window. *)
Theorem user_history_within_count (cfg : Config) (st : Plugin) (uid : string)
    (days : Z) (clk : Clock) (l : list ViolationView) :
  reachable cfg st ->
  uid <> "" ->
  ModerationAPI.get_violations (Some uid) days clk st = Some l ->
  len l <= violation_count (status_of uid st)
  /\ (exists everyone,
        ModerationAPI.get_violations None days clk st = Some everyone
        /\ ModerationAPI.get_violations (Some "") days clk st = Some everyone
        /\ l = filter (fun w => vv_user_id w = uid) everyone).
Proof.
  intros Hr Hne Hq. rewrite get_violations_of in Hq by exact Hne.
  unfold get_user_violations in Hq. unfold ModerationAPI.get_violations.
  destruct (cutoff days clk) as [c|]; [|discriminate Hq].
  injection Hq as <-. split.
  - destruct (reachable_sound cfg st Hr) as (_ & _ & H). specialize (H uid).
    assert (Hcount : violation_count (status_of uid st) = entries uid (violations st)).
    { unfold status_of. destruct (users st !! uid) as [u|]; [apply H|].
      simpl. symmetry. exact H. }
    rewrite Hcount. unfold entries, len. rewrite length_fmap.
    apply filter_window_length.
  - eexists. split; [reflexivity|]. split; [reflexivity|].
    symmetry. apply filter_view.
Qed.

Lemma user_history_within_count_witness :
  exists l,
    ModerationAPI.get_violations (Some "bob") 7 {| now := 700000000000; time := 1 |}
      busy_state = Some l
    /\ len l <= violation_count (status_of "bob" busy_state).
Proof.
  eexists. split; [vm_compute; reflexivity|].
  apply (user_history_within_count default_config busy_state "bob" 7
           {| now := 700000000000; time := 1 |} _ busy_state_reachable);
    [discriminate | vm_compute; reflexivity].
Defined.

(** ** The statistics *)

(** The dictionary of [get_moderation_stats]; [violation_types] is a
    dictionary from the names of the kinds to their counts. *)
Record Stats := {
  total_violations : Z;
  violation_types : gmap string Z;
  active_mutes : Z;
  active_bans : Z;
  total_users_tracked : Z
}.

(** [violation_types[vtype] = violation_types.get(vtype, 0) + 1] *)
Definition count_type (types : gmap string Z) (v : UserViolation) : gmap string Z :=
  let vtype := violation_value (violation_type v) in
  <[vtype := default 0 (types !! vtype) + 1]> types.

(** [self.users.values()] *)
Definition values (us : gmap string UserStatus) : list UserStatus :=
  snd <$> map_to_list us.

(** [get_moderation_stats] *)
Definition get_moderation_stats (st : Plugin) : Stats :=
  {| total_violations := len (violations st);
     violation_types := fold_left count_type (violations st) ∅;
     active_mutes := len (filter (fun u => is_muted u = true) (values (users st)));
     active_bans := len (filter (fun u => is_banned u = true) (values (users st)));
     total_users_tracked := len (values (users st)) |}.

(** The sum of the counts of a dictionary. *)
Definition sum_counts (types : gmap string Z) : Z :=
  map_fold (fun _ n acc => n + acc) 0 types.

(** The number of entries of a kind. *)
Definition entries_of_type (vt : ViolationType) (log : list UserViolation) : Z :=
  len (filter (fun v => violation_type v = vt) log).

Lemma sum_counts_insert_new k n (types : gmap string Z) :
  types !! k = None -> sum_counts (<[k := n]> types) = n + sum_counts types.
Proof.
  intros Hk. unfold sum_counts.
  rewrite map_fold_insert_L; [reflexivity | intros; lia | exact Hk].
Qed.

Lemma sum_counts_insert k n (types : gmap string Z) :
  sum_counts (<[k := n]> types) = sum_counts types - default 0 (types !! k) + n.
Proof.
  destruct (types !! k) as [x|] eqn:Hk; simpl.
  - rewrite <- (insert_delete_eq types k n).
    rewrite sum_counts_insert_new by apply lookup_delete_eq.
    rewrite <- (insert_delete_id types k x Hk) at 2.
    rewrite sum_counts_insert_new by apply lookup_delete_eq. lia.
  - rewrite sum_counts_insert_new by exact Hk. lia.
Qed.

Lemma violation_value_inj vt vt' :
  violation_value vt = violation_value vt' -> vt = vt'.
Proof. destruct vt, vt'; simpl; intros H; try reflexivity; discriminate H. Qed.

(** The counts after the loop over the log, from the counts before it. *)
Definition counts_ok (types : gmap string Z) (base : gmap string Z)
    (log : list UserViolation) : Prop :=
  sum_counts types = sum_counts base + len log
  /\ (forall vt, default 0 (types !! violation_value vt)
                 = default 0 (base !! violation_value vt) + entries_of_type vt log)
  /\ (forall k, (forall vt, k <> violation_value vt) -> types !! k = base !! k)
  /\ (forall k n, base !! k = Some n -> is_Some (types !! k))
  /\ (forall vt, entries_of_type vt log > 0 -> is_Some (types !! violation_value vt))
  /\ (forall k, base !! k = None ->
                (forall vt, k = violation_value vt -> entries_of_type vt log = 0) ->
                types !! k = None).

Lemma entries_of_type_nonneg vt log : 0 <= entries_of_type vt log.
Proof. unfold entries_of_type, len. lia. Qed.

Lemma entries_of_type_cons vt v log :
  entries_of_type vt (v :: log)
  = (if decide (violation_type v = vt) then 1 else 0) + entries_of_type vt log.
Proof.
  unfold entries_of_type, len. rewrite filter_cons.
  destruct (decide (violation_type v = vt)); simpl length; lia.
Qed.

Lemma fold_count_type log :
  forall base, counts_ok (fold_left count_type log base) base log.
Proof.
  induction log as [|v log IH]; intros base.
  - simpl. unfold counts_ok, entries_of_type, len. simpl.
    split; [lia|]. split; [intros; lia|]. split; [reflexivity|].
    split; [intros k n ->; eauto|]. split; [intros; lia | auto].
  - simpl. destruct (IH (count_type base v)) as (S1 & S2 & S3 & S4 & S5 & S6).
    set (k0 := violation_value (violation_type v)) in *.
    assert (Hk0 : count_type base v !! k0 = Some (default 0 (base !! k0) + 1))
      by apply lookup_insert_eq.
    assert (Hother : forall k, k <> k0 -> count_type base v !! k = base !! k)
      by (intros k Hk; apply lookup_insert_ne; intros E; apply Hk; symmetry; exact E).
    split.
    { rewrite S1. unfold count_type. fold k0. rewrite sum_counts_insert.
      unfold len. simpl length. lia. }
    split.
    { intros vt. rewrite S2, entries_of_type_cons.
      destruct (decide (violation_type v = vt)) as [<-|Hne].
      - fold k0. rewrite Hk0. simpl. lia.
      - rewrite Hother; [lia|]. intros E. apply Hne. symmetry.
        apply violation_value_inj, E. }
    split.
    { intros k Hk. rewrite S3 by exact Hk. apply Hother, Hk. }
    split.
    { intros k n Hb. destruct (decide (k = k0)) as [->|Hne].
      - apply (S4 k0 _ Hk0).
      - apply (S4 k n). rewrite Hother by exact Hne. exact Hb. }
    split.
    { intros vt. rewrite entries_of_type_cons.
      destruct (decide (violation_type v = vt)) as [<-|Hne].
      - intros _. apply (S4 k0 _ Hk0).
      - intros H. apply S5. lia. }
    { intros k Hb Hz. apply S6.
      - destruct (decide (k = k0)) as [->|Hne]; [|rewrite Hother by exact Hne; exact Hb].
        specialize (Hz (violation_type v) eq_refl).
        rewrite entries_of_type_cons, decide_True in Hz by reflexivity.
        pose proof (entries_of_type_nonneg (violation_type v) log). lia.
      - intros vt ->. specialize (Hz vt eq_refl).
        rewrite entries_of_type_cons in Hz.
        pose proof (entries_of_type_nonneg vt log).
        destruct (decide (violation_type v = vt)); lia. }
Qed.

Lemma sum_counts_empty : sum_counts ∅ = 0.
Proof. unfold sum_counts. apply map_fold_empty. Qed.

(** X18. The statistics agree with one another and with the log: the
    counts per kind add up to [total_violations], which is the length
    of the log; a kind is listed exactly when the log has an entry of
    it, with the number of these entries, and nothing else is listed;
    the mutes and the bans counted are at most the users tracked. *)
Theorem stats_add_up (st : Plugin) :
  let s := get_moderation_stats st in
  total_violations s = len (violations st)
  /\ sum_counts (violation_types s) = total_violations s
  /\ (forall vt,
        violation_types s !! violation_value vt
        = if entries_of_type vt (violations st) =? 0 then None
          else Some (entries_of_type vt (violations st)))
  /\ (forall k, is_Some (violation_types s !! k) -> exists vt, k = violation_value vt)
  /\ 0 <= active_mutes s <= total_users_tracked s
  /\ 0 <= active_bans s <= total_users_tracked s
  /\ total_users_tracked s = Z.of_nat (size (users st)).
Proof.
  cbv zeta. unfold get_moderation_stats.
  cbn [total_violations violation_types active_mutes active_bans total_users_tracked].
  destruct (fold_count_type (violations st) ∅) as (S1 & S2 & S3 & S4 & S5 & S6).
  rewrite sum_counts_empty in S1.
  split; [reflexivity|]. split; [lia|]. split.
  { intros vt. specialize (S2 vt). rewrite lookup_empty in S2. simpl in S2.
    destruct (entries_of_type vt (violations st) =? 0) eqn:E.
    - apply Z.eqb_eq in E. apply S6; [apply lookup_empty|].
      intros vt' Hv. apply violation_value_inj in Hv. subst vt'. exact E.
    - apply Z.eqb_neq in E. pose proof (entries_of_type_nonneg vt (violations st)).
      destruct (S5 vt) as [n Hn]; [lia|]. rewrite Hn in S2 |- *. simpl in S2.
      f_equal. lia. }
  split.
  { intros k [n Hn].
    assert (Hk : (exists vt, k = violation_value vt)
                 \/ forall vt, k <> violation_value vt).
    { destruct (decide (k = violation_value PROFANITY)); [left; eauto|].
      destruct (decide (k = violation_value SPAM)); [left; eauto|].
      destruct (decide (k = violation_value RATE_LIMIT)); [left; eauto|].
      destruct (decide (k = violation_value CAPS_ABUSE)); [left; eauto|].
      destruct (decide (k = violation_value REPETITIVE)); [left; eauto|].
      destruct (decide (k = violation_value INAPPROPRIATE_CONTENT)); [left; eauto|].
      right. intros []; assumption. }
    destruct Hk as [Hk|Hk]; [exact Hk|].
    rewrite S3, lookup_empty in Hn; [discriminate Hn | exact Hk]. }
  unfold len. pose proof (length_filter (fun u => is_muted u = true) (values (users st))).
  pose proof (length_filter (fun u => is_banned u = true) (values (users st))).
  split; [lia|]. split; [lia|].
  unfold values. rewrite length_fmap, length_map_to_list. reflexivity.
Qed.

(** The sum of the violation counts of the users tracked. *)
Definition sum_violation_counts (us : gmap string UserStatus) : Z :=
  map_fold (fun _ u acc => violation_count u + acc) 0 us.

(** The log without the entries of a user. *)
Definition without (uid : string) (log : list UserViolation) : list UserViolation :=
  filter (fun v => v_user_id v <> uid) log.

Lemma entries_without_same uid log : entries uid (without uid log) = 0.
Proof.
  unfold entries, without, len. induction log as [|v log IH]; [reflexivity|].
  rewrite filter_cons. destruct (decide (v_user_id v <> uid)) as [Hne|_]; [|exact IH].
  rewrite filter_cons, decide_False by exact Hne. exact IH.
Qed.

Lemma entries_without_other uid uid' log :
  uid' <> uid -> entries uid' (without uid log) = entries uid' log.
Proof.
  intros Hne. unfold entries, without, len. induction log as [|v log IH]; [reflexivity|].
  rewrite !filter_cons. destruct (decide (v_user_id v <> uid)) as [H|H].
  - rewrite filter_cons. destruct (decide (v_user_id v = uid')); simpl length; lia.
  - rewrite decide_False; [exact IH|]. intros E. apply H. congruence.
Qed.

Lemma len_without uid log : len log = entries uid log + len (without uid log).
Proof.
  unfold entries, without, len. induction log as [|v log IH]; [reflexivity|].
  rewrite !filter_cons. destruct (decide (v_user_id v = uid)) as [H|H].
  - rewrite decide_False by (intros E; exact (E H)). simpl length. lia.
  - rewrite decide_True by exact H. simpl length. lia.
Qed.

Lemma entries_nonneg uid log : 0 <= entries uid log.
Proof. unfold entries, len. lia. Qed.

Lemma sum_violation_counts_log (us : gmap string UserStatus) :
  forall log,
    (forall uid, match us !! uid with
                 | Some u => violation_count u = entries uid log
                 | None => entries uid log = 0
                 end) ->
    sum_violation_counts us = len log.
Proof.
  induction us as [|i x us Hi IH] using map_ind; intros log H.
  - unfold sum_violation_counts. rewrite map_fold_empty.
    destruct log as [|v log]; [reflexivity|].
    specialize (H (v_user_id v)). rewrite lookup_empty in H.
    unfold entries in H. rewrite filter_cons, decide_True in H by reflexivity.
    unfold len in H. simpl length in H. lia.
  - unfold sum_violation_counts.
    rewrite map_fold_insert_L; [|intros; lia | exact Hi].
    fold (sum_violation_counts us).
    rewrite (IH (without i log)).
    + pose proof (H i) as Hx. rewrite lookup_insert_eq in Hx.
      rewrite Hx. symmetry. apply len_without.
    + intros uid. destruct (decide (uid = i)) as [->|Hne].
      * rewrite Hi. apply entries_without_same.
      * specialize (H uid). rewrite lookup_insert_ne in H by congruence.
        rewrite entries_without_other by exact Hne. exact H.
Qed.

(** X19. In every state the API can reach, the total of the statistics
    is the sum of the violation counts of the users tracked: no
    violation is counted for a user without being logged, and none is
    logged without being counted. *)
Theorem stats_total_is_sum_of_counts (cfg : Config) (st : Plugin) :
  reachable cfg st ->
  total_violations (get_moderation_stats st) = sum_violation_counts (users st).
Proof.
  intros Hr. destruct (reachable_sound cfg st Hr) as (_ & _ & H).
  symmetry. apply sum_violation_counts_log. intros uid. specialize (H uid).
  destruct (users st !! uid) as [u|]; [apply H | exact H].
Qed.

Lemma stats_total_is_sum_of_counts_witness :
  total_violations (get_moderation_stats busy_state) = sum_violation_counts (users busy_state)
  /\ total_violations (get_moderation_stats busy_state) = 2.
Proof.
  split; [|vm_compute; reflexivity].
  apply (stats_total_is_sum_of_counts default_config busy_state busy_state_reachable).
Defined.

(** X20. Asking for the status of a user is not a read-only operation:
    for an id that is not tracked yet, [get_user_status] of the API
    returns a clean status (not muted, not banned, no expiry, no
    violation) and leaves the id tracked, so that the statistics count
    one user more; for a tracked id it returns the fields of the record
    and changes nothing. The log and the configuration stay in both
    cases. *)
Theorem status_query_registers (uid : string) (st : Plugin) :
  exists v st',
    API.get_user_status uid st = (Ok v, st')
    /\ violations st' = violations st
    /\ config st' = config st
    /\ (users st !! uid = None ->
        v = {| API.view_user_id := uid; API.view_is_muted := false;
               API.view_is_banned := false; API.view_mute_until := None;
               API.view_ban_until := None; API.view_violation_count := 0 |}
        /\ users st' = <[uid := new_user uid]> (users st)
        /\ total_users_tracked (get_moderation_stats st')
           = total_users_tracked (get_moderation_stats st) + 1
        /\ active_mutes (get_moderation_stats st')
           = active_mutes (get_moderation_stats st))
    /\ (forall u, users st !! uid = Some u ->
        st' = st
        /\ v = {| API.view_user_id := user_id u; API.view_is_muted := is_muted u;
                  API.view_is_banned := is_banned u;
                  API.view_mute_until := mute_until u;
                  API.view_ban_until := ban_until u;
                  API.view_violation_count := violation_count u |}).
Proof.
  unfold API.get_user_status, get_user_status, bind, ret.
  destruct (users st !! uid) as [u|] eqn:Hu.
  - eexists _, st. split; [reflexivity|]. split; [reflexivity|]. split; [reflexivity|].
    split; [discriminate|]. intros u' [= <-]. split; reflexivity.
  - eexists _, _. split; [reflexivity|]. split; [reflexivity|]. split; [reflexivity|].
    split; [|discriminate]. intros _. split; [reflexivity|]. split; [reflexivity|].
    unfold get_moderation_stats, values, len.
    cbn [users total_users_tracked active_mutes].
    rewrite !length_fmap, !length_map_to_list, map_size_insert_None by exact Hu.
    split; [lia|].
    f_equal. apply Permutation_length.
    rewrite map_to_list_insert by exact Hu.
    rewrite fmap_cons, filter_cons, decide_False by discriminate. reflexivity.
Qed.

(** * The word list *)

(** [str.lower] *)
Definition str_lower (s : string) : string :=
  string_of_list_ascii
    (map (fun c => if Char.isupper c then ascii_of_N (Char.code c + 32) else c)
       (list_ascii_of_string s)).

(** [self.profanity_words] and [self.profanity_patterns]. The set of
    words is a list without repetition; the source does not fix the
    order in which a set is iterated. *)
Record WordFilter := {
  words : list string;
  patterns : list Re.pattern
}.

(** [load_profanity_filter]: the set is assigned the literal, whatever
    it held, and the patterns are compiled from it. *)
Definition load_profanity_filter (f : WordFilter) : WordFilter :=
  {| words := profanity_words; patterns := map compile_word profanity_words |}.

(** [set.add] and [set.discard] *)
Definition set_add (w : string) (l : list string) : list string :=
  if bool_decide (w ∈ l) then l else (l ++ [w])%list.

Definition set_discard (w : string) (l : list string) : list string :=
  filter (fun x => x <> w) l.

Definition with_words (g : list string -> list string) (f : WordFilter) : WordFilter :=
  {| words := g (words f); patterns := patterns f |}.

(** [add_profanity_words] *)
Definition add_profanity_words (ws : list string) (f : WordFilter)
  : bool * WordFilter :=
  let f1 := fold_left (fun f word => with_words (set_add (str_lower word)) f) ws f in
  (true, load_profanity_filter f1).

(** [remove_profanity_words] *)
Definition remove_profanity_words (ws : list string) (f : WordFilter)
  : bool * WordFilter :=
  let f1 := fold_left (fun f word => with_words (set_discard word) f) ws f in
  (true, load_profanity_filter f1).

(** [check_profanity], reading the patterns of the filter. *)
Definition check_profanity_with (f : WordFilter) (message : string)
  : M (bool * list string) :=
  cfg <- the_config ;;
  if negb (profanity_filter_enabled cfg) then ret (false, [])
  else
    let found_words := flat_map (fun p => Re.findall p message) (patterns f) in
    ret (len found_words >? 0, found_words).

Inductive filter_op :=
| AddWords (ws : list string)
| RemoveWords (ws : list string).

Definition run_filter_op (f : WordFilter) (o : filter_op) : bool * WordFilter :=
  match o with
  | AddWords ws => add_profanity_words ws f
  | RemoveWords ws => remove_profanity_words ws f
  end.

(** The filter after a sequence of calls. *)
Definition run_filter_ops (ops : list filter_op) (f : WordFilter) : WordFilter :=
  fold_left (fun f o => snd (run_filter_op f o)) ops f.

(** X21. The word list cannot be changed through the API:
    [add_profanity_words] and [remove_profanity_words] report success
    and reload the filter, which puts the built-in list back. After any
    sequence of such calls on a plugin the words and the patterns are
    those the plugin started with, so the profanity check gives the same
    answer on every message as before: an added word is not detected,
    and a removed word still is. *)
Theorem word_list_is_fixed (ops : list filter_op) (f : WordFilter) :
  let f' := run_filter_ops ops (load_profanity_filter f) in
  words f' = profanity_words
  /\ patterns f' = profanity_patterns
  /\ (forall message st, check_profanity_with f' message st = check_profanity message st)
  /\ (forall o, fst (run_filter_op f' o) = true)
  /\ (forall w o, w ∈ words (snd (run_filter_op f' o)) <-> w ∈ profanity_words).
Proof.
  cbv zeta.
  assert (H : run_filter_ops ops (load_profanity_filter f) = load_profanity_filter f).
  { induction ops as [|o ops IH] using rev_ind; [reflexivity|].
    unfold run_filter_ops in *. rewrite fold_left_app. simpl.
    destruct o; reflexivity. }
  rewrite H. split; [reflexivity|]. split; [reflexivity|].
  split; [reflexivity|]. split; [intros []; reflexivity|].
  intros w []; reflexivity.
Qed.

(** * The configuration as a dictionary *)

(** The values of [json.load]; a number of the configuration is an
    integer. A dictionary is the list of its items in the order of
    insertion, each key once. *)
#[warnings="-register-all"] Inductive json :=
| JNull
| JBool (b : bool)
| JNum (n : Z)
| JStr (s : string)
| JList (l : list json)
| JDict (d : list (string * json)).

Definition dict := list (string * json).

(** [d.get(key)] *)
Fixpoint dict_get (key : string) (d : dict) : option json :=
  match d with
  | [] => None
  | (k, v) :: d' => if String.eqb k key then Some v else dict_get key d'
  end.

(** [d[key] = value]: an item that is there keeps its place. *)
Fixpoint dict_set (key : string) (value : json) (d : dict) : dict :=
  match d with
  | [] => [(key, value)]
  | (k, v) :: d' =>
      if String.eqb k key then (key, value) :: d' else (k, v) :: dict_set key value d'
  end.

(** What [deep_update] leaves under a key: [value] of the update, or
    the dictionary under the key updated in turn when both are
    dictionaries. *)
Fixpoint merge (value : json) (old : option json) {struct value} : json :=
  match value with
  | JDict update_dict =>
      match old with
      | Some (JDict base_dict) =>
          JDict ((fix loop (update_dict base_dict : dict) {struct update_dict} : dict :=
                    match update_dict with
                    | [] => base_dict
                    | (key, value) :: rest =>
                        loop rest
                          (dict_set key (merge value (dict_get key base_dict)) base_dict)
                    end) update_dict base_dict)
      | _ => value
      end
  | _ => value
  end.

(** [deep_update] of [update_config]: the loop over the items of the
    update. *)
Definition deep_update (base_dict update_dict : dict) : dict :=
  fold_left (fun base item => dict_set (fst item)
                                (merge (snd item) (dict_get (fst item) base)) base)
    update_dict base_dict.

Lemma merge_dicts b u : merge (JDict u) (Some (JDict b)) = JDict (deep_update b u).
Proof.
  simpl. f_equal. unfold deep_update. revert b.
  induction u as [|[key value] rest IH]; intros b; [reflexivity|].
  simpl. apply IH.
Qed.

(** The body of the loop, as the source has it. *)
Lemma deep_update_cons base key value rest :
  deep_update base ((key, value) :: rest)
  = deep_update
      (dict_set key
         match dict_get key base, value with
         | Some (JDict b), JDict u => JDict (deep_update b u)
         | _, _ => value
         end
         base)
      rest.
Proof.
  unfold deep_update at 1. simpl fold_left. fold (deep_update
    (dict_set key (merge value (dict_get key base)) base) rest).
  f_equal. f_equal.
  destruct value as [| | | | |u]; try (destruct (dict_get key base) as [[]|]; reflexivity).
  destruct (dict_get key base) as [[| | | | |b]|]; try reflexivity.
  apply merge_dicts.
Qed.

(** [update_config]: the merge into the live configuration, then the
    file; [written] tells whether [config.json] could be written, the
    one step that can fail once the update is a dictionary. *)
Definition update_config (config_updates : dict) (written : bool) (config : dict)
  : bool * dict :=
  (written, deep_update config config_updates).

Lemma merge_cases value old :
  merge value old
  = match old, value with
    | Some (JDict b), JDict u => JDict (deep_update b u)
    | _, _ => value
    end.
Proof.
  destruct value as [| | | | |u]; try (destruct old as [[]|]; reflexivity).
  destruct old as [[| | | | |b]|]; try reflexivity. apply merge_dicts.
Qed.

Lemma dict_get_set key key' value d :
  dict_get key' (dict_set key value d)
  = if String.eqb key key' then Some value else dict_get key' d.
Proof.
  induction d as [|[k v] d IH]; simpl.
  - reflexivity.
  - destruct (String.eqb_spec k key) as [->|Hk]; simpl.
    + destruct (String.eqb key key'); reflexivity.
    + destruct (String.eqb_spec k key') as [->|Hk'].
      * destruct (String.eqb_spec key key'); [congruence | reflexivity].
      * exact IH.
Qed.

Lemma dict_set_keys key value d :
  exists added, map fst (dict_set key value d) = (map fst d ++ added)%list.
Proof.
  induction d as [|[k v] d [added IH]]; simpl.
  - exists [key]. reflexivity.
  - destruct (String.eqb_spec k key) as [->|_]; simpl.
    + exists []. rewrite app_nil_r. reflexivity.
    + exists added. rewrite IH. reflexivity.
Qed.

Lemma deep_update_step base key value rest :
  deep_update base ((key, value) :: rest)
  = deep_update (dict_set key (merge value (dict_get key base)) base) rest.
Proof. reflexivity. Qed.

Lemma dict_get_None key (d : dict) : key ∉ map fst d -> dict_get key d = None.
Proof.
  induction d as [|[k v] d IH]; simpl; intros H; [reflexivity|].
  destruct (String.eqb_spec k key) as [->|_].
  - destruct H. apply elem_of_cons. left. reflexivity.
  - apply IH. intros Hin. apply H. apply elem_of_cons. right. exact Hin.
Qed.

(** X22. What [deep_update] leaves in the base dictionary, key by key,
    for an update that is a dictionary (each key once): a key the update
    does not mention keeps its value; a key it mentions gets the value
    of the update, except when both values are dictionaries, which are
    merged in turn. No key of the base is removed, and the keys of the
    base keep their order, new keys coming after them. *)
Theorem deep_update_by_key (base update : dict) (key : string) :
  NoDup (map fst update) ->
  dict_get key (deep_update base update)
  = match dict_get key update with
    | None => dict_get key base
    | Some value =>
        Some match dict_get key base, value with
             | Some (JDict b), JDict u => JDict (deep_update b u)
             | _, _ => value
             end
    end
  /\ exists added,
       map fst (deep_update base update) = (map fst base ++ added)%list.
Proof.
  intros Hnd. split.
  - revert base. induction update as [|[k v] rest IH]; intros base; [reflexivity|].
    change (map fst ((k, v) :: rest)) with (k :: map fst rest) in Hnd.
    apply NoDup_cons in Hnd as [Hk Hrest].
    rewrite deep_update_step, (IH Hrest).
    change (dict_get key ((k, v) :: rest))
      with (if String.eqb k key then Some v else dict_get key rest).
    destruct (String.eqb_spec k key) as [->|Hne].
    + rewrite (dict_get_None key rest Hk), dict_get_set, String.eqb_refl.
      f_equal. apply merge_cases.
    + rewrite dict_get_set. destruct (String.eqb_spec k key); [congruence|].
      reflexivity.
  - clear Hnd. revert base. induction update as [|[k v] rest IH]; intros base.
    + exists []. rewrite app_nil_r. reflexivity.
    + rewrite deep_update_step.
      destruct (IH (dict_set k (merge v (dict_get k base)) base)) as [a1 H1].
      destruct (dict_set_keys k (merge v (dict_get k base)) base) as [a2 H2].
      exists (a2 ++ a1)%list. rewrite H1, H2. symmetry. apply app_assoc.
Qed.

(** [default_config] of [load_config], as the dictionary it is. *)
Definition default_dict : dict :=
  [ ("rules", JDict
      [ ("profanity_filter", JDict
           [ ("enabled", JBool true); ("action", JStr "warn");
             ("threshold", JNum 1); ("auto_escalate", JBool true) ]);
        ("spam_detection", JDict
           [ ("enabled", JBool true); ("action", JStr "mute");
             ("threshold", JNum 3); ("duration", JNum 300);
             ("auto_escalate", JBool false) ]);
        ("rate_limiting", JDict
           [ ("enabled", JBool true); ("max_messages_per_minute", JNum 10);
             ("action", JStr "mute"); ("duration", JNum 60) ]);
        ("caps_abuse", JDict
           [ ("enabled", JBool true); ("max_caps_percentage", JNum 70);
             ("min_message_length", JNum 10); ("action", JStr "warn") ]) ]);
    ("escalation", JDict
      [ ("enabled", JBool true); ("warn_to_mute_threshold", JNum 3);
        ("mute_to_kick_threshold", JNum 2); ("kick_to_ban_threshold", JNum 2) ]) ].

Lemma deep_update_by_key_witness :
  dict_get "escalation"
    (deep_update default_dict
       [("rules", JDict [("caps_abuse", JDict [("max_caps_percentage", JNum 50)])])])
  = dict_get "escalation" default_dict.
Proof.
  destruct (deep_update_by_key default_dict
              [("rules", JDict [("caps_abuse", JDict [("max_caps_percentage", JNum 50)])])]
              "escalation") as [H _].
  - repeat constructor. apply not_elem_of_nil.
  - rewrite H. reflexivity.
Defined.

(** ** One setting at a time *)

(** [j[k1][k2]...] *)
Fixpoint get_path (p : list string) (j : json) : option json :=
  match p with
  | [] => Some j
  | key :: p' =>
      match j with
      | JDict d =>
          match dict_get key d with
          | Some j' => get_path p' j'
          | None => None
          end
      | _ => None
      end
  end.

(** The nested dictionary [{k1: {k2: ... value}}]. *)
Fixpoint single (p : list string) (value : json) : json :=
  match p with
  | [] => value
  | key :: p' => JDict [(key, single p' value)]
  end.

Definition is_leaf (j : json) : bool :=
  match j with
  | JDict _ => false
  | _ => true
  end.

(** Two paths part at some key: neither leads into the other. *)
Fixpoint diverge (p q : list string) : bool :=
  match p, q with
  | a :: p', b :: q' => if String.eqb a b then diverge p' q' else true
  | _, _ => false
  end.

Definition get_path_opt (p : list string) (old : option json) : option json :=
  match old with
  | Some j => get_path p j
  | None => None
  end.

Lemma merge_single key p value old :
  merge (single (key :: p) value) old
  = JDict match old with
          | Some (JDict b) =>
              dict_set key (merge (single p value) (dict_get key b)) b
          | _ => [(key, single p value)]
          end.
Proof.
  rewrite merge_cases. cbn [single].
  destruct old as [[| | | | |b]|]; reflexivity.
Qed.

Lemma merge_None value : merge value None = value.
Proof. destruct value; reflexivity. Qed.

Lemma get_path_merge_single p value old :
  is_leaf value = true -> get_path p (merge (single p value) old) = Some value.
Proof.
  intros Hleaf. revert old. induction p as [|key p IH]; intros old.
  - cbn [single]. rewrite merge_cases.
    destruct value; try discriminate Hleaf; destruct old as [[]|]; reflexivity.
  - rewrite merge_single. cbn [get_path].
    destruct old as [[| | | | |b]|];
      try (cbn [dict_get]; rewrite String.eqb_refl, <- (merge_None (single p value));
           apply IH).
    rewrite dict_get_set, String.eqb_refl. apply IH.
Qed.

Lemma get_path_merge_diverge p value :
  forall q old,
    diverge p q = true ->
    get_path q (merge (single p value) old) = get_path_opt q old.
Proof.
  induction p as [|a p IH]; intros q old Hd; [discriminate Hd|].
  destruct q as [|b q]; [discriminate Hd|].
  rewrite merge_single. cbn [diverge] in Hd. cbn [get_path].
  assert (Hother : get_path_opt (b :: q) old = None ->
                   match old with Some (JDict _) => False | _ => True end ->
                   match dict_get b [(a, single p value)] with
                   | Some j' => get_path q j'
                   | None => None
                   end = get_path_opt (b :: q) old).
  { intros -> _. cbn [dict_get].
    destruct (String.eqb a b); [|reflexivity].
    rewrite <- (merge_None (single p value)). rewrite (IH q None Hd). reflexivity. }
  destruct old as [[| | | | |d]|]; try (apply Hother; [reflexivity | exact I]).
  rewrite dict_get_set. cbn [get_path_opt get_path].
  destruct (String.eqb_spec a b) as [->|Hne]; [|reflexivity].
  rewrite (IH q _ Hd). reflexivity.
Qed.

(** X23. An update that names one setting by its path, and gives it a
    value that is not a dictionary, sets that setting and nothing
    beside it: after [update_config] the value is found at the path,
    whatever was there (dictionaries are created or replace other
    values on the way), and every path that parts from it holds what it
    held. The configuration is merged even when the file cannot be
    written and [False] is returned. *)
Theorem update_sets_one_path (config : dict) (key : string) (p : list string)
    (value : json) (written : bool) :
  is_leaf value = true ->
  exists config',
    update_config [(key, single p value)] written config = (written, config')
    /\ get_path (key :: p) (JDict config') = Some value
    /\ forall q, diverge (key :: p) q = true ->
                 get_path q (JDict config') = get_path q (JDict config).
Proof.
  intros Hleaf. eexists. split; [reflexivity|].
  assert (E : JDict (deep_update config [(key, single p value)])
              = merge (single (key :: p) value) (Some (JDict config))).
  { rewrite merge_single. reflexivity. }
  rewrite E. split.
  - apply get_path_merge_single, Hleaf.
  - intros q Hq.
    exact (get_path_merge_diverge (key :: p) value q (Some (JDict config)) Hq).
Qed.

Lemma update_sets_one_path_witness :
  exists config',
    update_config [("rules", single ["caps_abuse"; "max_caps_percentage"] (JNum 50))]
      false default_dict = (false, config')
    /\ get_path ["rules"; "caps_abuse"; "max_caps_percentage"] (JDict config')
       = Some (JNum 50)
    /\ get_path ["rules"; "caps_abuse"; "min_message_length"] (JDict config')
       = Some (JNum 10).
Proof.
  destruct (update_sets_one_path default_dict "rules"
              ["caps_abuse"; "max_caps_percentage"] (JNum 50) false eq_refl)
    as (config' & Hrun & Hset & Hkeep).
  exists config'. split; [exact Hrun|]. split; [exact Hset|].
  rewrite (Hkeep ["rules"; "caps_abuse"; "min_message_length"] eq_refl).
  reflexivity.
Defined.

(** ** The settings the plugin reads *)

(** The settings under [rules] and [escalation] that the detectors and
    the escalation read. *)
Inductive setting :=
| ProfanityEnabled | SpamEnabled | RateEnabled | MaxMessagesPerMinute
| CapsEnabled | MaxCapsPercentage | MinMessageLength
| EscalationEnabled | WarnToMute | MuteToKick | KickToBan.

(** The section of a setting and the keys below it. *)
Definition path_of (s : setting) : string * list string :=
  match s with
  | ProfanityEnabled => ("rules", ["profanity_filter"; "enabled"])
  | SpamEnabled => ("rules", ["spam_detection"; "enabled"])
  | RateEnabled => ("rules", ["rate_limiting"; "enabled"])
  | MaxMessagesPerMinute => ("rules", ["rate_limiting"; "max_messages_per_minute"])
  | CapsEnabled => ("rules", ["caps_abuse"; "enabled"])
  | MaxCapsPercentage => ("rules", ["caps_abuse"; "max_caps_percentage"])
  | MinMessageLength => ("rules", ["caps_abuse"; "min_message_length"])
  | EscalationEnabled => ("escalation", ["enabled"])
  | WarnToMute => ("escalation", ["warn_to_mute_threshold"])
  | MuteToKick => ("escalation", ["mute_to_kick_threshold"])
  | KickToBan => ("escalation", ["kick_to_ban_threshold"])
  end.

Definition full_path (s : setting) : list string :=
  fst (path_of s) :: snd (path_of s).

(** The value of a setting in the record of the configuration. *)
Definition field (s : setting) (cfg : Config) : json :=
  match s with
  | ProfanityEnabled => JBool (profanity_filter_enabled cfg)
  | SpamEnabled => JBool (spam_detection_enabled cfg)
  | RateEnabled => JBool (rate_limiting_enabled cfg)
  | MaxMessagesPerMinute => JNum (max_messages_per_minute cfg)
  | CapsEnabled => JBool (caps_abuse_enabled cfg)
  | MaxCapsPercentage => JNum (max_caps_percentage cfg)
  | MinMessageLength => JNum (min_message_length cfg)
  | EscalationEnabled => JBool (escalation_enabled cfg)
  | WarnToMute => JNum (warn_to_mute_threshold cfg)
  | MuteToKick => JNum (mute_to_kick_threshold cfg)
  | KickToBan => JNum (kick_to_ban_threshold cfg)
  end.

(** A boolean for a switch, an integer for a number. *)
Definition typed (s : setting) (value : json) : bool :=
  match value, field s default_config with
  | JBool _, JBool _ => true
  | JNum _, JNum _ => true
  | _, _ => false
  end.

Definition as_bool (j : option json) : option bool :=
  match j with Some (JBool b) => Some b | _ => None end.

Definition as_int (j : option json) : option Z :=
  match j with Some (JNum n) => Some n | _ => None end.

Definition as_strings (l : list json) : option (list string) :=
  mapM (fun j => match j with JStr s => Some s | _ => None end) l.

(** The [whitelist] section: missing, or a dictionary in which
    [enabled] and [moderator_roles] may be missing. *)
Definition whitelist_of (j : option json) : option (option Whitelist) :=
  match j with
  | None => Some None
  | Some (JDict w) =>
      match match dict_get "enabled" w with
            | None => Some None
            | Some (JBool b) => Some (Some b)
            | Some _ => None
            end,
            match dict_get "moderator_roles" w with
            | None => Some None
            | Some (JList l) => Some <$> as_strings l
            | Some _ => None
            end
      with
      | Some enabled, Some roles =>
          Some (Some {| wl_enabled := enabled; moderator_roles := roles |})
      | _, _ => None
      end
  | Some _ => None
  end.

(** The record of the configuration from the values found at the
    paths the code reads. *)
Definition read_settings (g : setting -> option json) (wl : option json)
  : option Config :=
  match as_bool (g ProfanityEnabled), as_bool (g SpamEnabled),
        as_bool (g RateEnabled), as_int (g MaxMessagesPerMinute),
        as_bool (g CapsEnabled), as_int (g MaxCapsPercentage),
        as_int (g MinMessageLength), as_bool (g EscalationEnabled),
        as_int (g WarnToMute), as_int (g MuteToKick), as_int (g KickToBan),
        whitelist_of wl
  with
  | Some a, Some b, Some c, Some d, Some e, Some f, Some g', Some h, Some i,
    Some j, Some k, Some w =>
      Some {| profanity_filter_enabled := a;
              spam_detection_enabled := b;
              rate_limiting_enabled := c;
              max_messages_per_minute := d;
              caps_abuse_enabled := e;
              max_caps_percentage := f;
              min_message_length := g';
              escalation_enabled := h;
              warn_to_mute_threshold := i;
              mute_to_kick_threshold := j;
              kick_to_ban_threshold := k;
              whitelist := w |}
  | _, _, _, _, _, _, _, _, _, _, _, _ => None
  end.

(** The configuration the plugin reads in a dictionary. *)
Definition config_of_dict (d : dict) : option Config :=
  read_settings (fun s => get_path (full_path s) (JDict d))
    (get_path ["whitelist"] (JDict d)).

#[global] Instance setting_eq_dec : EqDecision setting.
Proof. solve_decision. Defined.

Lemma default_dict_config : config_of_dict default_dict = Some default_config.
Proof. reflexivity. Qed.

Lemma read_settings_ext g g' wl :
  (forall s, g s = g' s) -> read_settings g wl = read_settings g' wl.
Proof. intros H. unfold read_settings. rewrite !H. reflexivity. Qed.

Lemma read_settings_fields g wl cfg :
  read_settings g wl = Some cfg ->
  (forall s, g s = Some (field s cfg)) /\ whitelist_of wl = Some (whitelist cfg).
Proof.
  unfold read_settings, as_bool, as_int.
  destruct (g ProfanityEnabled) as [[]|] eqn:E1; try discriminate.
  destruct (g SpamEnabled) as [[]|] eqn:E2; try discriminate.
  destruct (g RateEnabled) as [[]|] eqn:E3; try discriminate.
  destruct (g MaxMessagesPerMinute) as [[]|] eqn:E4; try discriminate.
  destruct (g CapsEnabled) as [[]|] eqn:E5; try discriminate.
  destruct (g MaxCapsPercentage) as [[]|] eqn:E6; try discriminate.
  destruct (g MinMessageLength) as [[]|] eqn:E7; try discriminate.
  destruct (g EscalationEnabled) as [[]|] eqn:E8; try discriminate.
  destruct (g WarnToMute) as [[]|] eqn:E9; try discriminate.
  destruct (g MuteToKick) as [[]|] eqn:E10; try discriminate.
  destruct (g KickToBan) as [[]|] eqn:E11; try discriminate.
  destruct (whitelist_of wl) as [w|]; [|discriminate].
  intros [= <-]. split; [|reflexivity].
  intros []; assumption.
Qed.

Lemma read_settings_values g wl (vals : setting -> json) w :
  (forall s, g s = Some (vals s)) ->
  (forall s, typed s (vals s) = true) ->
  whitelist_of wl = Some w ->
  exists cfg', read_settings g wl = Some cfg'
               /\ (forall s, field s cfg' = vals s)
               /\ whitelist cfg' = w.
Proof.
  intros Hg Ht Hw. unfold read_settings. rewrite !Hg, Hw.
  pose proof (Ht ProfanityEnabled) as T1. pose proof (Ht SpamEnabled) as T2.
  pose proof (Ht RateEnabled) as T3. pose proof (Ht MaxMessagesPerMinute) as T4.
  pose proof (Ht CapsEnabled) as T5. pose proof (Ht MaxCapsPercentage) as T6.
  pose proof (Ht MinMessageLength) as T7. pose proof (Ht EscalationEnabled) as T8.
  pose proof (Ht WarnToMute) as T9. pose proof (Ht MuteToKick) as T10.
  pose proof (Ht KickToBan) as T11.
  unfold typed in *. cbn [field default_config] in *.
  destruct (vals ProfanityEnabled) eqn:E1; try discriminate T1.
  destruct (vals SpamEnabled) eqn:E2; try discriminate T2.
  destruct (vals RateEnabled) eqn:E3; try discriminate T3.
  destruct (vals MaxMessagesPerMinute) eqn:E4; try discriminate T4.
  destruct (vals CapsEnabled) eqn:E5; try discriminate T5.
  destruct (vals MaxCapsPercentage) eqn:E6; try discriminate T6.
  destruct (vals MinMessageLength) eqn:E7; try discriminate T7.
  destruct (vals EscalationEnabled) eqn:E8; try discriminate T8.
  destruct (vals WarnToMute) eqn:E9; try discriminate T9.
  destruct (vals MuteToKick) eqn:E10; try discriminate T10.
  destruct (vals KickToBan) eqn:E11; try discriminate T11.
  eexists. split; [reflexivity|]. split; [|reflexivity].
  intros []; symmetry; assumption.
Qed.

Lemma typed_field s cfg : typed s (field s cfg) = true.
Proof. destruct s; reflexivity. Qed.

Lemma settings_diverge s s' : s' <> s -> diverge (full_path s) (full_path s') = true.
Proof. destruct s, s'; intros H; try reflexivity; destruct H; reflexivity. Qed.

Lemma settings_diverge_whitelist s : diverge (full_path s) ["whitelist"] = true.
Proof. destruct s; reflexivity. Qed.

(** X24. Updating one setting through [update_config] changes what the
    plugin reads for that setting and for no other: from a dictionary
    in which the plugin reads the configuration [cfg], the update
    [{section: {...: value}}] of a setting, a boolean for a switch or an
    integer for a number, leaves a dictionary in which the plugin reads
    [value] for that setting, the values of [cfg] for the ten others,
    and the same [whitelist] section. *)
Theorem update_config_one_setting (d : dict) (cfg : Config) (s : setting)
    (value : json) (written : bool) :
  config_of_dict d = Some cfg ->
  typed s value = true ->
  exists d' cfg',
    update_config [(fst (path_of s), single (snd (path_of s)) value)] written d
    = (written, d')
    /\ config_of_dict d' = Some cfg'
    /\ field s cfg' = value
    /\ (forall s', s' <> s -> field s' cfg' = field s' cfg)
    /\ whitelist cfg' = whitelist cfg.
Proof.
  intros Hcfg Ht.
  assert (Hleaf : is_leaf value = true)
    by (destruct value; try reflexivity; destruct s; discriminate Ht).
  apply read_settings_fields in Hcfg as [Hg Hw].
  eexists. 
  set (d' := deep_update d [(fst (path_of s), single (snd (path_of s)) value)]).
  assert (E : JDict d' = merge (single (full_path s) value) (Some (JDict d))).
  { unfold full_path. rewrite merge_single. reflexivity. }
  destruct (read_settings_values
              (fun s' => get_path (full_path s') (JDict d'))
              (get_path ["whitelist"] (JDict d'))
              (fun s' => if decide (s' = s) then value else field s' cfg)
              (whitelist cfg)) as (cfg' & Hread & Hfields & Hwl).
  - intros s'. rewrite E. destruct (decide (s' = s)) as [->|Hne].
    + apply get_path_merge_single, Hleaf.
    + rewrite (get_path_merge_diverge (full_path s) value (full_path s')
                 (Some (JDict d)) (settings_diverge s s' Hne)).
      apply Hg.
  - intros s'. destruct (decide (s' = s)) as [->|_]; [exact Ht | apply typed_field].
  - rewrite E.
    rewrite (get_path_merge_diverge (full_path s) value ["whitelist"]
               (Some (JDict d)) (settings_diverge_whitelist s)).
    exact Hw.
  - exists cfg'. split; [reflexivity|]. split; [exact Hread|].
    split; [rewrite Hfields, decide_True by reflexivity; reflexivity|].
    split; [|exact Hwl].
    intros s' Hne. rewrite Hfields, decide_False by exact Hne. reflexivity.
Qed.

Lemma update_config_one_setting_witness :
  exists d' cfg',
    update_config [("rules", JDict [("caps_abuse", JDict [("max_caps_percentage", JNum 50)])])]
      true default_dict = (true, d')
    /\ config_of_dict d' = Some cfg'
    /\ max_caps_percentage cfg' = 50
    /\ min_message_length cfg' = 10.
Proof.
  destruct (update_config_one_setting default_dict default_config MaxCapsPercentage
              (JNum 50) true eq_refl eq_refl)
    as (d' & cfg' & Hrun & Hread & Hset & Hkeep & _).
  exists d', cfg'. split; [exact Hrun|]. split; [exact Hread|].
  pose proof (Hkeep MinMessageLength ltac:(discriminate)) as Hmin.
  cbn [field] in Hset, Hmin.
  split; [injection Hset as E | injection Hmin as E]; exact E.
Defined.

(** ** The list of bypass users *)

(** [user_id == j] for an item of a list *)
Definition is_user (user_id : string) (j : json) : bool :=
  match j with
  | JStr s => String.eqb s user_id
  | _ => false
  end.

(** [list.remove]: the first item equal to the user id goes. *)
Fixpoint remove_first (user_id : string) (l : list json) : list json :=
  match l with
  | [] => []
  | j :: l' => if is_user user_id j then l' else j :: remove_first user_id l'
  end.

(** [config["whitelist"]["bypass_users"] = value] in a configuration
    whose [whitelist] section is the dictionary [w]. *)
Definition set_bypass_users (value : json) (w : dict) (config : dict) : dict :=
  dict_set "whitelist" (JDict (dict_set "bypass_users" value w)) config.

(** [whitelist_user]. Every exception is caught and gives [False]: the
    section is missing or is no dictionary, or [bypass_users] is no
    list. *)
Definition whitelist_user (user_id : string) (config : dict) : bool * dict :=
  match dict_get "whitelist" config with
  | Some (JDict w) =>
      let w1 := match dict_get "bypass_users" w with
                | None => dict_set "bypass_users" (JList []) w
                | Some _ => w
                end in
      let config1 := match dict_get "bypass_users" w with
                     | None => set_bypass_users (JList []) w config
                     | Some _ => config
                     end in
      match dict_get "bypass_users" w1 with
      | Some (JList l) =>
          if negb (existsb (is_user user_id) l)
          then (true, set_bypass_users (JList (l ++ [JStr user_id])) w1 config1)
          else (false, config1)
      | _ => (false, config1)
      end
  | _ => (false, config)
  end.

(** [remove_from_whitelist] *)
Definition remove_from_whitelist (user_id : string) (config : dict) : bool * dict :=
  match dict_get "whitelist" config with
  | Some (JDict w) =>
      match dict_get "bypass_users" w with
      | Some (JList l) =>
          if existsb (is_user user_id) l
          then (true, set_bypass_users (JList (remove_first user_id l)) w config)
          else (false, config)
      | _ => (false, config)
      end
  | _ => (false, config)
  end.

Lemma dict_set_set key v1 v2 d :
  dict_set key v2 (dict_set key v1 d) = dict_set key v2 d.
Proof.
  induction d as [|[k v] d IH]; simpl.
  - rewrite String.eqb_refl. reflexivity.
  - destruct (String.eqb_spec k key) as [->|Hne]; simpl.
    + rewrite String.eqb_refl. reflexivity.
    + destruct (String.eqb_spec k key); [congruence|]. rewrite IH. reflexivity.
Qed.

Lemma set_bypass_users_twice v1 v2 w config :
  set_bypass_users v2 (dict_set "bypass_users" v1 w) (set_bypass_users v1 w config)
  = set_bypass_users v2 w config.
Proof. unfold set_bypass_users. rewrite !dict_set_set. reflexivity. Qed.

Lemma set_bypass_users_read value w config :
  dict_get "whitelist" config = Some (JDict w) ->
  config_of_dict (set_bypass_users value w config) = config_of_dict config.
Proof.
  intros Hw. unfold config_of_dict, set_bypass_users.
  assert (Hwl : whitelist_of (get_path ["whitelist"]
                  (JDict (dict_set "whitelist"
                            (JDict (dict_set "bypass_users" value w)) config)))
                = whitelist_of (get_path ["whitelist"] (JDict config))).
  { cbn [get_path]. rewrite dict_get_set, String.eqb_refl, Hw.
    unfold whitelist_of. rewrite !dict_get_set. reflexivity. }
  unfold read_settings. rewrite Hwl.
  assert (Hg : forall s,
            get_path (full_path s)
              (JDict (dict_set "whitelist" (JDict (dict_set "bypass_users" value w)) config))
            = get_path (full_path s) (JDict config)).
  { intros s. unfold full_path. cbn [get_path]. rewrite dict_get_set.
    destruct s; reflexivity. }
  rewrite !Hg. reflexivity.
Qed.

(** X25. Whitelisting a user changes nothing the plugin reads. The list
    [bypass_users] that [whitelist_user] and [remove_from_whitelist]
    keep is consulted by no check: after either call the plugin reads
    the same configuration, the same [whitelist] section included, so
    every message is moderated as before. In a configuration without a
    [whitelist] section, the default one for instance, both calls
    return [False] and change nothing. *)
Theorem bypass_users_is_not_read (user_id : string) (config : dict) :
  config_of_dict (snd (whitelist_user user_id config)) = config_of_dict config
  /\ config_of_dict (snd (remove_from_whitelist user_id config)) = config_of_dict config
  /\ (dict_get "whitelist" config = None ->
      whitelist_user user_id config = (false, config)
      /\ remove_from_whitelist user_id config = (false, config))
  /\ whitelist_user user_id default_dict = (false, default_dict).
Proof.
  split; [|split; [|split; [|reflexivity]]].
  - unfold whitelist_user.
    destruct (dict_get "whitelist" config) as [[| | | | |w]|] eqn:Hw; try reflexivity.
    cbv zeta.
    destruct (dict_get "bypass_users" w) as [b|] eqn:Hb.
    + rewrite Hb. destruct b as [| | | |l|]; try reflexivity.
      destruct (negb (existsb (is_user user_id) l)); [|reflexivity].
      apply set_bypass_users_read, Hw.
    + rewrite dict_get_set, String.eqb_refl. cbn [existsb negb app snd].
      rewrite set_bypass_users_twice. apply set_bypass_users_read, Hw.
  - unfold remove_from_whitelist.
    destruct (dict_get "whitelist" config) as [[| | | | |w]|] eqn:Hw; try reflexivity.
    destruct (dict_get "bypass_users" w) as [[| | | |l|]|]; try reflexivity.
    destruct (existsb (is_user user_id) l); [|reflexivity].
    apply set_bypass_users_read, Hw.
  - intros Hw. unfold whitelist_user, remove_from_whitelist. rewrite Hw.
    split; reflexivity.
Qed.

(** The users listed under [bypass_users]; none when the key or the
    section is missing. *)
Definition bypass_users (config : dict) : list json :=
  match get_path ["whitelist"; "bypass_users"] (JDict config) with
  | Some (JList l) => l
  | _ => []
  end.

Lemma bypass_users_set l w config :
  bypass_users (set_bypass_users (JList l) w config) = l.
Proof.
  unfold bypass_users, set_bypass_users. cbn [get_path].
  rewrite dict_get_set, String.eqb_refl, dict_get_set, String.eqb_refl. reflexivity.
Qed.

Lemma whitelist_set value w config :
  dict_get "whitelist" (set_bypass_users value w config)
  = Some (JDict (dict_set "bypass_users" value w)).
Proof. unfold set_bypass_users. rewrite dict_get_set, String.eqb_refl. reflexivity. Qed.

Lemma existsb_is_user_last user_id l :
  existsb (is_user user_id) (l ++ [JStr user_id]) = true.
Proof.
  rewrite existsb_app. cbn [existsb is_user]. rewrite String.eqb_refl.
  apply orb_true_iff. right. reflexivity.
Qed.

Lemma remove_first_last user_id l :
  existsb (is_user user_id) l = false ->
  remove_first user_id (l ++ [JStr user_id]) = l.
Proof.
  induction l as [|j l IH]; simpl.
  - intros _. rewrite String.eqb_refl. reflexivity.
  - destruct (is_user user_id j); [discriminate|]. simpl. intros H.
    rewrite (IH H). reflexivity.
Qed.

(** X26. Adding a user to the bypass list and taking the user out
    again is a round trip: when [whitelist_user] returns [True], the
    user is the last of the list; a second [whitelist_user] returns
    [False] and changes nothing; [remove_from_whitelist] then returns
    [True] and leaves the list as it was before the user was added,
    after which a second removal returns [False]. *)
Theorem whitelist_round_trip (user_id : string) (config config1 : dict) :
  whitelist_user user_id config = (true, config1) ->
  bypass_users config1 = (bypass_users config ++ [JStr user_id])%list
  /\ whitelist_user user_id config1 = (false, config1)
  /\ exists config2,
       remove_from_whitelist user_id config1 = (true, config2)
       /\ bypass_users config2 = bypass_users config
       /\ remove_from_whitelist user_id config2 = (false, config2).
Proof.
  unfold whitelist_user.
  destruct (dict_get "whitelist" config) as [[| | | | |w]|] eqn:Hw; try discriminate.
  cbv zeta.
  assert (Hstep : forall l w0 config0,
            existsb (is_user user_id) l = false ->
            bypass_users config = l ->
            config1 = set_bypass_users (JList (l ++ [JStr user_id])) w0 config0 ->
            bypass_users config1 = (bypass_users config ++ [JStr user_id])%list
            /\ whitelist_user user_id config1 = (false, config1)
            /\ exists config2,
                 remove_from_whitelist user_id config1 = (true, config2)
                 /\ bypass_users config2 = bypass_users config
                 /\ remove_from_whitelist user_id config2 = (false, config2)).
  { intros l w0 config0 Hl Hold ->. rewrite Hold.
    split; [apply bypass_users_set|]. split.
    - unfold whitelist_user. rewrite whitelist_set. cbv zeta.
      rewrite !dict_get_set, String.eqb_refl. cbn iota.
      rewrite dict_get_set, String.eqb_refl, existsb_is_user_last. reflexivity.
    - eexists. split.
      + unfold remove_from_whitelist. rewrite whitelist_set.
        rewrite dict_get_set, String.eqb_refl, existsb_is_user_last. reflexivity.
      + rewrite remove_first_last by exact Hl.
        split; [apply bypass_users_set|].
        unfold remove_from_whitelist. rewrite whitelist_set.
        rewrite dict_get_set, String.eqb_refl, Hl. reflexivity. }
  destruct (dict_get "bypass_users" w) as [b|] eqn:Hb.
  - rewrite Hb. destruct b as [| | | |l|]; try discriminate.
    destruct (existsb (is_user user_id) l) eqn:Hl; [discriminate|].
    cbn [negb]. intros [= <-]. apply (Hstep l w config Hl); [|reflexivity].
    unfold bypass_users. cbn [get_path]. rewrite Hw, Hb. reflexivity.
  - rewrite dict_get_set, String.eqb_refl. cbn [existsb negb].
    intros [= <-].
    apply (Hstep [] (dict_set "bypass_users" (JList []) w)
             (set_bypass_users (JList []) w config) eq_refl); [|reflexivity].
    unfold bypass_users. cbn [get_path]. rewrite Hw, Hb. reflexivity.
Qed.

(** A configuration with a [whitelist] section. *)
Definition whitelist_dict : dict :=
  (default_dict
   ++ [("whitelist", JDict [("enabled", JBool true);
                            ("moderator_roles", JList [JStr "admin"; JStr "moderator"])])])%list.

Lemma whitelist_round_trip_witness :
  exists config1 config2,
    whitelist_user "alice" whitelist_dict = (true, config1)
    /\ bypass_users config1 = [JStr "alice"]
    /\ remove_from_whitelist "alice" config1 = (true, config2)
    /\ bypass_users config2 = [].
Proof.
  destruct (whitelist_round_trip "alice" whitelist_dict _ eq_refl)
    as (H1 & _ & config2 & H2 & H3 & _).
  eexists _, config2. split; [reflexivity|]. split; [exact H1|].
  split; [exact H2 | exact H3].
Defined.

(** * The Discord adapter *)

(** The calls the adapter makes on the platform, in order; they are
    taken to succeed. *)
Inductive platform_call :=
| Delete
| Send (text : string).

(** What the adapter reads of a Discord message: [author.bot],
    [str(author.id)], [author.mention], the names of [author.roles],
    [content] and [str(channel.id)]. *)
Record DiscordMessage := {
  author_bot : bool;
  author_id : string;
  author_mention : string;
  author_roles : list string;
  content : string;
  channel_id : string
}.

(** [result["actions_taken"]]: the dictionaries of a rejection have no
    such key. *)
Definition actions_taken_of (result : Decision) : option (list ModerationAction) :=
  match result with
  | RejectedBanned _ | RejectedMuted _ => None
  | Moderated _ _ actions_taken _ => Some actions_taken
  | Bypassed => Some []
  end.

(** [DiscordModerationBot.on_message]: the result or the exception, the
    state of the plugin, and the calls made on the platform. *)
Definition on_message (message : DiscordMessage) (clk : Clock) (st : Plugin)
  : result (option Decision) * Plugin * list platform_call :=
  if author_bot message then (Ok None, st, [])
  else
    match API.moderate_message (author_id message) (content message)
            (Some (author_roles message)) clk st with
    | (Raise e, st') => (Raise e, st', [])
    | (Ok result, st') =>
        if negb (allowed result) then
          match actions_taken_of result with
          | None => (Raise (KeyError "actions_taken"), st', [Delete])
          | Some actions_taken =>
              if bool_decide (WARN ∈ actions_taken) then
                (Ok (Some result), st',
                 [Delete;
                  Send (String.append (author_mention message)
                          ", please watch your language!")])
              else if bool_decide (MUTE ∈ actions_taken) then
                (Ok (Some result), st',
                 [Delete;
                  Send (String.append (author_mention message)
                          " has been muted for violating chat rules.")])
              else (Ok (Some result), st', [Delete])
          end
        else (Ok (Some result), st', [])
    end.

(** X27. The Discord adapter fails on a punished user: for a message of
    a user under an unexpired ban or mute, whose roles give no bypass,
    [on_message] deletes the message and then raises [KeyError] for
    [actions_taken], a key the dictionary of a rejection does not have;
    no notice is sent and the plugin is left as it was. *)
Theorem discord_fails_on_punished_user (message : DiscordMessage) (clk : Clock)
    (st : Plugin) (u : UserStatus) (t : Z) :
  author_bot message = false ->
  users st !! author_id message = Some u ->
  active_ban u clk = Some t \/ active_mute u clk = Some t ->
  (author_roles message = []
   \/ API._has_bypass_permission (author_roles message) st = (Ok false, st)) ->
  on_message message clk st = (Raise (KeyError "actions_taken"), st, [Delete]).
Proof.
  intros Hbot Hu Hp Hroles. unfold on_message. rewrite Hbot.
  assert (Hcall : exists t',
            API.moderate_message (author_id message) (content message)
              (Some (author_roles message)) clk st
            = (Ok (RejectedBanned t'), st)
            \/ API.moderate_message (author_id message) (content message)
                 (Some (author_roles message)) clk st
               = (Ok (RejectedMuted t'), st)).
  { assert (Hplugin : exists t',
              moderate_message (author_id message) (content message) clk st
              = (Ok (RejectedBanned t'), st)
              \/ moderate_message (author_id message) (content message) clk st
                 = (Ok (RejectedMuted t'), st)).
    { unfold moderate_message.
      rewrite (bind_Ok _ _ _ _ _ (get_user_status_present _ u st Hu)).
      destruct (active_ban u clk) as [b|]; [exists b; left; reflexivity|].
      destruct Hp as [Hp|Hp]; [discriminate Hp|]. rewrite Hp.
      exists t. right. reflexivity. }
    unfold API.moderate_message.
    destruct Hroles as [-> | Hcheck]; [exact Hplugin|].
    destruct (author_roles message) as [|r rs]; [exact Hplugin|].
    rewrite (bind_Ok _ _ _ _ _ Hcheck). exact Hplugin. }
  destruct Hcall as (t' & [-> | ->]); reflexivity.
Qed.

Lemma discord_fails_on_punished_user_witness :
  on_message {| author_bot := false; author_id := "mallory";
                author_mention := "<@mallory>"; author_roles := [];
                content := "hello"; channel_id := "general" |}
    {| now := 5000000; time := 5 |} punished_state
  = (Raise (KeyError "actions_taken"), punished_state, [Delete]).
Proof.
  apply (discord_fails_on_punished_user _ _ _ muted_example 7000000);
    [reflexivity | reflexivity | right; reflexivity | left; reflexivity].
Defined.

Lemma warn_in_actions vs :
  WARN ∈ map rule_action vs ->
  exists vt, vt ∈ vs /\ rule_action vt = WARN.
Proof.
  intros H. apply list_elem_of_In, in_map_iff in H as (vt & Hv & Hin).
  exists vt. split; [apply list_elem_of_In, Hin | exact Hv].
Qed.

(** X28. What the Discord adapter does with a message that went through
    detection: a message the decision allows is left alone; a message
    it does not allow is deleted and followed by exactly one notice,
    the request to watch one's language when Profanity or Caps-Abuse
    is among the violations, and the notice of the mute otherwise. The
    decision is returned and the plugin is left as the API left it. *)
Theorem discord_deletes_and_notifies (message : DiscordMessage) (clk : Clock)
    (st st' : Plugin) (d : Decision) :
  author_bot message = false ->
  API.moderate_message (author_id message) (content message)
    (Some (author_roles message)) clk st = (Ok d, st') ->
  ran_detection d ->
  on_message message clk st
  = (Ok (Some d), st',
     if allowed d then []
     else [Delete;
           Send (String.append (author_mention message)
                   (if bool_decide (PROFANITY ∈ decision_violations d
                                    \/ CAPS_ABUSE ∈ decision_violations d)
                    then ", please watch your language!"
                    else " has been muted for violating chat rules."))]).
Proof.
  intros Hbot Hrun Hd. unfold on_message. rewrite Hbot, Hrun.
  assert (Hplugin : moderate_message (author_id message) (content message) clk st
                    = (Ok d, st')).
  { destruct (API_moderate_message_cases (author_id message) (content message)
                (Some (author_roles message)) clk st) as [[key E]|[E|E]];
      rewrite E in Hrun; [discriminate Hrun | | exact Hrun].
    injection Hrun as <- _. destruct Hd. }
  destruct (moderate_message_pass _ _ _ _ _ _ Hplugin Hd) as (u' & -> & _).
  set (vs := detected (config st) (status_of (author_id message) st)
               (content message) clk).
  cbn [allowed actions_taken_of decision_violations].
  destruct (verdict vs) eqn:Hv; [reflexivity|]. cbn [negb].
  apply verdict_false in Hv.
  destruct (bool_decide (WARN ∈ map rule_action vs)) eqn:Hw.
  - apply bool_decide_eq_true in Hw. apply warn_in_actions in Hw as (vt & Hin & Hvt).
    rewrite bool_decide_eq_true_2; [reflexivity|].
    pose proof Hin as Hin'. unfold vs in Hin'.
    apply elem_of_detected in Hin' as [[-> _]|[[-> _]|[[-> _]|[-> _]]]];
      try discriminate Hvt; auto.
  - apply bool_decide_eq_false in Hw.
    assert (Hno : ~ (PROFANITY ∈ vs \/ CAPS_ABUSE ∈ vs)).
    { intros [H|H]; apply Hw;
        apply list_elem_of_In, in_map_iff; eexists; (split; [|apply list_elem_of_In, H]);
        reflexivity. }
    rewrite (bool_decide_eq_false_2 _ Hno).
    destruct Hv as [H|H]; [destruct Hno; left; exact H|].
    rewrite bool_decide_eq_true_2; [reflexivity|].
    apply list_elem_of_In, in_map_iff. exists SPAM.
    split; [reflexivity | apply list_elem_of_In, H].
Qed.

Lemma discord_deletes_and_notifies_witness :
  exists d st',
    on_message {| author_bot := false; author_id := "user3";
                  author_mention := "<@user3>"; author_roles := [];
                  content := "hello there"; channel_id := "general" |}
      {| now := 2000000; time := 2 |} greeted
    = (Ok (Some d), st',
       [Delete; Send "<@user3> has been muted for violating chat rules."]).
Proof.
  assert (E : exists snap st',
             API.moderate_message "user3" "hello there" (Some [])
               {| now := 2000000; time := 2 |} greeted
             = (Ok (Moderated false [SPAM] [MUTE] snap), st'))
    by (eexists _, _; vm_compute; reflexivity).
  destruct E as (snap & st' & Hrun).
  eexists _, st'.
  rewrite (discord_deletes_and_notifies
             {| author_bot := false; author_id := "user3";
                author_mention := "<@user3>"; author_roles := [];
                content := "hello there"; channel_id := "general" |}
             _ _ st' _ eq_refl Hrun I).
  reflexivity.
Defined.

(** X29. With a configuration that has no [whitelist] section, the
    default one for instance, the Discord adapter moderates nothing for
    an author who has a role: [on_message] raises [KeyError] for
    [whitelist] before the message is inspected, whatever it says and
    whatever the standing of the author; nothing is deleted, no user
    becomes tracked and nothing is logged. *)
Theorem discord_needs_whitelist_section (message : DiscordMessage) (clk : Clock)
    (st : Plugin) :
  author_bot message = false ->
  whitelist (config st) = None ->
  author_roles message <> [] ->
  on_message message clk st = (Raise (KeyError "whitelist"), st, []).
Proof.
  intros Hbot Hwl Hroles. unfold on_message. rewrite Hbot.
  unfold API.moderate_message.
  destruct (author_roles message) as [|r rs]; [destruct Hroles; reflexivity|].
  unfold API._has_bypass_permission, bind, the_config, raise. rewrite Hwl.
  reflexivity.
Qed.

Lemma discord_needs_whitelist_section_witness :
  on_message {| author_bot := false; author_id := "user2";
                author_mention := "<@user2>"; author_roles := ["@everyone"];
                content := "This is a damn test"; channel_id := "general" |}
    {| now := 1000000; time := 1 |} (init default_config)
  = (Raise (KeyError "whitelist"), init default_config, []).
Proof.
  apply (discord_needs_whitelist_section
           {| author_bot := false; author_id := "user2";
              author_mention := "<@user2>"; author_roles := ["@everyone"];
              content := "This is a damn test"; channel_id := "general" |}
           {| now := 1000000; time := 1 |} (init default_config));
    [reflexivity | reflexivity | discriminate].
Defined.

(** * The kinds of violation that are reported *)

(** The kinds the detection pass can record. *)
Definition pipeline_kind (v : UserViolation) : Prop :=
  violation_type v ∈ [PROFANITY; SPAM; RATE_LIMIT; CAPS_ABUSE].

Lemma block_kinds hit uid message vt a d clk acc st u st' u' :
  vt ∈ [PROFANITY; SPAM; RATE_LIMIT; CAPS_ABUSE] ->
  block hit uid message vt a d clk acc st u st' u' ->
  exists l, violations st' = (violations st ++ l)%list /\ Forall pipeline_kind l.
Proof.
  intros Hvt B. destruct (block_effect _ _ _ _ _ _ _ _ _ _ _ _ B) as (_ & _ & Hv & _).
  eexists. split; [exact Hv|].
  destruct hit; [|constructor]. constructor; [exact Hvt | constructor].
Qed.

Lemma kinds_trans (l0 l1 l2 : list UserViolation) :
  (exists l, l1 = (l0 ++ l)%list /\ Forall pipeline_kind l) ->
  (exists l, l2 = (l1 ++ l)%list /\ Forall pipeline_kind l) ->
  exists l, l2 = (l0 ++ l)%list /\ Forall pipeline_kind l.
Proof.
  intros (a & -> & Ha) (b & -> & Hb). exists (a ++ b)%list.
  split; [symmetry; apply app_assoc | apply Forall_app; split; assumption].
Qed.

Lemma kinds_refl (l0 : list UserViolation) :
  exists l, l0 = (l0 ++ l)%list /\ Forall pipeline_kind l.
Proof. exists []. split; [symmetry; apply app_nil_r | constructor]. Qed.

Lemma moderate_message_kinds uid message clk st :
  exists l, violations (snd (moderate_message uid message clk st))
            = (violations st ++ l)%list
            /\ Forall pipeline_kind l.
Proof.
  destruct (get_user_status_effect uid st) as (st0 & Hg & Hu0 & _ & Hv0 & _).
  unfold moderate_message. rewrite (bind_Ok _ _ _ _ _ Hg).
  assert (Hrej : exists l, violations st0 = (violations st ++ l)%list
                           /\ Forall pipeline_kind l)
    by (rewrite Hv0; apply kinds_refl).
  destruct (active_ban (status_of uid st) clk); [exact Hrej|].
  destruct (active_mute (status_of uid st) clk); [exact Hrej|].
  rewrite <- Hv0.
  destruct (detection_pass_run uid message clk st0 _ Hu0)
    as (st1 & u1 & st2 & u2 & st3 & u3 & B1 & B2 & B3 & Hend).
  assert (K1 := block_kinds _ _ _ PROFANITY _ _ _ _ _ _ _ _
                  ltac:(rewrite !elem_of_cons; tauto) B1).
  assert (K2 := block_kinds _ _ _ SPAM _ _ _ _ _ _ _ _
                  ltac:(rewrite !elem_of_cons; tauto) B2).
  assert (K3 := block_kinds _ _ _ RATE_LIMIT _ _ _ _ _ _ _ _
                  ltac:(rewrite !elem_of_cons; tauto) B3).
  pose proof (kinds_trans _ _ _ (kinds_trans _ _ _ K1 K2) K3) as K123.
  destruct Hend as [[_ ->]|(h4 & st4 & u4 & _ & B4 & Hok)]; [exact K123|].
  assert (K4 := block_kinds _ _ _ CAPS_ABUSE _ _ _ _ _ _ _ _
                  ltac:(rewrite !elem_of_cons; tauto) B4).
  cbv zeta in Hok. rewrite Hok. cbn [snd tracked violations].
  exact (kinds_trans _ _ _ K123 K4).
Qed.

Lemma run_op_kinds o st :
  exists l, violations (run_op o st) = (violations st ++ l)%list
            /\ Forall pipeline_kind l.
Proof.
  destruct o as [uid message roles clk|uid action duration clk|clk|uid].
  - destruct (run_op_moderate uid message roles clk st) as [-> | ->];
      [apply kinds_refl | apply moderate_message_kinds].
  - cbn [run_op]. unfold API.apply_manual_action.
    destruct (ModerationAction_of_value action) as [a|]; [|apply kinds_refl].
    destruct (apply_moderation_action_effect uid a duration clk st)
      as (st' & Hrun & _ & _ & Hv & _).
    rewrite Hrun. cbn [snd]. rewrite Hv. apply kinds_refl.
  - apply kinds_refl.
  - cbn [run_op]. unfold API.get_user_status.
    destruct (get_user_status_effect uid st) as (st' & Hg & _ & _ & Hv & _).
    rewrite (bind_Ok _ _ _ _ _ Hg). cbn [snd ret]. rewrite Hv. apply kinds_refl.
Qed.

Lemma reachable_kinds cfg st : reachable cfg st -> Forall pipeline_kind (violations st).
Proof.
  induction 1 as [|st o _ IH]; [constructor|].
  destruct (run_op_kinds o st) as (l & -> & Hl). apply Forall_app. split; assumption.
Qed.

(** X30. Only four kinds of violation are ever reported. In every state
    the API can reach, each entry of the log is a Profanity, Spam,
    Rate-Limit or Caps-Abuse violation, and the statistics list no other
    kind: [repetitive] and [inappropriate_content] never occur. *)
Theorem only_four_kinds_reported (cfg : Config) (st : Plugin) :
  reachable cfg st ->
  (forall v, v ∈ violations st ->
             violation_type v ∈ [PROFANITY; SPAM; RATE_LIMIT; CAPS_ABUSE])
  /\ (forall k, is_Some (violation_types (get_moderation_stats st) !! k) ->
                k ∈ ["profanity"; "spam"; "rate_limit"; "caps_abuse"])
  /\ violation_types (get_moderation_stats st) !! "repetitive" = None
  /\ violation_types (get_moderation_stats st) !! "inappropriate_content" = None.
Proof.
  intros Hr. pose proof (reachable_kinds cfg st Hr) as Hk.
  rewrite Forall_forall in Hk.
  assert (Hkeys : forall k,
            is_Some (violation_types (get_moderation_stats st) !! k) ->
            k ∈ ["profanity"; "spam"; "rate_limit"; "caps_abuse"]).
  { intros k [n Hn]. cbn [get_moderation_stats violation_types] in Hn.
    destruct (fold_count_type (violations st) ∅) as (_ & _ & _ & _ & _ & S6).
    destruct (decide (k ∈ ["profanity"; "spam"; "rate_limit"; "caps_abuse"]))
      as [Hin|Hout]; [exact Hin|].
    rewrite S6 in Hn; [discriminate Hn | apply lookup_empty |].
    intros vt ->. unfold entries_of_type, len.
    destruct (filter (fun v => violation_type v = vt) (violations st))
      as [|v l] eqn:Hf; [reflexivity|].
    assert (Hv : v ∈ filter (fun v => violation_type v = vt) (violations st))
      by (rewrite Hf; apply elem_of_cons; left; reflexivity).
    apply list_elem_of_filter in Hv as [Hty Hv]. specialize (Hk v Hv).
    unfold pipeline_kind in Hk. rewrite Hty in Hk. exfalso. apply Hout.
    revert Hk. rewrite !elem_of_cons, !elem_of_nil.
    intros [->|[->|[->|[->|[]]]]]; simpl; tauto. }
  split; [exact Hk|]. split; [exact Hkeys|].
  split.
  - destruct (violation_types (get_moderation_stats st) !! "repetitive") eqn:E;
      [|reflexivity].
    specialize (Hkeys "repetitive" ltac:(rewrite E; eauto)).
    revert Hkeys. rewrite !elem_of_cons, !elem_of_nil.
    intros [H|[H|[H|[H|[]]]]]; discriminate H.
  - destruct (violation_types (get_moderation_stats st) !! "inappropriate_content") eqn:E;
      [|reflexivity].
    specialize (Hkeys "inappropriate_content" ltac:(rewrite E; eauto)).
    revert Hkeys. rewrite !elem_of_cons, !elem_of_nil.
    intros [H|[H|[H|[H|[]]]]]; discriminate H.
Qed.

Lemma only_four_kinds_reported_witness :
  violation_types (get_moderation_stats busy_state) !! "repetitive" = None
  /\ violation_types (get_moderation_stats busy_state) !! "profanity" = Some 1.
Proof.
  split; [|vm_compute; reflexivity].
  apply (only_four_kinds_reported default_config busy_state busy_state_reachable).
Defined.
